(** * PWL Editor: the waveform store, constraint engine, viewport and codec

    A shallow embedding of [pwl_editor.py] (classes [PWLGraphCanvas] and
    [PWLEditor]).  Python floats are kept abstract behind the class
    [PyFloat]; two carriers implement it:

    - [float], Rocq's primitive IEEE-754 binary64 numbers, the very numbers
      CPython computes with (used to run the code on concrete inputs);
    - [Q], exact rationals (used for the statements quantified over all
      inputs, where rounding is left out).

    Every function below is written once, over the class, and follows the
    Python text statement by statement. *)

From Stdlib Require Import ZArith QArith Qabs Qround Qpower List Bool String Ascii.
From Stdlib Require Import Lia Lqa Permutation Sorted Floats.
Import ListNotations.

Set Warnings "-inexact-float,-register-all".

(* ================================================================= *)
(** ** Python numbers *)

(** The mathematical content of a float: what [repr], [round] and the
    [format] mini-language look at.  [VFin s m] is the finite number of sign
    bit [s] and magnitude [m >= 0]. *)
Inductive fval : Type :=
| VNan
| VInf (neg : bool)
| VFin (neg : bool) (mag : Q).

Class PyFloat (F : Type) : Type := {
  lit : Z -> Z -> F;             (* the literal [m e k], i.e. m * 10^k *)
  fadd : F -> F -> F;
  fsub : F -> F -> F;
  fmul : F -> F -> F;
  fdiv : F -> F -> F;
  fopp : F -> F;
  fabs : F -> F;
  flt : F -> F -> bool;
  fle : F -> F -> bool;
  feq : F -> F -> bool;
  fval_of : F -> fval;
  finf : option F;               (* [float('inf')], if the carrier has one *)
  fnan : option F                (* [float('nan')], if the carrier has one *)
}.

Declare Scope py_scope.
Delimit Scope py_scope with py.
Notation "x + y" := (fadd x y) : py_scope.
Notation "x - y" := (fsub x y) : py_scope.
Notation "x * y" := (fmul x y) : py_scope.
Notation "x / y" := (fdiv x y) : py_scope.
Notation "- x" := (fopp x) : py_scope.
Notation "x <? y" := (flt x y) (at level 70, no associativity) : py_scope.
Notation "x <=? y" := (fle x y) (at level 70, no associativity) : py_scope.
Notation "x >? y" := (flt y x) (at level 70, no associativity) : py_scope.
Notation "x >=? y" := (fle y x) (at level 70, no associativity) : py_scope.
Notation "x =? y" := (feq x y) (at level 70, no associativity) : py_scope.
Notation "x <>? y" := (negb (feq x y)) (at level 70, no associativity) : py_scope.

(** *** The binary64 carrier *)

Module B64.

  (** [float(n)] for a Python int: the nearest binary64, ties to even. *)
Definition sf_of_Z (z : Z) : spec_float := binary_normalize prec emax z 0 false.

  (** A decimal literal [m * 10^k] is read with a single rounding: an exact
      integer for [k >= 0], one correctly rounded division otherwise. *)
Definition sf_lit (m k : Z) : spec_float :=
    if (0 <=? k)%Z then sf_of_Z (m * 10 ^ k)
    else
      let den := S754_finite false (Z.to_pos (10 ^ (- k))) 0 in
      match m with
      | Z0 => S754_zero false
      | Zpos p => SFdiv prec emax (S754_finite false p 0) den
      | Zneg p => SFdiv prec emax (S754_finite true p 0) den
      end.

Definition lit (m k : Z) : float := SF2Prim (sf_lit m k).

Definition Qpow2 (m : positive) (e : Z) : Q :=
    match e with
    | Z0 => Zpos m # 1
    | Zpos p => (Zpos m * 2 ^ Zpos p) # 1
    | Zneg p => Zpos m # (2 ^ p)
    end.

Definition fval_of (x : float) : fval :=
    match Prim2SF x with
    | S754_nan => VNan
    | S754_infinity s => VInf s
    | S754_zero s => VFin s 0
    | S754_finite s m e => VFin s (Qpow2 m e)
    end.

End B64.

#[global] Instance float_PyFloat : PyFloat float := {
  lit := B64.lit;
  fadd := PrimFloat.add;
  fsub := PrimFloat.sub;
  fmul := PrimFloat.mul;
  fdiv := PrimFloat.div;
  fopp := PrimFloat.opp;
  fabs := PrimFloat.abs;
  flt := PrimFloat.ltb;
  fle := PrimFloat.leb;
  feq := PrimFloat.eqb;
  fval_of := B64.fval_of;
  finf := Some PrimFloat.infinity;
  fnan := Some PrimFloat.nan
}.

(** *** The exact carrier *)

Module Exact.

Definition lit (m k : Z) : Q :=
    if (0 <=? k)%Z then (m * 10 ^ k) # 1 else m # Z.to_pos (10 ^ (- k)).

Definition ltb (x y : Q) : bool := negb (Qle_bool y x).

Definition fval_of (x : Q) : fval := VFin (ltb x 0) (Qabs x).

End Exact.

#[global] Instance Q_PyFloat : PyFloat Q := {
  lit := Exact.lit;
  fadd := Qplus;
  fsub := Qminus;
  fmul := Qmult;
  fdiv := Qdiv;
  fopp := Qopp;
  fabs := Qabs;
  flt := Exact.ltb;
  fle := Qle_bool;
  feq := Qeq_bool;
  fval_of := Exact.fval_of;
  finf := None;
  fnan := None
}.

(** *** Builtins written with the class *)

Section Builtins.
Context {F : Type} `{PyFloat F}.
Local Open Scope py_scope.

  (** [max(a, b)] keeps [a] unless [b > a]; [min(a, b)] keeps [a] unless
      [b < a] (CPython's [min_max]). *)
Definition py_max (a b : F) : F := if b >? a then b else a.
Definition py_min (a b : F) : F := if b <? a then b else a.

  (** Round half to even on a non-negative rational. *)
Definition round_half_even (q : Q) : Z :=
    let n := Qnum q in
    let d := Zpos (Qden q) in
    let f := (n / d)%Z in
    match (2 * (n mod d) ?= d)%Z with
    | Lt => f
    | Gt => (f + 1)%Z
    | Eq => if Z.even f then f else (f + 1)%Z
    end.

  (** [round(x)] with one argument: an int, or an exception ([None]) for an
      infinity or a NaN. *)
Definition py_round (x : F) : option Z :=
    match fval_of x with
    | VFin s m => Some (if s then (- round_half_even m)%Z else round_half_even m)
    | _ => None
    end.

  (** [float(n)] as it happens in [n * x] for an int [n]. *)
Definition of_int (n : Z) : F := lit n 0.

End Builtins.

(* ================================================================= *)
(** ** Python lists *)

Section PyList.
Context {A : Type}.

  (** [list.sort] and [sorted] are stable and only ever ask [x < y].  The
      model inserts each element in front of the sorted tail, moving it past
      the elements strictly smaller than it. *)
Fixpoint insert_sorted (lt : A -> A -> bool) (x : A) (l : list A) : list A :=
    match l with
    | [] => [x]
    | y :: l' => if lt y x then y :: insert_sorted lt x l' else x :: l
    end.

Definition py_sort (lt : A -> A -> bool) (l : list A) : list A :=
    fold_right (insert_sorted lt) [] l.

  (** [l.index(x)]: the first position holding a value equal to [x]. *)
Fixpoint index_from (eqb : A -> A -> bool) (x : A) (l : list A) (i : nat) : option nat :=
    match l with
    | [] => None
    | y :: l' => if eqb y x then Some i else index_from eqb x l' (S i)
    end.

Definition py_index (eqb : A -> A -> bool) (x : A) (l : list A) : option nat :=
    index_from eqb x l 0.

  (** [l[i] = x] for an index known to be in range. *)
Fixpoint set_nth (i : nat) (x : A) (l : list A) : list A :=
    match l, i with
    | [], _ => []
    | _ :: l', O => x :: l'
    | y :: l', S i' => y :: set_nth i' x l'
    end.

  (** [del l[i]]. *)
Fixpoint del_nth (i : nat) (l : list A) : list A :=
    match l, i with
    | [], _ => []
    | _ :: l', O => l'
    | y :: l', S i' => y :: del_nth i' l'
    end.

  (** [enumerate(l)] starting at [i]. *)
Fixpoint enumerate_from (i : nat) (l : list A) : list (nat * A) :=
    match l with
    | [] => []
    | x :: l' => (i, x) :: enumerate_from (S i) l'
    end.

End PyList.

(** A Python set of small ints, kept as an increasing list; [set_add_nat] is
    [s.add(i)]. *)
Fixpoint set_add_nat (i : nat) (s : list nat) : list nat :=
  match s with
  | [] => [i]
  | j :: s' =>
      if Nat.ltb i j then i :: s
      else if Nat.eqb i j then s
      else j :: set_add_nat i s'
  end.

Definition mem_nat (i : nat) (l : list nat) : bool := existsb (Nat.eqb i) l.

(* ================================================================= *)
(** ** The editor state *)

Section Editor.
Context {F : Type} `{PyFloat F}.
Local Open Scope py_scope.

Definition point : Type := F * F.

  (** Tuple comparison: the first differing component decides. *)
Definition tuple_lt (p q : point) : bool :=
    if fst p <>? fst q then fst p <? fst q
    else if snd p <>? snd q then snd p <? snd q
    else false.

Definition tuple_eq (p q : point) : bool :=
    (fst p =? fst q) && (snd p =? snd q).

Definition key_lt (p q : point) : bool := fst p <? fst q.

  (** [PWLGraphCanvas]: the viewport, the widget size reported by
      [winfo_width]/[winfo_height], and the preview limits. *)
Record canvas : Type := {
    x_min : F;
    x_max : F;
    y_min : F;
    y_max : F;
    winfo_width : Z;
    winfo_height : Z;
    _lod_pixel_step : Z;
    _max_preview_points : nat
  }.

Definition margin_left : Z := 60.
Definition margin_right : Z := 20.
Definition margin_top : Z := 20.
Definition margin_bottom : Z := 30.

  (** [PWLEditor]: the fields of [_init_data] the operations below touch. *)
Record editor : Type := {
    points : list point;
    selected_indices : list nat;
    primary_selected_index : option nat;
    dragging_indices : list nat;
    drag_start : option (F * F);
    drag_original_data : list (nat * point);
    drag_precision : F;
    panning : bool;
    placement_mode : bool;
    placement_data : list point;
    the_canvas : canvas
  }.

Definition TIME_MIN_PRECISION : F := lit 1 (-12).
Definition DEFAULT_DRAG_PRECISION : F := lit 1 (-3).

Definition with_points (s : editor) (pts : list point) : editor :=
    {| points := pts;
       selected_indices := selected_indices s;
       primary_selected_index := primary_selected_index s;
       dragging_indices := dragging_indices s;
       drag_start := drag_start s;
       drag_original_data := drag_original_data s;
       drag_precision := drag_precision s;
       panning := panning s;
       placement_mode := placement_mode s;
       placement_data := placement_data s;
       the_canvas := the_canvas s |}.

Definition with_selection (s : editor) (sel : list nat) (prim : option nat) : editor :=
    {| points := points s;
       selected_indices := sel;
       primary_selected_index := prim;
       dragging_indices := dragging_indices s;
       drag_start := drag_start s;
       drag_original_data := drag_original_data s;
       drag_precision := drag_precision s;
       panning := panning s;
       placement_mode := placement_mode s;
       placement_data := placement_data s;
       the_canvas := the_canvas s |}.

Definition with_canvas (s : editor) (c : canvas) : editor :=
    {| points := points s;
       selected_indices := selected_indices s;
       primary_selected_index := primary_selected_index s;
       dragging_indices := dragging_indices s;
       drag_start := drag_start s;
       drag_original_data := drag_original_data s;
       drag_precision := drag_precision s;
       panning := panning s;
       placement_mode := placement_mode s;
       placement_data := placement_data s;
       the_canvas := c |}.

  (** What an operation tells the user: nothing, a warning box, or one of
      the error boxes; [Raised] is an exception no handler caught. *)
Inductive error : Type :=
  | InvalidFormat
  | TimeConflict
  | NegativeTime
  | MissingField
  | IOFailure
  | BadData.

Inductive outcome : Type :=
  | Done
  | Warned
  | Failed (e : error)
  | Raised.

  (* --------------------------------------------------------------- *)
  (** *** [_check_time_conflict] *)

Fixpoint conflict_loop (pts : list (nat * point)) (new_time threshold : F)
           (exclude_index : option nat) : bool :=
    match pts with
    | [] => false
    | (i, (t, _)) :: rest =>
        if match exclude_index with Some e => Nat.eqb i e | None => false end
        then conflict_loop rest new_time threshold exclude_index
        else if fabs (t - new_time) <? threshold then true
        else conflict_loop rest new_time threshold exclude_index
    end.

Definition _check_time_conflict (s : editor) (new_time : F)
             (exclude_index : option nat) : bool :=
    let threshold := TIME_MIN_PRECISION * of_int 2 in
    conflict_loop (enumerate_from 0 (points s)) new_time threshold exclude_index.

  (* --------------------------------------------------------------- *)
  (** *** [_ensure_min_spacing] *)

Fixpoint spacing_loop (prev_t : option F) (pts : list point) : list point :=
    match pts with
    | [] => []
    | (t, v) :: rest =>
        match prev_t with
        | None =>
            let t := py_max (lit 0 0) t in
            (t, v) :: spacing_loop (Some t) rest
        | Some p =>
            let t := if t <? p + TIME_MIN_PRECISION then p + TIME_MIN_PRECISION else t in
            (t, v) :: spacing_loop (Some t) rest
        end
    end.

Definition _ensure_min_spacing (pts : list point) : list point :=
    match pts with
    | [] => []
    | _ => spacing_loop None (py_sort key_lt pts)
    end.

End Editor.

Arguments point F : clear implicits.
Arguments canvas F : clear implicits.
Arguments editor F : clear implicits.

Section Store.
Context {F : Type} `{PyFloat F}.
Local Open Scope py_scope.

  (* --------------------------------------------------------------- *)
  (** *** [_enforce_min_dt_for_drag] *)

  (** [bisect.bisect_left(a, x)], the loop of the standard library, run for
      at most [fuel] halvings ([len(a)] of them always suffice). *)
Fixpoint bisect_loop (fuel : nat) (a : list F) (x : F) (lo hi : nat) : nat :=
    match fuel with
    | O => lo
    | S fuel' =>
        if Nat.ltb lo hi then
          let mid := Nat.div (lo + hi) 2 in
          match nth_error a mid with
          | Some am =>
              if am <? x then bisect_loop fuel' a x (S mid) hi
              else bisect_loop fuel' a x lo mid
          | None => lo
          end
        else lo
    end.

Definition bisect_left (a : list F) (x : F) : nat :=
    bisect_loop (S (List.length a)) a x 0 (List.length a).

  (** One row of [entries]: [[i, t, v, low, high]]; [high = None] stands
      for [float('inf')]. *)
Record drag_entry : Type := {
    e_index : nat;
    e_t : F;
    e_v : F;
    e_low : F;
    e_high : option F
  }.

Definition drag_entries (pts : list (point F)) (non_times : list F)
             (dragged_indices : list nat) : list drag_entry :=
    flat_map
      (fun i =>
         match nth_error pts i with
         | Some (t, v) =>
             let pos := bisect_left non_times t in
             let prev_time :=
               match pos with
               | O => None
               | S p => nth_error non_times p
               end in
             let next_time := nth_error non_times pos in
             let low :=
               py_max (lit 0 0)
                      match prev_time with
                      | Some pt => pt + TIME_MIN_PRECISION
                      | None => lit 0 0
                      end in
             let high :=
               match next_time with
               | Some nt => Some (nt - TIME_MIN_PRECISION)
               | None => None
               end in
             [ {| e_index := i; e_t := t; e_v := v; e_low := low; e_high := high |} ]
         | None => []
         end)
      dragged_indices.

Fixpoint drag_adjust_loop (entries : list drag_entry) (prev_adj : option F)
           (pts : list (point F)) : list (point F) :=
    match entries with
    | [] => pts
    | e :: rest =>
        let t_adj := py_max (e_t e) (e_low e) in
        let t_adj :=
          match prev_adj with
          | Some pa => py_max t_adj (pa + TIME_MIN_PRECISION)
          | None => t_adj
          end in
        let t_adj :=
          match e_high e with
          | Some high =>
              if t_adj >? high then
                let t_adj := high in
                match prev_adj with
                | Some pa =>
                    if t_adj <? pa + TIME_MIN_PRECISION
                    then pa + TIME_MIN_PRECISION else t_adj
                | None => t_adj
                end
              else t_adj
          | None => t_adj
          end in
        let t_adj := if t_adj <? lit 0 0 then lit 0 0 else t_adj in
        drag_adjust_loop rest (Some t_adj) (set_nth (e_index e) (t_adj, e_v e) pts)
    end.

Definition _enforce_min_dt_for_drag (pts : list (point F))
             (dragged_indices : list nat) : list (point F) :=
    match dragged_indices with
    | [] => pts
    | _ =>
        let non_drag :=
          map snd (filter (fun ip => negb (mem_nat (fst ip) dragged_indices))
                          (enumerate_from 0 pts)) in
        let non_drag := py_sort key_lt non_drag in
        let non_times := map fst non_drag in
        let entries := drag_entries pts non_times dragged_indices in
        let entries := py_sort (fun a b => e_t a <? e_t b) entries in
        drag_adjust_loop entries None pts
    end.

  (* --------------------------------------------------------------- *)
  (** *** Point operations *)

  (** The part of [add_point] after the two entries were parsed. *)
Definition add_point_at (time value : F) (s : editor F) : editor F * outcome :=
    if time <? lit 0 0 then (s, Failed NegativeTime)
    else if _check_time_conflict s time None then (s, Failed TimeConflict)
    else
      let pts := py_sort tuple_lt (points s ++ [(time, value)]) in
      match py_index tuple_eq (time, value) pts with
      | Some idx => (with_selection (with_points s pts) [idx] (Some idx), Done)
      | None => (with_points s pts, Failed InvalidFormat)
      end.

Definition quick_add_point (s : editor F) : editor F * outcome :=
    let '(time, value) :=
      match points s with
      | [] => (lit 0 0, lit 0 0)
      | p :: rest =>
          let last_time := fst (last rest p) in
          let time_diff := lit 1 (-3) in
          (last_time + time_diff, lit 0 0)
      end in
    let pts := py_sort tuple_lt (points s ++ [(time, value)]) in
    match py_index tuple_eq (time, value) pts with
    | Some idx => (with_selection (with_points s pts) [idx] (Some idx), Done)
    | None => (with_points s pts, Raised)
    end.

  (** [delete_point]; [tree_selection] is what [self.tree.selection()]
      reports, consulted only when nothing is selected. *)
Definition delete_point (tree_selection : list nat) (s : editor F)
    : editor F * outcome :=
    let sel :=
      match selected_indices s with
      | [] => fold_right set_add_nat [] tree_selection
      | sel => sel
      end in
    match sel with
    | [] => (s, Warned)
    | _ =>
        let pts :=
          fold_left (fun pts index =>
                       if Nat.ltb index (List.length pts) then del_nth index pts else pts)
                    (rev sel) (points s) in
        (with_selection (with_points s pts) [] None, Done)
    end.

  (** The part of [update_point] after the two entries were parsed. *)
Definition update_point_at (new_time new_value : F) (s : editor F)
    : editor F * outcome :=
    match primary_selected_index s with
    | None => (s, Warned)
    | Some index =>
        if new_time <? lit 0 0 then (s, Failed NegativeTime)
        else
          match nth_error (points s) index with
          | None => (s, Done)
          | Some (old_time, _) =>
              if (new_time <>? old_time) && _check_time_conflict s new_time (Some index)
              then (s, Failed TimeConflict)
              else
                let pts := py_sort tuple_lt (set_nth index (new_time, new_value) (points s)) in
                match py_index tuple_eq (new_time, new_value) pts with
                | Some idx => (with_selection (with_points s pts) [idx] (Some idx), Done)
                | None => (with_points s pts, Failed InvalidFormat)
                end
          end
    end.

  (* --------------------------------------------------------------- *)
  (** *** Placement *)

Definition _cancel_placement (s : editor F) : editor F :=
    if placement_mode s then
      {| points := points s;
         selected_indices := selected_indices s;
         primary_selected_index := primary_selected_index s;
         dragging_indices := dragging_indices s;
       drag_start := drag_start s;
       drag_original_data := drag_original_data s;
         drag_precision := drag_precision s;
         panning := panning s;
         placement_mode := false;
         placement_data := [];
         the_canvas := the_canvas s |}
    else s.

  (** Looks every value of [vals] up in [pts] and collects the indices
      found ([try: ... except: pass] around [index]). *)
Definition find_indices (vals pts : list (point F)) : list nat :=
    fold_left (fun sel val =>
                 match py_index tuple_eq val pts with
                 | Some idx => set_add_nat idx sel
                 | None => sel
                 end)
              vals [].

Definition last_opt (l : list nat) : option nat :=
    match l with
    | [] => None
    | i :: l' => Some (last l' i)
    end.

Definition _handle_placement_commit (x : F) (s : editor F) : editor F :=
    match placement_data s with
    | [] => _cancel_placement s
    | data =>
        let start_time := py_max (lit 0 0) x in
        let new_points := map (fun tv => (start_time + fst tv, snd tv)) data in
        let pts := py_sort tuple_lt (points s ++ new_points) in
        let sel := find_indices new_points pts in
        let prim :=
          match sel with
          | [] => primary_selected_index s
          | _ => last_opt sel
          end in
        _cancel_placement (with_selection (with_points s pts) sel prim)
    end.

End Store.

Section View.
Context {F : Type} `{PyFloat F}.
Local Open Scope py_scope.

  (* --------------------------------------------------------------- *)
  (** *** Drag release *)

  (** The quantisation loop of [_on_mouse_release]; [None] when [round]
      raises. *)
Fixpoint quantize_loop (indices : list nat) (precision : F)
           (pts : list (point F)) : option (list (point F)) :=
    match indices with
    | [] => Some pts
    | i :: rest =>
        match nth_error pts i with
        | Some (time, value) =>
            match py_round (time / TIME_MIN_PRECISION),
                  py_round (value / precision) with
            | Some rt, Some rv =>
                let time := of_int rt * TIME_MIN_PRECISION in
                let time := py_max (lit 0 0) time in
                let value := of_int rv * precision in
                quantize_loop rest precision (set_nth i (time, value) pts)
            | _, _ => None
            end
        | None => quantize_loop rest precision pts
        end
    end.

  (** [_on_mouse_release], its pan and drag branches (a drag never sets
      [box_mode], so the box branches that follow are not entered). *)
Definition _on_mouse_release (s : editor F) : option (editor F) :=
    if panning s then
      Some {| points := points s;
              selected_indices := selected_indices s;
              primary_selected_index := primary_selected_index s;
              dragging_indices := dragging_indices s;
       drag_start := drag_start s;
       drag_original_data := drag_original_data s;
              drag_precision := drag_precision s;
              panning := false;
              placement_mode := placement_mode s;
              placement_data := placement_data s;
              the_canvas := the_canvas s |}
    else
      match dragging_indices s with
      | [] => Some s
      | dragging =>
          match quantize_loop dragging (drag_precision s) (points s) with
          | None => None
          | Some pts =>
              let pts := _enforce_min_dt_for_drag pts dragging in
              let dragged_values :=
                flat_map (fun i => match nth_error pts i with
                                   | Some p => [p]
                                   | None => []
                                   end) dragging in
              let pts := py_sort tuple_lt pts in
              let sel := find_indices dragged_values pts in
              Some {| points := pts;
                      selected_indices := sel;
                      primary_selected_index := last_opt sel;
                      dragging_indices := [];
     drag_start := None; drag_original_data := [];
                      drag_precision := drag_precision s;
                      panning := panning s;
                      placement_mode := placement_mode s;
                      placement_data := placement_data s;
                      the_canvas := the_canvas s |}
          end
      end.

(** The "Handle Dragging" block of [_on_mouse_motion], entered when the
    view is not being panned and a drag is on; [(wx, wy)] is the cursor in
    world coordinates. *)
Definition drag_motion (wx wy : F) (s : editor F) : editor F :=
  match dragging_indices s, drag_start s with
  | _ :: _, Some (x0, y0) =>
      let dx := wx - x0 in
      let dy := wy - y0 in
      with_points s
        (fold_left
           (fun pts i =>
              match find (fun kv => Nat.eqb (fst kv) i) (drag_original_data s) with
              | Some (_, (orig_t, orig_v)) =>
                  let new_t := py_max (lit 0 0) (orig_t + dx) in
                  let new_v := orig_v + dy in
                  if Nat.ltb i (List.length pts) then set_nth i (new_t, new_v) pts else pts
              | None => pts
              end)
           (dragging_indices s) (points s))
  | _, _ => s
  end.

  (* --------------------------------------------------------------- *)
  (** *** Fitting the view *)

Definition set_x (c : canvas F) (lo hi : F) : canvas F :=
    {| x_min := lo; x_max := hi; y_min := y_min c; y_max := y_max c;
       winfo_width := winfo_width c; winfo_height := winfo_height c;
       _lod_pixel_step := _lod_pixel_step c;
       _max_preview_points := _max_preview_points c |}.

Definition set_y (c : canvas F) (lo hi : F) : canvas F :=
    {| x_min := x_min c; x_max := x_max c; y_min := lo; y_max := hi;
       winfo_width := winfo_width c; winfo_height := winfo_height c;
       _lod_pixel_step := _lod_pixel_step c;
       _max_preview_points := _max_preview_points c |}.

Definition _enforce_negative_axis_limit (c : canvas F) : canvas F :=
    let xmin := x_min c in
    let xmax := x_max c in
    let rng := xmax - xmin in
    let '(rng, xmax) :=
      if rng <=? lit 0 0 then (lit 1 (-12), xmin + lit 1 (-12)) else (rng, xmax) in
    let '(c, xmin, xmax) :=
      if xmax <=? lit 1 (-15) then
        let xmax := lit 1 (-15) in
        let c := set_x c (xmax - rng) xmax in
        let xmin := x_min c in
        let rng := xmax - xmin in
        let c := if rng <=? lit 0 0 then set_x c (xmax - lit 1 (-12)) (x_max c) else c in
        (c, xmin, xmax)
      else (c, xmin, xmax) in
    if (xmin <? lit 0 0) && (xmax >? lit 0 0) then
      let limit_min := - (lit 5 (-2) / lit 95 (-2)) * xmax in
      if xmin <? limit_min then set_x c limit_min (x_max c) else c
    else c.

  (** [min(l)] and [max(l)] on a list with first element [x]. *)
Definition list_min (x : F) (l : list F) : F :=
    fold_left (fun best item => if item <? best then item else best) l x.
Definition list_max (x : F) (l : list F) : F :=
    fold_left (fun best item => if item >? best then item else best) l x.

Definition zoom_to_all_points (s : editor F) : editor F :=
    match points s with
    | [] => s
    | p :: rest =>
        let times := map fst rest ++ [lit 0 0] in
        let values := map snd rest in
        let xmin := list_min (fst p) times in
        let xmax := list_max (fst p) times in
        let ymin := list_min (snd p) values in
        let ymax := list_max (snd p) values in
        let x_range := if xmax >? xmin then xmax - xmin else py_max (fabs xmax) (lit 1 0) in
        let y_range := if ymax >? ymin then ymax - ymin else py_max (fabs ymax) (lit 1 0) in
        let x_padding := x_range * lit 5 (-2) in
        let y_padding := y_range * lit 1 (-1) in
        let c := set_x (the_canvas s) (xmin - x_padding) (xmax + x_padding) in
        let c := set_y c (ymin - y_padding) (ymax + y_padding) in
        with_canvas s (_enforce_negative_axis_limit c)
    end.

  (* --------------------------------------------------------------- *)
  (** *** [world_to_screen] and the preview decimation *)

Definition world_to_screen (c : canvas F) (x y : F) : F * F :=
    let w := winfo_width c in
    let h := winfo_height c in
    let draw_w := (w - margin_left - margin_right)%Z in
    let draw_h := (h - margin_top - margin_bottom)%Z in
    if ((draw_w <=? 0) || (draw_h <=? 0))%Z then (of_int 0, of_int 0)
    else
      let x_range := x_max c - x_min c in
      let y_range := y_max c - y_min c in
      let x_range := if x_range =? of_int 0 then lit 1 (-9) else x_range in
      let y_range := if y_range =? of_int 0 then lit 1 (-9) else y_range in
      let sx := of_int margin_left + (x - x_min c) / x_range * of_int draw_w in
      let sy := of_int (margin_top + draw_h) - (y - y_min c) / y_range * of_int draw_h in
      (sx, sy).

  (** The decimation loop shared by [redraw] and [update_cursor_only];
      [decimated] is kept in reverse. *)
Fixpoint decimate_loop (c : canvas F) (step : Z) (line : list (point F))
           (decimated : list (point F)) (last_sx : option F) : list (point F) :=
    match line with
    | [] => rev decimated
    | (t, v) :: rest =>
        let '(sx, _) := world_to_screen c t v in
        let keep :=
          match last_sx with
          | None => true
          | Some l => fabs (sx - l) >=? of_int step
          end in
        let decimated := if keep then (t, v) :: decimated else decimated in
        let last_sx := if keep then Some sx else last_sx in
        if Nat.ltb (_max_preview_points c) (List.length decimated)
        then rev decimated
        else decimate_loop c step rest decimated last_sx
    end.

Definition decimate_preview (c : canvas F) (placement_preview_line : list (point F))
    : list (point F) :=
    let step := Z.max 1 (_lod_pixel_step c) in
    decimate_loop c step placement_preview_line [] None.

End View.

(* ================================================================= *)
(** ** The waveform generator *)

Section Generator.
Context {F : Type} `{PyFloat F}.
Local Open Scope py_scope.

  (** [math.sin] and [math.pi], used by the sine branch only. *)
Variable math_sin : F -> F.
Variable math_pi : F.

  (** The keyword arguments of [_wave_params_to_points]; [None] is Python's
      [None]. *)
Record wave_params : Type := {
    freq : option F;
    period : option F;
    amp : option F;
    offset : option F;
    duration : option F;
    duty : option F;
    t_high : option F;
    tr : option F;
    tf : option F;
    rise_ratio : option F;
    t_rise : option F;
    ppc : option F
  }.

  (** The defaults of the signature. *)
Definition default_params : wave_params :=
    {| freq := None; period := None; amp := Some (lit 1 0); offset := Some (lit 0 0);
       duration := Some (lit 1 (-2)); duty := None; t_high := None; tr := None;
       tf := None; rise_ratio := None; t_rise := None; ppc := Some (of_int 50) |}.

  (** [x is None or x <= 0] *)
Definition none_or_le0 (x : option F) : bool :=
    match x with
    | None => true
    | Some v => v <=? of_int 0
    end.

Definition or_default (x : option F) (d : F) : F :=
    match x with
    | Some v => v
    | None => d
    end.

  (** [while t <= duration + 1e-15: ...; t += dt] *)
Fixpoint sine_loop (fuel : nat) (t dt per a off dur : F) : option (list (point F)) :=
    match fuel with
    | O => None
    | S fuel' =>
        if t <=? dur + lit 1 (-15) then
          let val := a * math_sin (of_int 2 * math_pi * (lit 1 0 / per) * t) + off in
          match sine_loop fuel' (t + dt) dt per a off dur with
          | Some rest => Some ((t, val) :: rest)
          | None => None
          end
        else Some []
    end.

  (** [while t < duration - 1e-15: ...; t += period; ...] of the square
      branch. *)
Fixpoint square_loop (fuel : nat) (t per a off dur rise fall high : F)
    : option (list (point F)) :=
    match fuel with
    | O => None
    | S fuel' =>
        if t <? dur - lit 1 (-15) then
          let p1 := [(t, off - a); (py_min (t + rise) dur, off + a)] in
          let p2 :=
            if t + high <? dur
            then [(t + high, off + a); (py_min (t + high + fall) dur, off - a)]
            else [] in
          let t := t + per in
          let p3 := if t <? dur then [(t, off - a)] else [] in
          match square_loop fuel' t per a off dur rise fall high with
          | Some rest => Some (p1 ++ p2 ++ p3 ++ rest)
          | None => None
          end
        else Some []
    end.

  (** The same loop of the triangle branch. *)
Fixpoint triangle_loop (fuel : nat) (t per a off dur rise : F)
    : option (list (point F)) :=
    match fuel with
    | O => None
    | S fuel' =>
        if t <? dur - lit 1 (-15) then
          let p1 := [(t, off - a)] in
          let peak_t := t + rise in
          let p2 := if peak_t <=? dur then [(peak_t, off + a)] else [] in
          let end_t := t + per in
          let p3 := if end_t <=? dur then [(end_t, off - a)] else [] in
          match triangle_loop fuel' (t + per) per a off dur rise with
          | Some rest => Some (p1 ++ p2 ++ p3 ++ rest)
          | None => None
          end
        else Some []
    end.

  (** [_wave_params_to_points]; [None] when a loop has not finished within
      [fuel] rounds. *)
Definition _wave_params_to_points (fuel : nat) (wave_type : string) (p : wave_params)
    : option (list (point F)) :=
    (* Resolve period *)
    let per :=
      if none_or_le0 (period p) then
        let fr := if none_or_le0 (freq p) then lit 1 (-9) else or_default (freq p) (lit 1 (-9)) in
        lit 1 0 / fr
      else or_default (period p) (lit 1 0) in
    (* Defaults *)
    let a := or_default (amp p) (lit 1 0) in
    let off := or_default (offset p) (lit 0 0) in
    let dur := if none_or_le0 (duration p) then per else or_default (duration p) per in
    let pts :=
      if String.eqb wave_type "sine"%string then
        let n :=
          match ppc p with
          | None => of_int 50
          | Some n => if n <? of_int 4 then of_int 50 else n
          end in
        let dt := per / n in
        sine_loop fuel (lit 0 0) dt per a off dur
      else if String.eqb wave_type "square"%string then
        let rise := if none_or_le0 (tr p) then per / lit 100 0 else or_default (tr p) per in
        let fall := if none_or_le0 (tf p) then per / lit 100 0 else or_default (tf p) per in
        let '(rise, fall) :=
          if rise + fall >=? per then (per / lit 20 0, per / lit 20 0) else (rise, fall) in
        let high :=
          match t_high p with
          | Some th =>
              if th >? of_int 0
              then py_min th (py_max (lit 1 (-15)) (per - (rise + fall)))
              else
                let d := or_default (duty p) (lit 5 (-1)) in
                let d := py_max (lit 0 0) (py_min (lit 1 0) d) in
                per * d
          | None =>
              let d := or_default (duty p) (lit 5 (-1)) in
              let d := py_max (lit 0 0) (py_min (lit 1 0) d) in
              per * d
          end in
        square_loop fuel (lit 0 0) per a off dur rise fall high
      else if String.eqb wave_type "triangle"%string then
        let rise :=
          match t_rise p with
          | Some r =>
              if r >=? of_int 0
              then py_min per (py_max (lit 0 0) r)
              else
                let rr := or_default (rise_ratio p) (lit 5 (-1)) in
                let rr := py_max (lit 0 0) (py_min (lit 1 0) rr) in
                per * rr
          | None =>
              let rr := or_default (rise_ratio p) (lit 5 (-1)) in
              let rr := py_max (lit 0 0) (py_min (lit 1 0) rr) in
              per * rr
          end in
        triangle_loop fuel (lit 0 0) per a off dur rise
      else Some [] in
    (* Sort, normalize to start at 0 *)
    match pts with
    | None => None
    | Some pts =>
        let pts := py_sort key_lt pts in
        match pts with
        | [] => Some []
        | (s0, _) :: _ => Some (map (fun tv => (fst tv - s0, snd tv)) pts)
        end
    end.

End Generator.

(* ================================================================= *)
(** ** The spacing invariant *)

Section Invariant.
Context {F : Type} `{PyFloat F}.
Local Open Scope py_scope.

(** [points[i+1].time - points[i].time >= TIME_MIN_PRECISION] for every
    [i], and [points[0].time >= 0]. *)
Fixpoint gaps_ok (prev : F) (pts : list (point F)) : bool :=
  match pts with
  | [] => true
  | (t, _) :: rest => (t - prev >=? TIME_MIN_PRECISION) && gaps_ok t rest
  end.

Definition spacing_ok (pts : list (point F)) : bool :=
  match pts with
  | [] => true
  | (t, _) :: rest => (t >=? lit 0 0) && gaps_ok t rest
  end.

End Invariant.

(* ================================================================= *)
(** ** Text *)

(** Strings are handled as lists of characters. *)
Definition chars (s : string) : list ascii := list_ascii_of_string s.
Definition text (l : list ascii) : string := string_of_list_ascii l.

(** *** Decimal digits *)

Definition ascii_of_digit (d : Z) : ascii := ascii_of_nat (48 + Z.to_nat d).

Definition digit_of_ascii (c : ascii) : option Z :=
  let n := nat_of_ascii c in
  if Nat.leb 48 n && Nat.leb n 57 then Some (Z.of_nat (n - 48)) else None.

Definition digits_value (ds : list Z) : Z :=
  fold_left (fun a d => (10 * a + d)%Z) ds 0%Z.

(** The decimal digits of [n >= 0], most significant first; [fuel] bounds
    their number. *)
Fixpoint to_digits (fuel : nat) (n : Z) : list Z :=
  match fuel with
  | O => []
  | S fuel' => if (n <? 10)%Z then [n] else to_digits fuel' (n / 10) ++ [(n mod 10)%Z]
  end.

Definition decimal_digits (n : Z) : list Z :=
  to_digits (S (Z.to_nat (Z.log2 n))) n.

(** The last [w] decimal digits of [n], zero padded. *)
Fixpoint fixed_digits (w : nat) (n : Z) : list Z :=
  match w with
  | O => []
  | S w' => fixed_digits w' (n / 10) ++ [(n mod 10)%Z]
  end.

Definition digit_chars (ds : list Z) : list ascii := map ascii_of_digit ds.

(** *** [str] methods *)

Fixpoint drop_while (f : ascii -> bool) (l : list ascii) : list ascii :=
  match l with
  | [] => []
  | c :: l' => if f c then drop_while f l' else l
  end.

(** [s.rstrip(c)] for a single character [c]. *)
Definition rstrip_char (c : ascii) (l : list ascii) : list ascii :=
  rev (drop_while (Ascii.eqb c) (rev l)).

(** The ASCII white space [str.strip()] removes. *)
Definition is_space (c : ascii) : bool :=
  let n := nat_of_ascii c in
  (Nat.leb 9 n && Nat.leb n 13) || (Nat.leb 28 n && Nat.leb n 32).

Definition strip (l : list ascii) : list ascii :=
  rev (drop_while is_space (rev (drop_while is_space l))).

Fixpoint starts_with (p l : list ascii) : bool :=
  match p, l with
  | [], _ => true
  | _ :: _, [] => false
  | a :: p', b :: l' => Ascii.eqb a b && starts_with p' l'
  end.

(** [s.endswith(p)] *)
Definition endswith (p l : list ascii) : bool := starts_with (rev p) (rev l).

(** [s[:-n]] for [n > 0] *)
Definition drop_last (n : nat) (l : list ascii) : list ascii :=
  firstn (List.length l - n) l.

Definition lower (c : ascii) : ascii :=
  let n := nat_of_ascii c in
  if Nat.leb 65 n && Nat.leb n 90 then ascii_of_nat (n + 32) else c.

(** *** Reading a number: [float(s)] *)

(** The longest run of digits at the front of [l]; a single underscore
    between two digits is skipped, as in Python's numeric literals. *)
Fixpoint take_digits (l : list ascii) : list Z * list ascii :=
  match l with
  | [] => ([], [])
  | c :: rest =>
      match digit_of_ascii c with
      | None => ([], l)
      | Some d =>
          let '(ds, r) :=
            match rest with
            | u :: ((c' :: _) as rest') =>
                if Ascii.eqb u "_" then
                  match digit_of_ascii c' with
                  | Some _ => take_digits rest'
                  | None => take_digits rest
                  end
                else take_digits rest
            | _ => take_digits rest
            end in
          (d :: ds, r)
      end
  end.

(** An optional sign: [true] for a minus. *)
Definition take_sign (l : list ascii) : bool * list ascii :=
  match l with
  | c :: rest =>
      if Ascii.eqb c "-" then (true, rest)
      else if Ascii.eqb c "+" then (false, rest)
      else (false, l)
  | [] => (false, [])
  end.

Section Reading.
Context {F : Type} `{PyFloat F}.
Local Open Scope py_scope.

Definition signed (neg : bool) (x : F) : F := if neg then - x else x.

(** The exponent part, if any: [e], an optional sign, at least one digit. *)
Definition take_exponent (l : list ascii) : option (Z * list ascii) :=
  match l with
  | c :: rest =>
      if Ascii.eqb (lower c) "e" then
        let '(neg, rest) := take_sign rest in
        match take_digits rest with
        | ([], _) => None
        | (ds, r) => Some (if neg then (- digits_value ds)%Z else digits_value ds, r)
        end
      else Some (0%Z, l)
  | [] => Some (0%Z, [])
  end.

(** [float(s)]; [None] is the [ValueError]. *)
Definition py_float (s : list ascii) : option F :=
  let s := strip s in
  let '(neg, body) := take_sign s in
  let word := text (map lower body) in
  if String.eqb word "inf" || String.eqb word "infinity" then option_map (signed neg) finf
  else if String.eqb word "nan" then option_map (signed neg) fnan
  else
    let '(ip, r1) := take_digits body in
    let '(fp, r2) :=
      match r1 with
      | c :: r => if Ascii.eqb c "." then take_digits r else ([], r1)
      | [] => ([], [])
      end in
    match ip, fp with
    | [], [] => None
    | _, _ =>
        match take_exponent r2 with
        | Some (ex, []) =>
            Some (signed neg (lit (digits_value (ip ++ fp))
                                  (ex - Z.of_nat (List.length fp))))
        | _ => None
        end
    end.

(** *** Writing a number: the [.6f] and [.3e] formats *)

Definition sign_chars (neg : bool) : list ascii := if neg then ["-"%char] else [].

(** [f"{x:.6f}"] *)
Definition format_6f (x : F) : list ascii :=
  match fval_of x with
  | VNan => chars "nan"
  | VInf neg => sign_chars neg ++ chars "inf"
  | VFin neg m =>
      let n := round_half_even (m * (1000000 # 1)) in
      sign_chars neg
        ++ digit_chars (decimal_digits (n / 1000000))
        ++ ["."%char]
        ++ digit_chars (fixed_digits 6 (n mod 1000000))
  end.

(** The decimal exponent of a positive rational: the [k] with
    [10^k <= m < 10^(k+1)]. *)
Definition decimal_exponent (m : Q) : Z :=
  let k0 := (Z.of_nat (List.length (decimal_digits (Qnum m)))
             - Z.of_nat (List.length (decimal_digits (Zpos (Qden m)))))%Z in
  if Qle_bool (Qpower (10 # 1) k0) m then k0 else (k0 - 1)%Z.

(** [f"{x:.3e}"] *)
Definition format_3e (x : F) : list ascii :=
  match fval_of x with
  | VNan => chars "nan"
  | VInf neg => sign_chars neg ++ chars "inf"
  | VFin neg m =>
      let '(n, k) :=
        if Qeq_bool m 0 then (0%Z, 0%Z)
        else
          let k := decimal_exponent m in
          let n := round_half_even (m * Qpower (10 # 1) (3 - k)) in
          if (n =? 10000)%Z then (1000%Z, (k + 1)%Z) else (n, k) in
      let ex := decimal_digits (Z.abs k) in
      sign_chars neg
        ++ digit_chars (fixed_digits 1 (n / 1000))
        ++ ["."%char]
        ++ digit_chars (fixed_digits 3 (n mod 1000))
        ++ ["e"%char]
        ++ [if (k <? 0)%Z then "-"%char else "+"%char]
        ++ digit_chars (match ex with [d] => [0%Z; d] | _ => ex end)
  end.

(* --------------------------------------------------------------- *)
(** *** [engineering_format] and [parse_engineering_format] *)

(** [ENGINEERING_PREFIXES], in the order the dict literal lists it. *)
Definition ENGINEERING_PREFIXES : list (F * string) :=
  [ (lit 1 (-12), "p"); (lit 1 (-9), "n"); (lit 1 (-6), "u"); (lit 1 (-3), "m");
    (of_int 1, ""); (lit 1 3, "k"); (lit 1 6, "M"); (lit 1 9, "G") ]%string.

(** [PREFIX_TO_VALUE], in the order the dict literal lists it. *)
Definition PREFIX_TO_VALUE : list (string * F) :=
  [ ("p", lit 1 (-12)); ("n", lit 1 (-9)); ("u", lit 1 (-6)); ("m", lit 1 (-3));
    ("", of_int 1); ("k", lit 1 3); ("M", lit 1 6); ("G", lit 1 9) ]%string.

Fixpoint format_loop (table : list (F * string)) (value abs_value : F)
  : option string :=
  match table with
  | [] => None
  | (exp, prefix) :: rest =>
      if abs_value >=? exp then
        let scaled_value := value / exp in
        let formatted_value :=
          rstrip_char "." (rstrip_char "0" (format_6f scaled_value)) in
        Some (text formatted_value ++ prefix)%string
      else format_loop rest value abs_value
  end.

Definition engineering_format (value : F) : string :=
  if value =? of_int 0 then "0"%string
  else
    let abs_value := fabs value in
    (* sorted(keys, reverse=True) *)
    let table := rev (py_sort (fun a b => fst a <? fst b) ENGINEERING_PREFIXES) in
    match format_loop table value abs_value with
    | Some s => s
    | None => text (format_3e value)
    end.

Fixpoint parse_loop (table : list (string * F)) (txt : list ascii)
  : option (option F) :=
  match table with
  | [] => None
  | (prefix, factor) :: rest =>
      if negb (String.eqb prefix "") && endswith (chars prefix) txt then
        let num_str := drop_last (String.length prefix) txt in
        Some (option_map (fun x => x * factor) (py_float num_str))
      else parse_loop rest txt
  end.

(** [parse_engineering_format]; [None] is the [ValueError]. *)
Definition parse_engineering_format (s : string) : option F :=
  let txt := strip (chars s) in
  match txt with
  | [] => None
  | _ =>
      match parse_loop PREFIX_TO_VALUE txt with
      | Some r => r
      | None => py_float txt
      end
  end.

End Reading.

Section Entries.
Context {F : Type} `{PyFloat F}.
Local Open Scope py_scope.

(** [add_point], from the two entry texts. *)
Definition add_point (time_str value_str : string) (s : editor F)
  : editor F * outcome :=
  if String.eqb time_str "" || String.eqb value_str "" then (s, Warned)
  else
    match parse_engineering_format time_str with
    | None => (s, Failed InvalidFormat)
    | Some time =>
        match parse_engineering_format value_str with
        | None => (s, Failed InvalidFormat)
        | Some value => add_point_at time value s
        end
    end.

(** [update_point], from the two entry texts. *)
Definition update_point (time_str value_str : string) (s : editor F)
  : editor F * outcome :=
  match primary_selected_index s with
  | None => (s, Warned)
  | Some _ =>
      match parse_engineering_format time_str with
      | None => (s, Failed InvalidFormat)
      | Some new_time =>
          match parse_engineering_format value_str with
          | None => (s, Failed InvalidFormat)
          | Some new_value => update_point_at new_time new_value s
          end
      end
  end.

End Entries.

(* ================================================================= *)
(** ** Loading a waveform file *)

Section Loading.
Context {F : Type} `{PyFloat F}.

(** What [json.load] returns. *)
Inductive json : Type :=
| JNull
| JBool (b : bool)
| JNum (x : F)
| JStr (s : string)
| JArr (items : list json)
| JObj (members : list (string * json)).

(** What became of the file the user picked. *)
Inductive file_read : Type :=
| Cancelled                (* the dialog returned no path *)
| Unreadable               (* [open] raised *)
| Malformed                (* [json.load] raised *)
| Parsed (data : json).

Fixpoint lookup (key : string) (members : list (string * json)) : option json :=
  match members with
  | [] => None
  | (k, v) :: rest => if String.eqb k key then Some v else lookup key rest
  end.

Fixpoint contains (needle hay : list ascii) : bool :=
  starts_with needle hay
  || match hay with
     | [] => false
     | _ :: hay' => contains needle hay'
     end.

(** [if "points" not in data: raise ValueError(...)] followed by
    [data["points"]]: the value, or the error the block ends with. *)
Definition points_field (data : json) : error + json :=
  match data with
  | JObj members =>
      match lookup "points" members with
      | Some v => inr v
      | None => inl MissingField
      end
  | JArr items =>
      if existsb (fun j => match j with
                           | JStr s => String.eqb s "points"
                           | _ => false
                           end) items
      then inl BadData else inl MissingField
  | JStr s => if contains (chars "points") (chars s) then inl BadData else inl MissingField
  | _ => inl BadData
  end.

(** Iterating a value: the items of a list, the characters of a string,
    the keys of a dict; [None] is the [TypeError] of anything else. *)
Definition py_iter (j : json) : option (list json) :=
  match j with
  | JArr items => Some items
  | JStr s => Some (map (fun c => JStr (String c EmptyString)) (chars s))
  | JObj members => Some (map (fun kv => JStr (fst kv)) members)
  | _ => None
  end.

(** [[tuple(p) for p in items]] *)
Fixpoint tuples_of (items : list json) : option (list (list json)) :=
  match items with
  | [] => Some []
  | p :: rest =>
      match py_iter p, tuples_of rest with
      | Some t, Some ts => Some (t :: ts)
      | _, _ => None
      end
  end.

(** A value the table and the plot can take as a number ([True] and
    [False] count as 1 and 0). *)
Definition as_number (j : json) : option F :=
  match j with
  | JNum x => Some x
  | JBool b => Some (of_int (if b then 1 else 0))
  | _ => None
  end.

(** [for time, value in self.points] with both formatted as numbers. *)
Definition as_point (t : list json) : option (point F) :=
  match t with
  | [a; b] =>
      match as_number a, as_number b with
      | Some time, Some value => Some (time, value)
      | _, _ => None
      end
  | _ => None
  end.

Fixpoint all_points (ts : list (list json)) : option (list (point F)) :=
  match ts with
  | [] => Some []
  | t :: rest =>
      match as_point t, all_points rest with
      | Some p, Some ps => Some (p :: ps)
      | _, _ => None
      end
  end.

(** How [_load_waveform_from_file] ends. *)
Inductive loaded : Type :=
| Kept (o : outcome)                      (* left before [self.points = ...] *)
| Replaced_raw (tuples : list (list json)) (* assigned; the refresh raised; error box *)
| Replaced (s' : editor F).                (* assigned, refreshed, fitted; success box *)

Definition _load_waveform_from_file (f : file_read) (s : editor F) : loaded :=
  match f with
  | Cancelled => Kept Done
  | Unreadable => Kept (Failed IOFailure)
  | Malformed => Kept (Failed BadData)
  | Parsed data =>
      match points_field data with
      | inl e => Kept (Failed e)
      | inr v =>
          match py_iter v with
          | None => Kept (Failed BadData)
          | Some items =>
              match tuples_of items with
              | None => Kept (Failed BadData)
              | Some tuples =>
                  match all_points tuples with
                  | None => Replaced_raw tuples
                  | Some pts => Replaced (zoom_to_all_points (with_points s pts))
                  end
              end
          end
      end
  end.

(** [self.points] once the handler is done: the typed points, or the raw
    tuples the failed refresh left behind. *)
Inductive stored : Type :=
| Typed (pts : list (point F))
| Raw (tuples : list (list json)).

Definition points_after (r : loaded) (s : editor F) : stored :=
  match r with
  | Kept _ => Typed (points s)
  | Replaced_raw tuples => Raw tuples
  | Replaced s' => Typed (points s')
  end.

(** The message box the handler ends with. *)
Definition message_of (r : loaded) : outcome :=
  match r with
  | Kept o => o
  | Replaced_raw _ => Failed BadData
  | Replaced _ => Done
  end.

End Loading.

Arguments json F : clear implicits.
Arguments file_read F : clear implicits.
Arguments loaded F : clear implicits.
Arguments stored F : clear implicits.

(* ================================================================= *)
(** ** Pointer, keyboard and clipboard handlers *)

Section Pointer.
Context {F : Type} `{PyFloat F}.
Local Open Scope py_scope.

(** [PWLGraphCanvas.screen_to_world] *)
Definition screen_to_world (c : canvas F) (sx sy : F) : F * F :=
  let w := winfo_width c in
  let h := winfo_height c in
  let draw_w := (w - margin_left - margin_right)%Z in
  let draw_h := (h - margin_top - margin_bottom)%Z in
  if ((draw_w <=? 0) || (draw_h <=? 0))%Z then (of_int 0, of_int 0)
  else
    let x_range := x_max c - x_min c in
    let y_range := y_max c - y_min c in
    let x := x_min c + (sx - of_int margin_left) / of_int draw_w * x_range in
    let y := y_min c + (of_int (margin_top + draw_h) - sy) / of_int draw_h * y_range in
    (x, y).

Definition ZOOM_FACTOR : F := lit 11 (-1).

(** [_on_mouse_scroll]: [zoom_in] is [event.num == 4 or event.delta > 0],
    [is_ctrl] and [is_shift] are the two bits of [event.state]. *)
Definition _on_mouse_scroll (sx sy : F) (zoom_in is_ctrl is_shift : bool)
           (c : canvas F) : canvas F :=
  let '(wx, wy) := screen_to_world c sx sy in
  let scale := if zoom_in then of_int 1 / ZOOM_FACTOR else ZOOM_FACTOR in
  let new_x_min := wx - (wx - x_min c) * scale in
  let new_x_max := wx + (x_max c - wx) * scale in
  let new_y_min := wy - (wy - y_min c) * scale in
  let new_y_max := wy + (y_max c - wy) * scale in
  if is_ctrl then
    set_y (_enforce_negative_axis_limit (set_x c new_x_min new_x_max)) new_y_min new_y_max
  else if is_shift then
    _enforce_negative_axis_limit (set_x c new_x_min new_x_max)
  else set_y c new_y_min new_y_max.

(** The search of [_handle_left_click] for the point under the pointer;
    [d ** 2] is written [d * d]. *)
Fixpoint closest_loop (c : canvas F) (sx sy : F) (pts : list (nat * point F))
         (closest_point : option nat) (min_dist_sq : F) : option nat :=
  match pts with
  | [] => closest_point
  | (i, (px, py)) :: rest =>
      let '(psx, psy) := world_to_screen c px py in
      let dist_sq := (sx - psx) * (sx - psx) + (sy - psy) * (sy - psy) in
      if dist_sq <? min_dist_sq
      then closest_loop c sx sy rest (Some i) dist_sq
      else closest_loop c sx sy rest closest_point min_dist_sq
  end.

Definition pixel_threshold : Z := 10.

Definition closest_point (c : canvas F) (sx sy : F) (pts : list (point F)) : option nat :=
  closest_loop c sx sy (enumerate_from 0 pts) None (of_int (pixel_threshold * pixel_threshold)).

(** [{i: self.points[i] for i in indices}]; [None] is the [IndexError]. *)
Fixpoint original_data (pts : list (point F)) (indices : list nat)
  : option (list (nat * point F)) :=
  match indices with
  | [] => Some []
  | i :: rest =>
      match nth_error pts i, original_data pts rest with
      | Some p, Some d => Some ((i, p) :: d)
      | _, _ => None
      end
  end.

(** [_handle_left_click]: the new state and, when the click fell on empty
    space, the corner a box selection starts from.  [Raised] is the
    [IndexError] of the drag set-up on a stale selected index, which leaves
    the drag fields half assigned. *)
Definition _handle_left_click (sx sy wx wy : F) (s : editor F)
  : editor F * option (F * F) * outcome :=
  match closest_point (the_canvas s) sx sy (points s) with
  | Some cp =>
      let hit := mem_nat cp (selected_indices s) in
      let sel := if hit then selected_indices s else [cp] in
      let prim := if hit then primary_selected_index s else Some cp in
      match original_data (points s) sel with
      | None =>
          ({| points := points s;
              selected_indices := sel;
              primary_selected_index := prim;
              dragging_indices := sel;
              drag_start := Some (wx, wy);
              drag_original_data := drag_original_data s;
              drag_precision := drag_precision s;
              panning := panning s;
              placement_mode := placement_mode s;
              placement_data := placement_data s;
              the_canvas := the_canvas s |}, None, Raised)
      | Some data =>
          ({| points := points s;
              selected_indices := sel;
              primary_selected_index := Some cp;
              dragging_indices := sel;
              drag_start := Some (wx, wy);
              drag_original_data := data;
              drag_precision := drag_precision s;
              panning := panning s;
              placement_mode := placement_mode s;
              placement_data := placement_data s;
              the_canvas := the_canvas s |}, None, Done)
      end
  | None => (with_selection s [] None, Some (sx, sy), Done)
  end.

(** [sorted([a, b])] *)
Definition sorted_pair (a b : F) : F * F := if b <? a then (b, a) else (a, b).

(** The box-selection branch of [_on_mouse_release]: the points inside the
    box dragged from [box_start] to the release position. *)
Definition box_selected (c : canvas F) (box_start : F * F) (x1_s y1_s : F)
           (pts : list (point F)) : list nat :=
  let '(x0_s, y0_s) := box_start in
  let '(wx0, wy0) := screen_to_world c x0_s y0_s in
  let '(wx1, wy1) := screen_to_world c x1_s y1_s in
  let '(xmin, xmax) := sorted_pair wx0 wx1 in
  let '(ymin, ymax) := sorted_pair wy0 wy1 in
  map fst
      (filter (fun ip =>
                 let '(px, py) := snd ip in
                 (xmin <=? px) && (px <=? xmax) && (ymin <=? py) && (py <=? ymax))
              (enumerate_from 0 pts)).

Definition box_select_release (box_start : F * F) (x1_s y1_s : F) (s : editor F)
  : editor F :=
  let sel := box_selected (the_canvas s) box_start x1_s y1_s (points s) in
  with_selection s sel
                 match sel with
                 | [] => primary_selected_index s
                 | _ => last_opt sel
                 end.

(** How [_on_m_key] ends: a point was added, the bell rang on a time
    conflict, or an exception left the handler. *)
Inductive key_outcome : Type :=
| PointAdded
| Bell
| KeyRaised.

(** [_on_m_key] with the pointer at [(x, y)] in world coordinates and the
    focus outside the entry fields. *)
Definition _on_m_key (x y : F) (s : editor F) : editor F * key_outcome :=
  let time := py_max (lit 0 0) x in
  match py_round (time / TIME_MIN_PRECISION) with
  | None => (s, KeyRaised)
  | Some rt =>
      let time := of_int rt * TIME_MIN_PRECISION in
      match py_round (y / drag_precision s) with
      | None => (s, KeyRaised)
      | Some rv =>
          let value := of_int rv * drag_precision s in
          if _check_time_conflict s time None then (s, Bell)
          else
            let pts := py_sort tuple_lt (points s ++ [(time, value)]) in
            match py_index tuple_eq (time, value) pts with
            | Some idx => (with_selection (with_points s pts) [idx] (Some idx), PointAdded)
            | None => (with_points s pts, KeyRaised)
            end
      end
  end.

(** [copy_selection]: the new [clipboard_data], or [None] when the
    clipboard is left as it was. *)
Definition copy_selection (s : editor F) : option (list (point F)) :=
  match selected_indices s with
  | [] => None
  | sel =>
      let selected_points :=
        flat_map (fun i => match nth_error (points s) i with
                           | Some p => [p]
                           | None => []
                           end) sel in
      match selected_points with
      | [] => None
      | (base_time, _) :: _ =>
          Some (map (fun tv => (fst tv - base_time, snd tv)) selected_points)
      end
  end.

(** [paste_waveform], which enters the placement mode through
    [_start_placement_mode]. *)
Definition paste_waveform (clipboard_data : list (point F)) (s : editor F) : editor F :=
  match clipboard_data with
  | [] => s
  | data =>
      {| points := points s;
         selected_indices := selected_indices s;
         primary_selected_index := primary_selected_index s;
         dragging_indices := dragging_indices s;
         drag_start := drag_start s;
         drag_original_data := drag_original_data s;
         drag_precision := drag_precision s;
         panning := panning s;
         placement_mode := true;
         placement_data := data;
         the_canvas := the_canvas s |}
  end.

(** How [_save_waveform_to_file] ends; the file is the JSON value
    [json.dump] was given. *)
Inductive saved : Type :=
| NothingToSave          (* warning box, no dialog *)
| SaveCancelled          (* the dialog returned no path *)
| SaveFailed             (* [open] or [json.dump] raised; error box *)
| Written (data : json F).

Definition _save_waveform_to_file (path_chosen write_ok : bool) (s : editor F) : saved :=
  match points s with
  | [] => NothingToSave
  | pts =>
      if negb path_chosen then SaveCancelled
      else if negb write_ok then SaveFailed
      else
        Written (JObj [ ("points"%string,
                         JArr (map (fun p => JArr [JNum (fst p); JNum (snd p)]) pts));
                        ("version"%string, JStr "1.0");
                        ("type"%string, JStr "pwl_waveform") ])
  end.

End Pointer.

Arguments saved F : clear implicits.

(* ================================================================= *)
(** ** Moving the view, and the placement line *)

Section ViewMoves.
Context {F : Type} `{PyFloat F}.
Local Open Scope py_scope.

(** The panning block of [_on_mouse_motion]: [(sx, sy)] is the pointer,
    [pan_start] the pointer and [pan_start_view] the viewport on the middle
    press.  [None] is the [ZeroDivisionError] of a widget of width or
    height zero, raised before anything is assigned. *)
Definition pan_motion (sx sy : Z) (pan_start : Z * Z) (pan_start_view : F * F * F * F)
           (c : canvas F) : option (canvas F) :=
  let dx_pixels := (sx - fst pan_start)%Z in
  let dy_pixels := (sy - snd pan_start)%Z in
  if ((dx_pixels =? 0) && (dy_pixels =? 0))%Z then Some c
  else
    let '(x_min_orig, x_max_orig, y_min_orig, y_max_orig) := pan_start_view in
    let width_pixels := winfo_width c in
    let height_pixels := winfo_height c in
    let width_data := x_max_orig - x_min_orig in
    let height_data := y_max_orig - y_min_orig in
    if (width_pixels =? 0)%Z then None
    else
      let shift_x := of_int (- dx_pixels) * (width_data / of_int width_pixels) in
      if (height_pixels =? 0)%Z then None
      else
        let shift_y := of_int dy_pixels * (height_data / of_int height_pixels) in
        Some (_enforce_negative_axis_limit
                (set_y (set_x c (x_min_orig + shift_x) (x_max_orig + shift_x))
                       (y_min_orig + shift_y) (y_max_orig + shift_y))).

(** The ['zoom'] branch of [_on_mouse_release]: [box_start] is the pointer
    on the right press, [(x1_s, y1_s)] the pointer on the release. *)
Definition box_zoom_release (box_start : Z * Z) (x1_s y1_s : Z) (c : canvas F) : canvas F :=
  let '(x0_s, y0_s) := box_start in
  if ((5 <? Z.abs (x0_s - x1_s)) && (5 <? Z.abs (y0_s - y1_s)))%Z then
    let '(wx0, wy0) := screen_to_world c (of_int x0_s) (of_int y0_s) in
    let '(wx1, wy1) := screen_to_world c (of_int x1_s) (of_int y1_s) in
    _enforce_negative_axis_limit
      (set_y (set_x c (py_min wx0 wx1) (py_max wx0 wx1)) (py_min wy0 wy1) (py_max wy0 wy1))
  else c.

(** The placement line [_update_plot] hands to the canvas, once past the
    autoscale of its first call; [current_cursor_pos] is [None] when no
    pointer position is known. *)
Definition placement_line (current_cursor_pos : option (F * F)) (s : editor F)
  : list (point F) :=
  let placement_line :=
    match placement_mode s, placement_data s with
    | true, _ :: _ =>
        match current_cursor_pos with
        | Some (cx, _) =>
            let start_t := py_max (lit 0 0) cx in
            map (fun tv => (start_t + fst tv, snd tv)) (placement_data s)
        | None => []
        end
    | _, _ => []
    end in
  _ensure_min_spacing placement_line.

End ViewMoves.

(* ================================================================= *)
(** * Properties *)

(** ** Lists *)

Section PyListFacts.
Context {A : Type}.
Variable lt : A -> A -> bool.

Lemma insert_sorted_perm (x : A) (l : list A) :
    Permutation (insert_sorted lt x l) (x :: l).
Proof.
    induction l as [|y l IH]; simpl; [reflexivity|].
    destruct (lt y x); [|reflexivity].
    rewrite IH. apply perm_swap.
Qed.

Lemma py_sort_perm (l : list A) : Permutation (py_sort lt l) l.
Proof.
    induction l as [|x l IH]; simpl; [constructor|].
    rewrite insert_sorted_perm. now constructor.
Qed.

  (** A list with no descent between neighbours is a run the sort leaves
      alone. *)
Fixpoint no_descent (l : list A) : Prop :=
    match l with
    | [] => True
    | x :: l' =>
        match l' with
        | [] => True
        | y :: _ => lt y x = false
        end /\ no_descent l'
    end.

Lemma py_sort_run (l : list A) : no_descent l -> py_sort lt l = l.
Proof.
    induction l as [|x l IH]; simpl; [reflexivity|].
    intros [Hx Hl]. rewrite (IH Hl).
    destruct l as [|y l']; simpl; [reflexivity|].
    now rewrite Hx.
Qed.

End PyListFacts.

Lemma index_from_spec {A : Type} (eqb : A -> A -> bool) (x : A) (l : list A) :
  forall i idx, index_from eqb x l i = Some idx ->
    exists k y, idx = (i + k)%nat /\ nth_error l k = Some y /\ eqb y x = true.
Proof.
  induction l as [|y l IH]; simpl; intros i idx Hi; [discriminate|].
  destruct (eqb y x) eqn:E.
  - injection Hi as <-. exists 0%nat, y. now rewrite Nat.add_0_r.
  - destruct (IH _ _ Hi) as (k & z & -> & Hk & Hz).
    exists (S k), z. split; [lia|]. now split.
Qed.

Lemma py_index_spec {A : Type} (eqb : A -> A -> bool) (x : A) (l : list A) (idx : nat) :
  py_index eqb x l = Some idx ->
  exists y, nth_error l idx = Some y /\ eqb y x = true.
Proof.
  intros Hi. destruct (index_from_spec _ _ _ _ _ Hi) as (k & y & -> & Hk & Hy).
  now exists y.
Qed.

(** ** Exact arithmetic *)

Module ExactFacts.

Lemma ltb_lt (x y : Q) : Exact.ltb x y = true <-> x < y.
Proof.
    unfold Exact.ltb. rewrite negb_true_iff.
    destruct (Qle_bool y x) eqn:E.
    - apply Qle_bool_iff in E. split; [discriminate|]. intros Hl.
      exfalso. apply (Qlt_irrefl x). eapply Qlt_le_trans; eauto.
    - split; [intros _|reflexivity].
      apply Qnot_le_lt. intros Hl. apply Qle_bool_iff in Hl. congruence.
Qed.

Lemma ltb_ge (x y : Q) : Exact.ltb x y = false <-> y <= x.
Proof.
    unfold Exact.ltb. rewrite negb_false_iff. apply Qle_bool_iff.
Qed.

Lemma leb_le (x y : Q) : Qle_bool x y = true <-> x <= y.
Proof. apply Qle_bool_iff. Qed.

Lemma leb_gt (x y : Q) : Qle_bool x y = false <-> y < x.
Proof.
    rewrite <- ltb_lt. unfold Exact.ltb. now rewrite negb_true_iff.
Qed.

Lemma eqb_eq (x y : Q) : Qeq_bool x y = true <-> x == y.
Proof. apply Qeq_bool_iff. Qed.

Lemma eqb_neq (x y : Q) : Qeq_bool x y = false <-> ~ x == y.
Proof.
    split.
    - intros E Hq. apply Qeq_bool_iff in Hq. congruence.
    - intros Hn. destruct (Qeq_bool x y) eqn:E; [|reflexivity].
      apply Qeq_bool_iff in E. contradiction.
Qed.

Lemma eps_value : @TIME_MIN_PRECISION Q _ == 1 # 1000000000000.
Proof. reflexivity. Qed.

End ExactFacts.

(* ================================================================= *)
(** ** [_ensure_min_spacing] *)

Section MinSpacing.
Context {F : Type} `{PyFloat F}.
Local Open Scope py_scope.

  (** What the pass leaves behind: no time is below its predecessor plus
      [TIME_MIN_PRECISION], as the loop's own test sees it. *)
Fixpoint chained (prev : F) (l : list (point F)) : Prop :=
    match l with
    | [] => True
    | (t, _) :: rest => (t <? prev + TIME_MIN_PRECISION) = false /\ chained t rest
    end.

Definition settled (l : list (point F)) : Prop :=
    match l with
    | [] => True
    | (t, _) :: rest => py_max (lit 0 0) t = t /\ chained t rest
    end.

Hypothesis flt_irrefl : forall x : F, (x <? x) = false.

Lemma spacing_loop_chained (p : F) (l : list (point F)) :
    chained p (spacing_loop (Some p) l).
Proof.
    revert p. induction l as [|[t v] l IH]; intros p; simpl; [exact I|].
    destruct (t <? p + TIME_MIN_PRECISION) eqn:E; split; auto.
Qed.

Lemma py_max_idem (a t : F) : py_max a (py_max a t) = py_max a t.
Proof.
    unfold py_max. destruct (a <? t) eqn:E.
    - now rewrite E.
    - now rewrite flt_irrefl.
Qed.

Lemma spacing_loop_settled (l : list (point F)) : settled (spacing_loop None l).
Proof.
    destruct l as [|[t v] l]; simpl; [exact I|].
    split; [apply py_max_idem | apply spacing_loop_chained].
Qed.

Lemma spacing_loop_fix_from (p : F) (l : list (point F)) :
    chained p l -> spacing_loop (Some p) l = l.
Proof.
    revert p. induction l as [|[t v] l IH]; intros p; simpl; [reflexivity|].
    intros [E Hl]. rewrite E. now rewrite (IH _ Hl).
Qed.

Lemma spacing_loop_fix (l : list (point F)) :
    settled l -> spacing_loop None l = l.
Proof.
    destruct l as [|[t v] l]; simpl; [reflexivity|].
    intros [E Hl]. rewrite E. now rewrite (spacing_loop_fix_from _ _ Hl).
Qed.

  (** Adding the minimum step never takes a time below where it was. *)
Hypothesis step_up : forall a b : F, (b <? a) = true -> (b <? a + TIME_MIN_PRECISION) = true.

Lemma chained_no_descent (p : F) (v : F) (l : list (point F)) :
    chained p l -> no_descent key_lt ((p, v) :: l).
Proof.
    revert p v. induction l as [|[t w] l IH]; intros p v; simpl; [tauto|].
    intros [E Hl]. split.
    - unfold key_lt; simpl. destruct (t <? p) eqn:E'; [|reflexivity].
      apply step_up in E'. congruence.
    - apply (IH t w Hl).
Qed.

Lemma settled_no_descent (l : list (point F)) : settled l -> no_descent key_lt l.
Proof.
    destruct l as [|[t v] l]; [intros _; exact I|].
    intros [_ Hl]. now apply chained_no_descent.
Qed.

  (** C5. [_ensure_min_spacing] is idempotent: run on its own output it
      returns that output, for every list of points.  The two facts about
      the carrier's [<] and [+] it rests on are stated as hypotheses; they
      hold of exact arithmetic (see the witness) and of round-to-nearest
      binary64 addition. *)
Theorem ensure_min_spacing_idempotent (pts : list (point F)) :
    _ensure_min_spacing (_ensure_min_spacing pts) = _ensure_min_spacing pts.
Proof.
    destruct pts as [|p pts]; [reflexivity|].
    change (_ensure_min_spacing (p :: pts))
      with (spacing_loop None (py_sort key_lt (p :: pts))).
    pose proof (spacing_loop_settled (py_sort key_lt (p :: pts))) as Hs.
    destruct (spacing_loop None (py_sort key_lt (p :: pts))) as [|q out];
      [reflexivity|].
    unfold _ensure_min_spacing.
    rewrite (py_sort_run _ _ (settled_no_descent _ Hs)).
    now apply spacing_loop_fix.
Qed.

End MinSpacing.

Lemma Q_flt_irrefl (x : Q) : flt x x = false.
Proof. apply ExactFacts.ltb_ge. apply Qle_refl. Qed.

Lemma Q_step_up (a b : Q) :
  flt b a = true -> flt b (fadd a TIME_MIN_PRECISION) = true.
Proof.
  simpl. rewrite !ExactFacts.ltb_lt. intros Hl.
  pose proof ExactFacts.eps_value as He. simpl in He. lra.
Qed.

(** The list of [test_min_spacing_validation], in exact arithmetic. *)
Definition spacing_test_points : list (point Q) :=
  [ (0, 0); (0, 1); (5 # 10000000000000, 5 # 10);
    (5 # 10000000000000, 7 # 10); (2 # 1000000000000, 2 # 10) ].

Lemma ensure_min_spacing_idempotent_witness :
  _ensure_min_spacing (_ensure_min_spacing spacing_test_points)
  = _ensure_min_spacing spacing_test_points.
Proof.
  exact (ensure_min_spacing_idempotent Q_flt_irrefl Q_step_up spacing_test_points).
Defined.

(* ================================================================= *)
(** ** Quick add *)

(** An editor as [_init_data] leaves it, holding [pts], over a 1080x800
    canvas showing [0, 10] x [-1, 1]. *)
Definition init_canvas {F : Type} `{PyFloat F} : canvas F :=
  {| x_min := lit 0 0; x_max := lit 10 0; y_min := lit (-1) 0; y_max := lit 1 0;
     winfo_width := 1080; winfo_height := 800;
     _lod_pixel_step := 2; _max_preview_points := 3000 |}.

Definition init_editor {F : Type} `{PyFloat F} (pts : list (point F)) : editor F :=
  {| points := pts; selected_indices := []; primary_selected_index := None;
     dragging_indices := [];
     drag_start := None; drag_original_data := []; drag_precision := DEFAULT_DRAG_PRECISION;
     panning := false; placement_mode := false; placement_data := [];
     the_canvas := init_canvas |}.

Section QuickAdd.
Context {F : Type} `{PyFloat F}.
Local Open Scope py_scope.

Lemma quick_add_nonempty (s : editor F) (p : point F) (rest : list (point F)) :
    points s = p :: rest ->
    let new := (fst (last rest p) + lit 1 (-3), lit 0 0) in
    Permutation (points (fst (quick_add_point s))) (points s ++ [new])
    /\ forall s', quick_add_point s = (s', Done) ->
         exists idx q,
           selected_indices s' = [idx]
           /\ primary_selected_index s' = Some idx
           /\ nth_error (points s') idx = Some q
           /\ tuple_eq q new = true.
Proof.
    intros Hp new. unfold quick_add_point. rewrite Hp. fold new.
    destruct (py_index tuple_eq new (py_sort tuple_lt ((p :: rest) ++ [new])))
      as [idx|] eqn:E.
    - split; [exact (py_sort_perm tuple_lt ((p :: rest) ++ [new]))|].
      intros s' Hs. injection Hs as <-.
      destruct (py_index_spec _ _ _ _ E) as (q & Hq & Heq).
      now exists idx, q.
    - split; [exact (py_sort_perm tuple_lt ((p :: rest) ++ [new]))|].
      intros s' Hs. discriminate.
Qed.

End QuickAdd.

(** C10. On an empty Waveform quick add stores the single point
    [(0.0, 0.0)] and makes index 0 the only selected and the primary point
    (on binary64 and in exact arithmetic alike); on a non-empty Waveform the
    stored points are the old ones together with
    [(last_time + 1e-3, 0.0)], and the selection is the index where that
    point is found after the sort. *)
Theorem quick_add_point_spec :
  (forall s : editor float, points s = [] ->
     quick_add_point s
     = (with_selection (with_points s [(lit 0 0, lit 0 0)]) [0%nat] (Some 0%nat), Done))
  /\ (forall s : editor Q, points s = [] ->
     quick_add_point s
     = (with_selection (with_points s [(lit 0 0, lit 0 0)]) [0%nat] (Some 0%nat), Done))
  /\ (forall (F : Type) (HF : PyFloat F) (s : editor F) p rest,
        points s = p :: rest ->
        let new := (fadd (fst (last rest p)) (lit 1 (-3)), lit 0 0) in
        Permutation (points (fst (quick_add_point s))) (points s ++ [new])
        /\ forall s', quick_add_point s = (s', Done) ->
             exists idx q,
               selected_indices s' = [idx]
               /\ primary_selected_index s' = Some idx
               /\ nth_error (points s') idx = Some q
               /\ tuple_eq q new = true).
Proof.
  split; [|split].
  - intros s Hs. unfold quick_add_point. rewrite Hs.
    match goal with
    | |- context [py_index ?e ?x ?l] =>
        replace (py_index e x l) with (Some 0%nat) by (vm_compute; reflexivity)
    end.
    reflexivity.
  - intros s Hs. unfold quick_add_point. rewrite Hs.
    match goal with
    | |- context [py_index ?e ?x ?l] =>
        replace (py_index e x l) with (Some 0%nat) by (vm_compute; reflexivity)
    end.
    reflexivity.
  - intros F HF s p rest Hp. now apply quick_add_nonempty.
Qed.

Lemma quick_add_point_spec_witness :
  quick_add_point (init_editor (F := float) [])
  = (with_selection (with_points (init_editor []) [(lit 0 0, lit 0 0)])
                    [0%nat] (Some 0%nat), Done)
  /\ Permutation
       (points (fst (quick_add_point (init_editor (F := float) [(lit 1 0, lit 2 0)]))))
       ([(lit 1 0, lit 2 0)] ++ [(fadd (lit 1 0) (lit 1 (-3)), lit 0 0)]).
Proof.
  split.
  - exact (proj1 quick_add_point_spec (init_editor []) eq_refl).
  - exact (proj1 (proj2 (proj2 quick_add_point_spec) float _
                        (init_editor [(lit 1 0, lit 2 0)]) (lit 1 0, lit 2 0) []
                        eq_refl)).
Defined.

(* ================================================================= *)
(** ** Conflict detection and [add_point] *)

Section Conflict.
Context {F : Type} `{PyFloat F}.
Local Open Scope py_scope.

(** Some point other than [exclude_index] lies closer to [new_time] than
    twice the minimum step, by the test the loop applies. *)
Definition too_close (pts : list (point F)) (new_time : F) (exclude_index : option nat)
  : Prop :=
  exists k t v,
    nth_error pts k = Some (t, v)
    /\ exclude_index <> Some k
    /\ (fabs (t - new_time) <? TIME_MIN_PRECISION * of_int 2) = true.

Lemma conflict_loop_iff (pts : list (point F)) (new_time thr : F) (ex : option nat) :
  forall i,
    conflict_loop (enumerate_from i pts) new_time thr ex = true
    <-> exists k t v,
          nth_error pts k = Some (t, v)
          /\ ex <> Some (i + k)%nat
          /\ (fabs (t - new_time) <? thr) = true.
Proof.
  induction pts as [|[t v] pts IH]; intros i; simpl.
  - split; [discriminate|]. intros (k & t & v & Hk & _). now destruct k.
  - assert (Hshift : forall k, (i + S k = S i + k)%nat) by (intros; lia).
    destruct (match ex with Some e => Nat.eqb i e | None => false end) eqn:Ex.
    + rewrite IH. split.
      * intros (k & t' & v' & Hk & Hne & Hc).
        exists (S k), t', v'. rewrite Hshift. now repeat split.
      * intros (k & t' & v' & Hk & Hne & Hc). destruct k as [|k].
        -- exfalso. apply Hne. destruct ex as [e|]; [|discriminate].
           apply Nat.eqb_eq in Ex. subst e. now rewrite Nat.add_0_r.
        -- exists k, t', v'. rewrite <- Hshift. now repeat split.
    + destruct (fabs (t - new_time) <? thr) eqn:Ec.
      * split; [intros _|reflexivity].
        exists 0%nat, t, v. repeat split; auto.
        rewrite Nat.add_0_r. destruct ex as [e|]; [|discriminate].
        intros [= ->]. now rewrite Nat.eqb_refl in Ex.
      * rewrite IH. split.
        -- intros (k & t' & v' & Hk & Hne & Hc).
           exists (S k), t', v'. rewrite Hshift. now repeat split.
        -- intros (k & t' & v' & Hk & Hne & Hc). destruct k as [|k].
           ++ simpl in Hk. injection Hk as <- <-. congruence.
           ++ exists k, t', v'. rewrite <- Hshift. now repeat split.
Qed.

Lemma check_time_conflict_iff (s : editor F) (new_time : F) (ex : option nat) :
  _check_time_conflict s new_time ex = true <-> too_close (points s) new_time ex.
Proof. unfold _check_time_conflict, too_close. now rewrite conflict_loop_iff. Qed.

Lemma add_point_at_cases (time value : F) (s : editor F) :
  ((time <? lit 0 0) = true ->
     add_point_at time value s = (s, Failed NegativeTime))
  /\ ((time <? lit 0 0) = false ->
        (snd (add_point_at time value s) = Failed TimeConflict
           <-> too_close (points s) time None)
        /\ (too_close (points s) time None ->
              add_point_at time value s = (s, Failed TimeConflict))
        /\ (~ too_close (points s) time None ->
              points (fst (add_point_at time value s))
                = py_sort tuple_lt (points s ++ [(time, value)])
              /\ forall s', add_point_at time value s = (s', Done) ->
                   exists idx q,
                     py_index tuple_eq (time, value) (points s') = Some idx
                     /\ selected_indices s' = [idx]
                     /\ primary_selected_index s' = Some idx
                     /\ nth_error (points s') idx = Some q
                     /\ tuple_eq q (time, value) = true)).
Proof.
  unfold add_point_at. split; intros Hneg; rewrite Hneg; [reflexivity|].
  pose proof (check_time_conflict_iff s time None) as Hc.
  destruct (_check_time_conflict s time None) eqn:Ec.
  - assert (Hclose : too_close (points s) time None) by now apply Hc.
    split; [|split].
    + split; auto.
    + reflexivity.
    + intros Hn. contradiction.
  - assert (Hfar : ~ too_close (points s) time None).
    { intros Hx. apply Hc in Hx. discriminate. }
    destruct (py_index tuple_eq (time, value)
                (py_sort tuple_lt (points s ++ [(time, value)]))) as [idx|] eqn:Ei.
    + split; [|split].
      * split; [discriminate | intros; contradiction].
      * intros; contradiction.
      * intros _. split; [reflexivity|].
        intros s' Hs'. injection Hs' as <-.
        destruct (py_index_spec _ _ _ _ Ei) as (q & Hq & Heq).
        exists idx, q. now repeat split.
    + split; [|split].
      * split; [discriminate | intros; contradiction].
      * intros; contradiction.
      * intros _. split; [reflexivity|]. discriminate.
Qed.

End Conflict.

(** The Store of [test_check_time_conflict], on binary64. *)
Definition conflict_test_editor : editor float :=
  init_editor [(lit 0 0, lit 0 0); (lit 1 0, lit 1 0)].




(* ================================================================= *)
(** ** Drag release *)

(** The Store [(0.0,0.0),(2e-12,0.0)] right after a press on point 0: the
    point is selected and a drag session on it has begun at its own
    position. *)
Definition drag_test_editor {F : Type} `{PyFloat F} : editor F :=
  {| points := [(lit 0 0, lit 0 0); (lit 2 (-12), lit 0 0)];
     selected_indices := [0%nat];
     primary_selected_index := Some 0%nat;
     dragging_indices := [0%nat];
     drag_start := Some (lit 0 0, lit 0 0);
     drag_original_data := [(0%nat, (lit 0 0, lit 0 0))];
     drag_precision := DEFAULT_DRAG_PRECISION;
     panning := false; placement_mode := false; placement_data := [];
     the_canvas := init_canvas |}.

(** C2. Dragging point 0 of [(0.0,0.0),(2e-12,0.0)] to the proposed time
    [1.5e-12] writes that time into the Store; the release then quantizes,
    enforces the corridor and re-sorts, and leaves point 0 at exactly
    [1e-12] and point 1 at [2e-12].  Computed on binary64, where
    [1.5e-12 / 1e-12] is exactly [1.5] and rounds to the even [2]; the last
    clause is the same run in exact arithmetic. *)
Theorem drag_release_settles :
  points (drag_motion (lit 15 (-13)) (lit 0 0) (drag_test_editor (F := float)))
  = [(lit 15 (-13), lit 0 0); (lit 2 (-12), lit 0 0)]
  /\ option_map points
       (_on_mouse_release
          (drag_motion (lit 15 (-13)) (lit 0 0) (drag_test_editor (F := float))))
     = Some [(lit 1 (-12), lit 0 0); (lit 2 (-12), lit 0 0)]
  /\ option_map selected_indices
       (_on_mouse_release
          (drag_motion (lit 15 (-13)) (lit 0 0) (drag_test_editor (F := float))))
     = Some [0%nat]
  /\ option_map (fun s => map (fun p => (Qred (fst p), Qred (snd p))) (points s))
       (_on_mouse_release
          (drag_motion (lit 15 (-13)) (lit 0 0) (drag_test_editor (F := Q))))
     = Some [(Qred (lit 1 (-12)), Qred (lit 0 0)); (Qred (lit 2 (-12)), Qred (lit 0 0))].
Proof. repeat split; vm_compute; reflexivity. Qed.

(* ================================================================= *)
(** ** The generator at the two tested settings *)

(** [period=1e-6, amp=1.0, offset=0.0, duration=1e-6, t_high=2e-7,
    tr=1e-8, tf=1e-8]. *)
Definition square_test_params {F : Type} `{PyFloat F} : wave_params :=
  {| freq := None; period := Some (lit 1 (-6)); amp := Some (lit 1 0);
     offset := Some (lit 0 0); duration := Some (lit 1 (-6)); duty := None;
     t_high := Some (lit 2 (-7)); tr := Some (lit 1 (-8)); tf := Some (lit 1 (-8));
     rise_ratio := None; t_rise := None; ppc := Some (of_int 50) |}.

(** [period=1e-6, amp=1.0, offset=0.0, duration=1e-6, t_rise=3e-7]. *)
Definition triangle_test_params {F : Type} `{PyFloat F} : wave_params :=
  {| freq := None; period := Some (lit 1 (-6)); amp := Some (lit 1 0);
     offset := Some (lit 0 0); duration := Some (lit 1 (-6)); duty := None;
     t_high := None; tr := None; tf := None;
     rise_ratio := None; t_rise := Some (lit 3 (-7)); ppc := Some (of_int 50) |}.

(** [any(abs(t - target) < 1e-10 for t, v in pts if ok(v))] *)
Definition any_near {F : Type} `{PyFloat F} (target : F) (ok : F -> bool)
           (pts : list (point F)) : bool :=
  existsb (fun p => ok (snd p) && flt (fabs (fsub (fst p) target)) (lit 1 (-10))) pts.

(** C8. With two or more rounds of fuel the square wave of the test is
    produced, and it holds the sample [(2e-7, +1)], the start of the
    high-to-low edge, so a time within [1e-10] of [2e-7]; the triangle
    wave of the test is produced, holds the peak sample [(3e-7, +1)], and
    all its peak-valued samples are within [1e-10] of [3e-7].  On binary64,
    whatever [math.sin] and [math.pi] are. *)
Theorem wave_generator_boundaries :
  forall (math_sin : float -> float) (math_pi : float) (n : nat),
    (exists pts,
        _wave_params_to_points math_sin math_pi (S (S n)) "square" square_test_params
        = Some pts
        /\ In (lit 2 (-7), lit 1 0) pts
        /\ any_near (lit 2 (-7)) (fun _ => true) pts = true)
    /\ (exists pts,
        _wave_params_to_points math_sin math_pi (S (S n)) "triangle" triangle_test_params
        = Some pts
        /\ In (lit 3 (-7), lit 1 0) pts
        /\ any_near (lit 3 (-7))
             (fun v => flt (fabs (fsub v (lit 1 0))) (lit 1 (-6))) pts = true
        /\ forallb (fun p => negb (feq (snd p) (lit 1 0))
                             || flt (fabs (fsub (fst p) (lit 3 (-7)))) (lit 1 (-10)))
                   pts = true).
Proof.
  intros math_sin math_pi n. split.
  - eexists. split; [vm_compute; reflexivity|].
    split; [|vm_compute; reflexivity].
    vm_compute. right. right. left. reflexivity.
  - eexists. split; [vm_compute; reflexivity|].
    split; [|split; vm_compute; reflexivity].
    vm_compute. right. left. reflexivity.
Qed.

(* ================================================================= *)
(** ** Preview decimation *)

Section Decimation.
Context {F : Type} `{PyFloat F}.

Lemma decimate_loop_length (c : canvas F) (step : Z) (line dec : list (point F))
      (last_sx : option F) :
  (List.length dec <= _max_preview_points c)%nat ->
  (List.length (decimate_loop c step line dec last_sx) <= S (_max_preview_points c))%nat.
Proof.
  revert dec last_sx. induction line as [|[t v] line IH]; intros dec last_sx Hd; simpl.
  - rewrite length_rev. apply Nat.le_le_succ_r. exact Hd.
  - destruct (world_to_screen c t v) as [sx sy].
    set (keep := match last_sx with
                 | Some l => fle (of_int step) (fabs (fsub sx l))
                 | None => true
                 end).
    destruct keep;
      match goal with |- context [if ?b then _ else _] => destruct b eqn:E end.
    + rewrite length_rev. simpl. apply le_n_S. exact Hd.
    + apply IH. now apply Nat.ltb_ge in E.
    + rewrite length_rev. apply Nat.le_le_succ_r. exact Hd.
    + now apply IH.
Qed.

End Decimation.

(** A preview line of 3002 points one world unit apart: on the 1080x800
    canvas showing [0, 10] they are 100 pixels apart. *)
Definition long_preview_line : list (point float) :=
  map (fun i => (of_int (Z.of_nat i), lit 0 0)) (seq 0 3002).

(** C9 fails by one point.  The loop appends first and tests
    [len(decimated) > _max_preview_points] afterwards, so on a line of 3002
    well separated points the decimated preview holds 3001 points, one more
    than the cap of 3000; it never holds more than the cap plus one. *)
Theorem decimation_overshoots_cap :
  _max_preview_points (init_canvas (F := float)) = 3000%nat
  /\ List.length (decimate_preview init_canvas long_preview_line) = 3001%nat
  /\ forall (F : Type) (HF : PyFloat F) (c : canvas F) (line : list (point F)),
       (List.length (decimate_preview c line) <= S (_max_preview_points c))%nat.
Proof.
  split; [reflexivity|]. split; [vm_compute; reflexivity|].
  intros F HF c line. unfold decimate_preview.
  apply decimate_loop_length. apply Nat.le_0_l.
Qed.

(* ================================================================= *)
(** ** Fit to view *)

Ltac q_reflect :=
  repeat match goal with
    | H : Qle_bool _ _ = true |- _ => apply ExactFacts.leb_le in H
    | H : Qle_bool _ _ = false |- _ => apply ExactFacts.leb_gt in H
    | H : Exact.ltb _ _ = true |- _ => apply ExactFacts.ltb_lt in H
    | H : Exact.ltb _ _ = false |- _ => apply ExactFacts.ltb_ge in H
    | H : Qeq_bool _ _ = true |- _ => apply ExactFacts.eqb_eq in H
    | H : Qeq_bool _ _ = false |- _ => apply ExactFacts.eqb_neq in H
    end.

Ltac q_lits :=
  repeat match goal with
    | |- context [Exact.lit ?m ?k] =>
        let v := eval vm_compute in (Exact.lit m k) in
        change (Exact.lit m k) with v
    | H : context [Exact.lit ?m ?k] |- _ =>
        let v := eval vm_compute in (Exact.lit m k) in
        change (Exact.lit m k) with v in H
    end.

Ltac case_tests :=
  repeat match goal with
    | |- context [Qle_bool ?a ?b] => destruct (Qle_bool a b) eqn:?; simpl
    | |- context [Exact.ltb ?a ?b] => destruct (Exact.ltb a b) eqn:?; simpl
    end.

Module FitFacts.

Lemma list_min_le (l : list Q) (x : Q) : list_min x l <= x.
Proof.
  unfold list_min. revert x. induction l as [|a l IH]; intros x; simpl.
  - apply Qle_refl.
  - match goal with |- context [if ?b then _ else _] => destruct b eqn:E end.
    + simpl in E. q_reflect. specialize (IH a). simpl in IH. lra.
    + apply IH.
Qed.

Lemma list_max_ge (l : list Q) (x : Q) : x <= list_max x l.
Proof.
  unfold list_max. revert x. induction l as [|a l IH]; intros x; simpl.
  - apply Qle_refl.
  - match goal with |- context [if ?b then _ else _] => destruct b eqn:E end.
    + simpl in E. q_reflect. specialize (IH a). simpl in IH. lra.
    + apply IH.
Qed.

(** On a viewport of positive width the clamp leaves a positive right
    edge, a positive width, at most 5% of the width left of zero, and the
    Y range alone. *)
Lemma enforce_negative_axis_limit_bound (c : canvas Q) :
  x_min c < x_max c ->
  let c' := _enforce_negative_axis_limit c in
  0 < x_max c'
  /\ x_min c' < x_max c'
  /\ - x_min c' <= (5 # 100) * (x_max c' - x_min c')
  /\ y_min c' = y_min c /\ y_max c' = y_max c.
Proof.
  intros Hw. unfold _enforce_negative_axis_limit. simpl.
  q_lits.
  let v := eval vm_compute in ((5 # 100) / (95 # 100)) in
  change ((5 # 100) / (95 # 100)) with v.
  case_tests; q_reflect; repeat split; try lra.
Qed.

Lemma zoom_to_all_points_bound (s : editor Q) :
  points s <> [] ->
  let c' := the_canvas (zoom_to_all_points s) in
  0 < x_max c'
  /\ x_min c' < x_max c'
  /\ - x_min c' <= (5 # 100) * (x_max c' - x_min c').
Proof.
  intros Hne. unfold zoom_to_all_points.
  destruct (points s) as [|p rest]; [congruence|]. clear Hne.
  set (times := map fst rest ++ [lit 0 0]).
  pose proof (list_min_le times (fst p)) as Hmin.
  pose proof (list_max_ge times (fst p)) as Hmax.
  set (xmin := list_min (fst p) times) in *.
  set (xmax := list_max (fst p) times) in *.
  set (x_range := if flt xmin xmax then fsub xmax xmin
                  else py_max (fabs xmax) (lit 1 0)).
  assert (Hr : 0 < x_range).
  { unfold x_range. simpl. destruct (Exact.ltb xmin xmax) eqn:E; q_reflect; [lra|].
    unfold py_max. simpl. q_lits.
    destruct (Exact.ltb (Qabs xmax) 1) eqn:E'; q_reflect; lra. }
  match goal with
  | |- context [_enforce_negative_axis_limit ?c] =>
      pose proof (enforce_negative_axis_limit_bound c) as Hb
  end.
  simpl in Hb. q_lits.
  assert (Hw : xmin - x_range * (5 # 100) < xmax + x_range * (5 # 100)) by lra.
  specialize (Hb Hw). simpl. tauto.
Qed.

End FitFacts.

(** The negative share of the X axis as [test_negative_axis_limit_on_fit]
    computes it: [max(0.0, -min(0.0, x_min)) / (x_max - x_min)]. *)
Definition negative_fraction {F : Type} `{PyFloat F} (c : canvas F) : F :=
  fdiv (py_max (lit 0 0) (fopp (py_min (lit 0 0) (x_min c))))
       (fsub (x_max c) (x_min c)).



(* ================================================================= *)
(** ** The spacing invariant under the point operations (exact arithmetic) *)

Module SpacingFacts.

Definition eps : Q := 1 # 1000000000000.

(** [q] comes at least one minimum step after [p]. *)
Definition gap (p q : point Q) : Prop := fst p + eps <= fst q.

(** The two times are at least one minimum step apart. *)
Definition far (p q : point Q) : Prop := gap p q \/ gap q p.

Definition nonneg (p : point Q) : Prop := 0 <= fst p.

Definition well_spaced (l : list (point Q)) : Prop :=
  StronglySorted gap l /\ Forall nonneg l.

Lemma gap_trans (p q r : point Q) : gap p q -> gap q r -> gap p r.
Proof. unfold gap, eps. intros. lra. Qed.

Lemma far_sym (p q : point Q) : far p q -> far q p.
Proof. unfold far. tauto. Qed.

Lemma gaps_ok_iff (l : list (point Q)) (t v : Q) :
  gaps_ok t l = true <-> StronglySorted gap ((t, v) :: l).
Proof.
  revert t v. induction l as [|[t' v'] l IH]; intros t v; simpl.
  - split; [intros _|reflexivity]. repeat constructor.
  - rewrite andb_true_iff, (IH t' v'). q_lits. rewrite ExactFacts.leb_le.
    split.
    + intros [Hg Hs]. constructor; [exact Hs|].
      assert (Hg' : gap (t, v) (t', v')) by (unfold gap, eps; simpl; lra).
      constructor; [exact Hg'|].
      apply StronglySorted_inv in Hs. destruct Hs as [_ Hall].
      eapply Forall_impl; [|exact Hall]. intros a Ha. eapply gap_trans; eauto.
    + intros Hs. apply StronglySorted_inv in Hs. destruct Hs as [Hs Hall].
      split; [|exact Hs]. apply Forall_inv in Hall. unfold gap, eps in Hall.
      simpl in Hall. lra.
Qed.

Lemma spacing_ok_iff (l : list (point Q)) :
  spacing_ok l = true <-> well_spaced l.
Proof.
  unfold well_spaced. destruct l as [|[t v] l]; simpl.
  - split; [intros _|reflexivity]. split; constructor.
  - rewrite andb_true_iff, (gaps_ok_iff l t v). q_lits. rewrite ExactFacts.leb_le.
    split.
    + intros [H0 Hs]. split; [exact Hs|].
      constructor; [exact H0|].
      apply StronglySorted_inv in Hs. destruct Hs as [_ Hall].
      eapply Forall_impl; [|exact Hall]. intros [a b] Ha.
      unfold gap, nonneg, eps in *. simpl in *. lra.
    + intros [Hs Hn]. split; [|exact Hs]. now apply Forall_inv in Hn.
Qed.

Lemma tuple_lt_true_le (p q : point Q) : tuple_lt p q = true -> fst p <= fst q.
Proof.
  unfold tuple_lt. simpl. destruct (Qeq_bool (fst p) (fst q)) eqn:E; simpl.
  - q_reflect. intros _. lra.
  - intros Hl. q_reflect. lra.
Qed.

Lemma tuple_lt_false_ge (p q : point Q) : tuple_lt p q = false -> fst q <= fst p.
Proof.
  unfold tuple_lt. simpl. destruct (Qeq_bool (fst p) (fst q)) eqn:E; simpl.
  - q_reflect. intros _. lra.
  - intros Hl. q_reflect. lra.
Qed.

Lemma insert_gap (x : point Q) (l : list (point Q)) :
  StronglySorted gap l -> Forall (far x) l ->
  StronglySorted gap (insert_sorted tuple_lt x l).
Proof.
  induction l as [|y l IH]; simpl; intros Hs Hf.
  - repeat constructor.
  - apply StronglySorted_inv in Hs. destruct Hs as [Hs Hall].
    apply Forall_cons_iff in Hf. destruct Hf as [Hxy Hf].
    destruct (tuple_lt y x) eqn:E.
    + apply tuple_lt_true_le in E.
      assert (Hg : gap y x).
      { destruct Hxy as [Hg|Hg]; [|exact Hg]. unfold gap, eps in *. lra. }
      constructor; [now apply IH|].
      eapply Permutation_Forall; [symmetry; apply insert_sorted_perm|].
      now constructor.
    + apply tuple_lt_false_ge in E.
      assert (Hg : gap x y).
      { destruct Hxy as [Hg|Hg]; [exact Hg|]. unfold gap, eps in *. lra. }
      constructor; [now constructor|].
      constructor; [exact Hg|].
      eapply Forall_impl; [|exact Hall]. intros a Ha. eapply gap_trans; eauto.
Qed.

Lemma sort_gap (l : list (point Q)) :
  ForallOrdPairs far l -> StronglySorted gap (py_sort tuple_lt l).
Proof.
  induction 1 as [|x l Hx Hl IH]; simpl; [constructor|].
  apply insert_gap; [exact IH|].
  eapply Permutation_Forall; [symmetry; apply py_sort_perm|exact Hx].
Qed.

Lemma sorted_far (l : list (point Q)) : StronglySorted gap l -> ForallOrdPairs far l.
Proof.
  induction 1 as [|x l Hs IH Hall]; constructor; auto.
  eapply Forall_impl; [|exact Hall]. intros a Ha. now left.
Qed.

Lemma sort_well_spaced (l : list (point Q)) :
  ForallOrdPairs far l -> Forall nonneg l -> well_spaced (py_sort tuple_lt l).
Proof.
  intros Hf Hn. split; [now apply sort_gap|].
  eapply Permutation_Forall; [symmetry; apply py_sort_perm|exact Hn].
Qed.


Lemma FOP_app_single {A : Type} (R : A -> A -> Prop) (l : list A) (x : A) :
  ForallOrdPairs R l -> Forall (fun y => R y x) l -> ForallOrdPairs R (l ++ [x]).
Proof.
  induction 1 as [|y l Hy Hl IH]; simpl; intros Hx.
  - repeat constructor.
  - apply Forall_cons_iff in Hx. destruct Hx as [Hyx Hx].
    constructor; [|now apply IH].
    apply Forall_app. split; [exact Hy|]. now constructor.
Qed.

Lemma Forall_set_nth {A : Type} (P : A -> Prop) (i : nat) (x : A) (l : list A) :
  Forall P l -> P x -> Forall P (set_nth i x l).
Proof.
  revert i. induction l as [|y l IH]; intros i Hl Hx;
    [destruct i; constructor|].
  apply Forall_cons_iff in Hl. destruct Hl as [Hy Hl].
  destruct i; simpl; constructor; auto.
Qed.

Lemma Forall_del_nth {A : Type} (P : A -> Prop) (i : nat) (l : list A) :
  Forall P l -> Forall P (del_nth i l).
Proof.
  revert i. induction l as [|y l IH]; intros i Hl;
    [destruct i; constructor|].
  apply Forall_cons_iff in Hl. destruct Hl as [Hy Hl].
  destruct i; simpl; [exact Hl|]. constructor; auto.
Qed.

Lemma FOP_nth (l : list (point Q)) :
  ForallOrdPairs far l ->
  forall i k a b, i <> k -> nth_error l i = Some a -> nth_error l k = Some b -> far a b.
Proof.
  induction 1 as [|y l Hy Hl IH]; intros i k a b Hik Hi Hk.
  - now destruct i.
  - rewrite Forall_forall in Hy.
    destruct i as [|i], k as [|k]; simpl in *.
    + congruence.
    + injection Hi as <-. apply Hy. eapply nth_error_In; eauto.
    + injection Hk as <-. apply far_sym, Hy. eapply nth_error_In; eauto.
    + eapply (IH i k); eauto.
Qed.

Lemma FOP_set_nth (i : nat) (x : point Q) (l : list (point Q)) :
  ForallOrdPairs far l ->
  (forall k y, k <> i -> nth_error l k = Some y -> far x y) ->
  ForallOrdPairs far (set_nth i x l).
Proof.
  intros Hl. revert i. induction Hl as [|y l Hy Hl IH]; intros i Hx.
  - destruct i; constructor.
  - destruct i as [|i]; simpl.
    + constructor; [|exact Hl].
      rewrite Forall_forall. intros z Hz.
      destruct (In_nth_error _ _ Hz) as [k Hk]. apply (Hx (S k)); auto.
    + constructor.
      * apply Forall_set_nth; [exact Hy|]. apply far_sym. apply (Hx 0%nat); auto.
      * apply IH. intros k z Hk Hz. apply (Hx (S k)); auto.
Qed.

Lemma SSorted_del_nth (i : nat) (l : list (point Q)) :
  StronglySorted gap l -> StronglySorted gap (del_nth i l).
Proof.
  intros Hl. revert i. induction Hl as [|y l Hl IH Hy]; intros i.
  - destruct i; constructor.
  - destruct i; simpl; [exact Hl|]. constructor; [apply IH|]. now apply Forall_del_nth.
Qed.

Lemma well_spaced_del_nth (i : nat) (l : list (point Q)) :
  well_spaced l -> well_spaced (del_nth i l).
Proof.
  intros [Hs Hn]. split; [now apply SSorted_del_nth | now apply Forall_del_nth].
Qed.

Lemma sorted_le_last (l : list (point Q)) (d : point Q) :
  StronglySorted gap l -> Forall (fun q => fst q <= fst (last l d)) l.
Proof.
  induction 1 as [|y l Hl IH Hy]; [constructor|].
  destruct l as [|z l'].
  - constructor; [apply Qle_refl|constructor].
  - change (last (y :: z :: l') d) with (last (z :: l') d).
    constructor; [|exact IH].
    apply Forall_inv in IH. apply Forall_inv in Hy. unfold gap, eps in Hy.
    simpl in *. lra.
Qed.

(** What a failed conflict check says about every point not excluded. *)
Lemma not_close_far (pts : list (point Q)) (time value : Q) (ex : option nat) :
  ~ too_close pts time ex ->
  forall k y, ex <> Some k -> nth_error pts k = Some y -> far (time, value) y.
Proof.
  intros Hn k [t v] Hex Hk.
  destruct (Exact.ltb (Qabs (t - time)) (Exact.lit 1 (-12) * Exact.lit 2 0)) eqn:E.
  - exfalso. apply Hn. exists k, t, v. repeat split; auto.
  - q_reflect. q_lits. unfold far, gap, eps. simpl.
    revert E. apply Qabs_case; intros; lra.
Qed.


Lemma add_point_at_well_spaced (time value : Q) (s : editor Q) :
  well_spaced (points s) -> well_spaced (points (fst (add_point_at time value s))).
Proof.
  intros Hw. unfold add_point_at.
  destruct (flt time (lit 0 0)) eqn:E0; [exact Hw|].
  destruct (_check_time_conflict s time None) eqn:Ec; [exact Hw|].
  assert (Hfar : ~ too_close (points s) time None).
  { intros Hx. apply check_time_conflict_iff in Hx. congruence. }
  assert (Hs : well_spaced (py_sort tuple_lt (points s ++ [(time, value)]))).
  { destruct Hw as [Hs Hn]. apply sort_well_spaced.
    - apply FOP_app_single; [now apply sorted_far|].
      rewrite Forall_forall. intros y Hy.
      destruct (In_nth_error _ _ Hy) as [k Hk].
      apply far_sym. eapply not_close_far; eauto. discriminate.
    - apply Forall_app. split; [exact Hn|].
      constructor; [|constructor]. simpl in E0. q_reflect. q_lits. exact E0. }
  destruct (py_index tuple_eq (time, value)
              (py_sort tuple_lt (points s ++ [(time, value)]))); exact Hs.
Qed.

Lemma update_point_at_well_spaced (new_time new_value : Q) (s : editor Q) :
  well_spaced (points s) ->
  well_spaced (points (fst (update_point_at new_time new_value s))).
Proof.
  intros Hw. unfold update_point_at.
  destruct (primary_selected_index s) as [index|]; [|exact Hw].
  destruct (flt new_time (lit 0 0)) eqn:E0; [exact Hw|].
  destruct (nth_error (points s) index) as [[old_time old_value]|] eqn:Ei; [|exact Hw].
  destruct ((negb (feq new_time old_time))
            && _check_time_conflict s new_time (Some index)) eqn:Ec; [exact Hw|].
  assert (Hs : well_spaced
                 (py_sort tuple_lt (set_nth index (new_time, new_value) (points s)))).
  { destruct Hw as [Hs Hn]. apply sort_well_spaced.
    - apply FOP_set_nth; [now apply sorted_far|].
      intros k y Hk Hy.
      apply andb_false_iff in Ec. destruct Ec as [Ec|Ec].
      + apply negb_false_iff in Ec. simpl in Ec. q_reflect.
        assert (Hf : far (old_time, old_value) y).
        { eapply (FOP_nth _ (sorted_far _ Hs) index k); eauto. }
        unfold far, gap in *. simpl in *. rewrite Ec. exact Hf.
      + apply (not_close_far (points s) new_time new_value (Some index)) with (k := k).
        * intros Hx. apply check_time_conflict_iff in Hx. congruence.
        * congruence.
        * exact Hy.
    - apply Forall_set_nth; [exact Hn|].
      simpl in E0. q_reflect. q_lits. exact E0. }
  destruct (py_index tuple_eq (new_time, new_value)
              (py_sort tuple_lt (set_nth index (new_time, new_value) (points s))));
    exact Hs.
Qed.

Lemma delete_point_well_spaced (tree_selection : list nat) (s : editor Q) :
  well_spaced (points s) ->
  well_spaced (points (fst (delete_point tree_selection s))).
Proof.
  intros Hw. unfold delete_point.
  match goal with
  | |- context [rev ?x] => generalize x
  end.
  intros sel. destruct sel as [|i sel']; [exact Hw|].
  cbn [fst points with_selection with_points].
  generalize (rev (i :: sel')). intros l. revert Hw. generalize (points s).
  induction l as [|j l IH]; intros pts Hw; simpl; [exact Hw|].
  apply IH. destruct (Nat.ltb j (List.length pts)); [|exact Hw].
  now apply well_spaced_del_nth.
Qed.

Lemma quick_add_point_well_spaced (s : editor Q) :
  well_spaced (points s) -> well_spaced (points (fst (quick_add_point s))).
Proof.
  intros Hw. unfold quick_add_point.
  destruct (points s) as [|p rest] eqn:Ep.
  - match goal with
    | |- context [py_index ?e ?x ?l] =>
        replace (py_index e x l) with (Some 0%nat) by (vm_compute; reflexivity)
    end.
    simpl. split; repeat constructor. unfold nonneg. simpl. q_lits. lra.
  - set (new := (fadd (fst (last rest p)) (lit 1 (-3)), lit 0 0)).
    assert (Hs : well_spaced (py_sort tuple_lt ((p :: rest) ++ [new]))).
    { destruct Hw as [Hs Hn]. pose proof (sorted_le_last _ p Hs) as Hl.
      replace (last (p :: rest) p) with (last rest p) in Hl
        by (destruct rest; reflexivity).
      assert (H0 : 0 <= fst (last rest p)).
      { apply Forall_inv in Hn. apply Forall_inv in Hl. unfold nonneg in Hn. lra. }
      apply sort_well_spaced.
      - apply FOP_app_single; [now apply sorted_far|].
        eapply Forall_impl; [|exact Hl]. intros a Ha. left.
        unfold gap, eps, new. simpl in *. q_lits. lra.
      - apply Forall_app. split; [exact Hn|]. constructor; [|constructor].
        unfold nonneg, new. simpl. q_lits. lra. }
    destruct (py_index tuple_eq new (py_sort tuple_lt ((p :: rest) ++ [new])));
      exact Hs.
Qed.

Lemma spacing_loop_gaps (p : Q) (l : list (point Q)) :
  gaps_ok p (spacing_loop (Some p) l) = true.
Proof.
  revert p. induction l as [|[t v] l IH]; intros p; simpl; [reflexivity|].
  rewrite IH, andb_true_r. q_lits.
  destruct (Exact.ltb t (p + (1 # 1000000000000))) eqn:E; q_reflect;
    apply ExactFacts.leb_le; lra.
Qed.

(** Whatever [_ensure_min_spacing] returns satisfies the invariant. *)
Lemma ensure_min_spacing_ok (pts : list (point Q)) :
  spacing_ok (_ensure_min_spacing pts) = true.
Proof.
  unfold _ensure_min_spacing. destruct pts as [|p pts]; [reflexivity|].
  destruct (py_sort key_lt (p :: pts)) as [|[t v] l]; [reflexivity|].
  simpl. rewrite spacing_loop_gaps, andb_true_r. unfold py_max. simpl. q_lits.
  destruct (Exact.ltb 0 t) eqn:E; q_reflect; apply ExactFacts.leb_le; lra.
Qed.

End SpacingFacts.

(* ================================================================= *)
(** ** The spacing invariant: which operations keep it *)

(** A Store holding [(0.0, 0.0)] while the one point [(0.0, 1.0)] is being
    placed. *)
Definition placing_editor : editor float :=
  {| points := [(lit 0 0, lit 0 0)];
     selected_indices := []; primary_selected_index := None;
     dragging_indices := []; drag_start := None; drag_original_data := [];
     drag_precision := DEFAULT_DRAG_PRECISION;
     panning := false; placement_mode := true;
     placement_data := [(lit 0 0, lit 1 0)];
     the_canvas := init_canvas |}.

(** An empty Store while two points of equal time are being placed. *)
Definition placing_pair_editor : editor float :=
  {| points := [];
     selected_indices := []; primary_selected_index := None;
     dragging_indices := []; drag_start := None; drag_original_data := [];
     drag_precision := DEFAULT_DRAG_PRECISION;
     panning := false; placement_mode := true;
     placement_data := [(lit 0 0, lit 0 0); (lit 0 0, lit 1 0)];
     the_canvas := init_canvas |}.

(** The Store [(0,0),(1.5e-12,0),(5e-12,0)] right after a press on its
    last point. *)
Definition narrow_gap_editor : editor float :=
  {| points := [(lit 0 0, lit 0 0); (lit 15 (-13), lit 0 0); (lit 5 (-12), lit 0 0)];
     selected_indices := [2%nat]; primary_selected_index := Some 2%nat;
     dragging_indices := [2%nat];
     drag_start := Some (lit 5 (-12), lit 0 0);
     drag_original_data := [(2%nat, (lit 5 (-12), lit 0 0))];
     drag_precision := DEFAULT_DRAG_PRECISION;
     panning := false; placement_mode := false; placement_data := [];
     the_canvas := init_canvas |}.

(** The file [{"points": [[-1, 0]]}]. *)
Definition negative_time_file : file_read float :=
  Parsed (JObj [("points"%string, JArr [JArr [JNum (lit (-1) 0); JNum (lit 0 0)]])]).




(* ================================================================= *)
(** ** Loading a waveform file *)

Section LoadFacts.
Context {F : Type} `{PyFloat F}.

(** A point as the file holds it: [[time, value]]. *)
Definition pair_json (p : point F) : json F := JArr [JNum (fst p); JNum (snd p)].

Lemma tuples_of_pairs (pts : list (point F)) :
  tuples_of (map pair_json pts) = Some (map (fun p => [JNum (fst p); JNum (snd p)]) pts).
Proof.
  induction pts as [|p pts IH]; simpl; [reflexivity|]. now rewrite IH.
Qed.

Lemma all_points_pairs (pts : list (point F)) :
  all_points (map (fun p => [JNum (fst p); JNum (snd p)]) pts) = Some pts.
Proof.
  induction pts as [|[t v] pts IH]; simpl; [reflexivity|]. now rewrite IH.
Qed.

Lemma zoom_to_all_points_points (s : editor F) :
  points (zoom_to_all_points s) = points s.
Proof.
  unfold zoom_to_all_points. destruct (points s) eqn:E; [exact E|]. exact E.
Qed.

Lemma load_missing_field (s : editor F) (members : list (string * json F)) :
  lookup "points" members = None ->
  _load_waveform_from_file (Parsed (JObj members)) s = Kept (Failed MissingField).
Proof. intros Hl. simpl. now rewrite Hl. Qed.

Lemma load_pairs (s : editor F) (members : list (string * json F))
      (pts : list (point F)) :
  lookup "points" members = Some (JArr (map pair_json pts)) ->
  _load_waveform_from_file (Parsed (JObj members)) s
  = Replaced (zoom_to_all_points (with_points s pts)).
Proof.
  intros Hl. simpl. rewrite Hl. simpl.
  now rewrite tuples_of_pairs, all_points_pairs.
Qed.

(** Every way the handler can end, read back from its result. *)
Lemma load_inversion (f : file_read F) (s : editor F) :
  match _load_waveform_from_file f s with
  | Kept o =>
      f = Cancelled /\ o = Done
      \/ f = Unreadable /\ o = Failed IOFailure
      \/ f = Malformed /\ o = Failed BadData
      \/ exists data, f = Parsed data
           /\ ((exists e, points_field data = inl e /\ o = Failed e)
               \/ (exists v, points_field data = inr v /\ o = Failed BadData
                     /\ (py_iter v = None
                         \/ exists items, py_iter v = Some items
                                          /\ tuples_of items = None)))
  | Replaced_raw tuples =>
      exists data v items,
        f = Parsed data /\ points_field data = inr v /\ py_iter v = Some items
        /\ tuples_of items = Some tuples /\ all_points tuples = None
  | Replaced s' =>
      exists data v items tuples pts,
        f = Parsed data /\ points_field data = inr v /\ py_iter v = Some items
        /\ tuples_of items = Some tuples /\ all_points tuples = Some pts
        /\ s' = zoom_to_all_points (with_points s pts)
        /\ points s' = pts
  end.
Proof.
  destruct f as [| | |data]; simpl.
  - left. auto.
  - right. left. auto.
  - right. right. left. auto.
  - destruct (points_field data) as [e|v] eqn:Ef.
    + right. right. right. exists data. split; [reflexivity|]. left. now exists e.
    + destruct (py_iter v) as [items|] eqn:Ei.
      * destruct (tuples_of items) as [tuples|] eqn:Et.
        -- destruct (all_points tuples) as [pts|] eqn:Ea.
           ++ exists data, v, items, tuples, pts.
              repeat split; auto. now rewrite zoom_to_all_points_points.
           ++ now exists data, v, items.
        -- right. right. right. exists data. split; [reflexivity|]. right.
           exists v. repeat split; auto. right. now exists items.
      * right. right. right. exists data. split; [reflexivity|]. right.
        exists v. repeat split; auto.
Qed.

End LoadFacts.

(** The file [{"points": [[1, 2, 3]]}]. *)
Definition triple_file : file_read float :=
  Parsed (JObj [("points"%string,
                 JArr [JArr [JNum (lit 1 0); JNum (lit 2 0); JNum (lit 3 0)]])]).

(** C6 as stated fails: a load can end in the error box with the Waveform
    already replaced.  The handler assigns [self.points] and only then
    refreshes the table; on a file whose one point has three components the
    refresh raises (the table loop unpacks [time, value]), the error is
    shown, and [self.points] holds the three-component tuple instead of the
    old points. *)
Lemma load_failure_after_replacement :
  let s := init_editor (F := float) [(lit 0 0, lit 0 0); (lit 1 0, lit 1 0)] in
  message_of (_load_waveform_from_file triple_file s) = Failed BadData
  /\ points_after (_load_waveform_from_file triple_file s) s
     = Raw [[JNum (lit 1 0); JNum (lit 2 0); JNum (lit 3 0)]]
  /\ points_after (_load_waveform_from_file triple_file s) s <> Typed (points s).
Proof.
  split; [reflexivity|]. split; [reflexivity|]. discriminate.
Qed.

(** C6 (amended).  A load of an object with no ["points"] key fails with
    [MissingField] and leaves the Waveform as it was, as does every failure
    that ends the handler before it assigns [self.points] (no file read, no
    JSON, a ["points"] value or an entry of it that cannot be iterated).
    A file whose ["points"] is a list of [[time, value]] pairs succeeds:
    the Waveform becomes exactly that list, whatever it held before, and
    the viewport is the one [zoom_to_all_points] fits to it.  Success always
    comes this way; the one failure that does not leave the Waveform as it
    was is the refresh raising after the assignment, on tuples that are not
    all pairs of numbers. *)
Theorem load_waveform_spec :
  forall (F : Type) (HF : PyFloat F) (s : editor F),
    (forall members,
        lookup "points" members = None ->
        _load_waveform_from_file (Parsed (JObj members)) s = Kept (Failed MissingField)
        /\ points_after (_load_waveform_from_file (Parsed (JObj members)) s) s
           = Typed (points s))
    /\ (forall members pts,
          lookup "points" members = Some (JArr (map pair_json pts)) ->
          let r := _load_waveform_from_file (Parsed (JObj members)) s in
          message_of r = Done
          /\ points_after r s = Typed pts
          /\ r = Replaced (zoom_to_all_points (with_points s pts)))
    /\ (forall f s',
          _load_waveform_from_file f s = Replaced s' ->
          exists data v items tuples pts,
            f = Parsed data /\ points_field data = inr v /\ py_iter v = Some items
            /\ tuples_of items = Some tuples /\ all_points tuples = Some pts
            /\ s' = zoom_to_all_points (with_points s pts)
            /\ points s' = pts)
    /\ (forall f,
          message_of (_load_waveform_from_file f s) <> Done ->
          points_after (_load_waveform_from_file f s) s = Typed (points s)
          \/ exists tuples,
               _load_waveform_from_file f s = Replaced_raw tuples
               /\ all_points tuples = None).
Proof.
  intros F HF s. split; [|split; [|split]].
  - intros members Hl. rewrite (load_missing_field s members Hl). now split.
  - intros members pts Hl r. unfold r. rewrite (load_pairs s members pts Hl).
    simpl. rewrite zoom_to_all_points_points. now repeat split.
  - intros f s' Hr. pose proof (load_inversion f s) as Hi. now rewrite Hr in Hi.
  - intros f Hm. pose proof (load_inversion f s) as Hi.
    destruct (_load_waveform_from_file f s) as [o|tuples|s'].
    + now left.
    + right. exists tuples. split; [reflexivity|].
      destruct Hi as (data & v & items & _ & _ & _ & _ & Ha). exact Ha.
    + exfalso. now apply Hm.
Qed.

Lemma load_waveform_spec_witness :
  _load_waveform_from_file
    (Parsed (JObj [("version"%string, JStr "1.0"); ("type"%string, JStr "pwl_waveform")]))
    (init_editor (F := float) [(lit 0 0, lit 0 0)])
  = Kept (Failed MissingField)
  /\ points_after
       (_load_waveform_from_file
          (Parsed (JObj [("version"%string, JStr "1.0");
                         ("type"%string, JStr "pwl_waveform")]))
          (init_editor (F := float) [(lit 0 0, lit 0 0)]))
       (init_editor (F := float) [(lit 0 0, lit 0 0)])
     = Typed [(lit 0 0, lit 0 0)].
Proof.
  exact (proj1 (load_waveform_spec float _ (init_editor [(lit 0 0, lit 0 0)]))
               [("version"%string, JStr "1.0"); ("type"%string, JStr "pwl_waveform")]
               eq_refl).
Defined.

(* ================================================================= *)
(** ** The engineering notation: digits, numerals and suffixes *)

Module CodecFacts.

Local Open Scope Z_scope.

Definition is_digit (d : Z) : Prop := 0 <= d <= 9.

Lemma is_digit_cases (d : Z) :
  is_digit d ->
  d = 0 \/ d = 1 \/ d = 2 \/ d = 3 \/ d = 4 \/ d = 5 \/ d = 6 \/ d = 7 \/ d = 8 \/ d = 9.
Proof. unfold is_digit. lia. Qed.

Ltac digit_cases d H :=
  let H' := fresh in
  pose proof (is_digit_cases d H) as H';
  repeat (destruct H' as [H'|H']; [subst d|]); [..|subst d].

Lemma digit_of_ascii_of_digit (d : Z) :
  is_digit d -> digit_of_ascii (ascii_of_digit d) = Some d.
Proof. intros H. digit_cases d H; reflexivity. Qed.

(** *** Values of digit lists *)

Lemma fold_value (ds : list Z) (a : Z) :
  fold_left (fun a d => 10 * a + d) ds a
  = a * 10 ^ Z.of_nat (List.length ds) + digits_value ds.
Proof.
  unfold digits_value. revert a. induction ds as [|d ds IH]; intros a.
  - simpl. lia.
  - cbn [fold_left List.length]. rewrite IH, (IH (10 * 0 + d)).
    rewrite Nat2Z.inj_succ, Z.pow_succ_r by lia. ring.
Qed.

Lemma digits_value_app (a b : list Z) :
  digits_value (a ++ b)
  = digits_value a * 10 ^ Z.of_nat (List.length b) + digits_value b.
Proof.
  unfold digits_value at 1. rewrite fold_left_app. fold (digits_value a).
  apply fold_value.
Qed.

Lemma digits_value_single (d : Z) : digits_value [d] = d.
Proof. unfold digits_value. simpl. lia. Qed.

Lemma digits_value_zeros (k : nat) : digits_value (repeat 0 k) = 0.
Proof.
  induction k as [|k IH]; [reflexivity|].
  change (repeat 0 (S k)) with ([0] ++ repeat 0 k).
  rewrite digits_value_app, IH. unfold digits_value. simpl. lia.
Qed.

(** *** [to_digits], [decimal_digits], [fixed_digits] *)

Lemma to_digits_spec (fuel : nat) (n : Z) :
  0 <= n < 10 ^ Z.of_nat fuel -> fuel <> 0%nat ->
  Forall is_digit (to_digits fuel n)
  /\ digits_value (to_digits fuel n) = n
  /\ to_digits fuel n <> []
  /\ (0 < n -> 10 ^ (Z.of_nat (List.length (to_digits fuel n)) - 1) <= n
               < 10 ^ Z.of_nat (List.length (to_digits fuel n)))
  /\ (n = 0 -> to_digits fuel n = [0]).
Proof.
  revert n. induction fuel as [|fuel IH]; intros n Hn Hf.
  - congruence.
  - clear Hf. cbn [to_digits]. destruct (n <? 10) eqn:E.
    + apply Z.ltb_lt in E. split; [|split; [|split; [|split]]].
      * constructor; [unfold is_digit; lia|constructor].
      * apply digits_value_single.
      * discriminate.
      * intros Hp. simpl. lia.
      * intros ->. reflexivity.
    + apply Z.ltb_ge in E.
      assert (Hq : 0 <= n / 10 < 10 ^ Z.of_nat fuel).
      { rewrite Nat2Z.inj_succ, Z.pow_succ_r in Hn by lia.
        split; [apply Z.div_pos; lia|]. apply Z.div_lt_upper_bound; lia. }
      assert (Hf : fuel <> 0%nat).
      { intros ->. simpl in Hq. pose proof (Z.div_str_pos n 10). lia. }
      destruct (IH _ Hq Hf) as (Hd & Hv & Hne & Hlen & _).
      assert (Hm : 0 <= n mod 10 < 10) by (apply Z.mod_pos_bound; lia).
      assert (Hpos : 0 < n / 10) by (apply Z.div_str_pos; lia).
      destruct (Hlen Hpos) as [Hlo Hhi].
      set (len := Z.of_nat (List.length (to_digits fuel (n / 10)))) in *.
      assert (Hl1 : 1 <= len).
      { unfold len. destruct (to_digits fuel (n / 10)); [congruence|].
        simpl List.length. lia. }
      pose proof (Z.div_mod n 10 ltac:(lia)) as Hdm.
      split; [|split; [|split; [|split]]].
      * apply Forall_app. split; [exact Hd|]. constructor; [unfold is_digit; lia|constructor].
      * rewrite digits_value_app, Hv, digits_value_single. simpl. lia.
      * intros Hx. apply app_eq_nil in Hx. destruct Hx as [_ Hx]. discriminate.
      * intros _. rewrite length_app. simpl List.length. rewrite Nat2Z.inj_add.
        fold len. change (Z.of_nat 1) with 1.
        replace (len + 1 - 1) with (Z.succ (len - 1)) by lia.
        replace (len + 1) with (Z.succ len) by lia.
        rewrite !Z.pow_succ_r by lia. lia.
      * intros ->. simpl in E. lia.
Qed.

Lemma decimal_fuel (n : Z) : 0 <= n -> 0 <= n < 10 ^ Z.of_nat (S (Z.to_nat (Z.log2 n))).
Proof.
  intros Hn. split; [exact Hn|].
  destruct (Z.eq_dec n 0) as [->|Hz]; [simpl; lia|].
  assert (Hp : 0 < n) by lia.
  pose proof (Z.log2_spec n Hp) as [_ Hhi].
  pose proof (Z.log2_nonneg n) as Hl.
  rewrite Nat2Z.inj_succ, Z2Nat.id by exact Hl.
  eapply Z.lt_le_trans; [exact Hhi|].
  apply Z.pow_le_mono_l. lia.
Qed.

Lemma decimal_digits_spec (n : Z) :
  0 <= n ->
  Forall is_digit (decimal_digits n)
  /\ digits_value (decimal_digits n) = n
  /\ decimal_digits n <> []
  /\ (0 < n -> 10 ^ (Z.of_nat (List.length (decimal_digits n)) - 1) <= n
               < 10 ^ Z.of_nat (List.length (decimal_digits n))).
Proof.
  intros Hn. unfold decimal_digits.
  destruct (to_digits_spec _ n (decimal_fuel n Hn) (Nat.neq_succ_0 _))
    as (H1 & H2 & H3 & H4 & _).
  auto.
Qed.

Lemma fixed_digits_spec (w : nat) (n : Z) :
  0 <= n ->
  Forall is_digit (fixed_digits w n)
  /\ digits_value (fixed_digits w n) = n mod 10 ^ Z.of_nat w
  /\ List.length (fixed_digits w n) = w.
Proof.
  revert n. induction w as [|w IH]; intros n Hn.
  - simpl. split; [constructor|]. split; [|reflexivity]. now rewrite Z.mod_1_r.
  - cbn [fixed_digits].
    assert (Hq : 0 <= n / 10) by (apply Z.div_pos; lia).
    destruct (IH _ Hq) as (Hd & Hv & Hl).
    assert (Hm : 0 <= n mod 10 < 10) by (apply Z.mod_pos_bound; lia).
    split; [|split].
    + apply Forall_app. split; [exact Hd|]. constructor; [unfold is_digit; lia|constructor].
    + rewrite digits_value_app, Hv, digits_value_single.
      change (10 ^ Z.of_nat (List.length [n mod 10])) with 10.
      rewrite Nat2Z.inj_succ, Z.pow_succ_r by lia.
      assert (Hp : 0 < 10 ^ Z.of_nat w) by (apply Z.pow_pos_nonneg; lia).
      rewrite Z.rem_mul_r by lia. lia.
    + rewrite length_app, Hl. simpl. lia.
Qed.


(** *** Characters *)

Local Open Scope char_scope.

(** What a digit character is not. *)
Lemma digit_char_facts (d : Z) :
  is_digit d ->
  let c := ascii_of_digit d in
  is_space c = false
  /\ lower c = c
  /\ Ascii.eqb c "-" = false /\ Ascii.eqb c "+" = false
  /\ Ascii.eqb c "_" = false /\ Ascii.eqb c "." = false
  /\ Ascii.eqb "." c = false
  /\ Ascii.eqb c "i" = false /\ Ascii.eqb c "n" = false
  /\ Ascii.eqb "0" c = Z.eqb d 0
  /\ forallb (fun x => negb (Ascii.eqb x c)) ["p"; "n"; "u"; "m"; "k"; "M"; "G"] = true.
Proof. intros H. digit_cases d H; vm_compute; repeat split. Qed.

(** A rest at which a run of digits ends. *)
Definition stops (rest : list ascii) : Prop :=
  match rest with
  | [] => True
  | c :: _ => digit_of_ascii c = None /\ Ascii.eqb c "_" = false
  end.

Lemma take_digits_stop (rest : list ascii) : stops rest -> take_digits rest = ([], rest).
Proof.
  destruct rest as [|c rest]; simpl; [reflexivity|]. intros [Hc _]. now rewrite Hc.
Qed.

Lemma take_digits_cons (c : ascii) (d : Z) (rest : list ascii) :
  digit_of_ascii c = Some d ->
  match rest with
  | u :: _ => Ascii.eqb u "_" = false
  | [] => True
  end ->
  take_digits (c :: rest) = (d :: fst (take_digits rest), snd (take_digits rest)).
Proof.
  intros Hc Hu. cbn [take_digits]. rewrite Hc.
  destruct rest as [|u [|c' rest']].
  - reflexivity.
  - now destruct (take_digits [u]).
  - rewrite Hu. now destruct (take_digits (u :: c' :: rest')).
Qed.

Lemma take_digits_run (ds : list Z) (rest : list ascii) :
  Forall is_digit ds -> stops rest ->
  take_digits (digit_chars ds ++ rest) = (ds, rest).
Proof.
  intros Hd Hs. induction Hd as [|d ds Hdig Hd IH].
  - now apply take_digits_stop.
  - change (digit_chars (d :: ds) ++ rest)
      with (ascii_of_digit d :: (digit_chars ds ++ rest)).
    rewrite (take_digits_cons _ d).
    + now rewrite IH.
    + now apply digit_of_ascii_of_digit.
    + destruct Hd as [|d' ds' Hd' _].
      * destruct rest as [|c r]; [exact I|]. apply Hs.
      * apply (digit_char_facts d' Hd').
Qed.

(** *** [rstrip] *)

Fixpoint drop_zeros (ds : list Z) : list Z :=
  match ds with
  | [] => []
  | d :: ds' => if Z.eqb d 0 then drop_zeros ds' else ds
  end.

(** The digits without their trailing zeros. *)
Definition trim_zeros (ds : list Z) : list Z := rev (drop_zeros (rev ds)).

Lemma drop_zeros_split (ds : list Z) :
  exists k, ds = repeat 0 k ++ drop_zeros ds.
Proof.
  induction ds as [|d ds [k IH]]; [now exists 0%nat|]. simpl.
  destruct (Z.eqb d 0) eqn:E.
  - apply Z.eqb_eq in E. subst d. exists (S k). simpl. now rewrite <- IH.
  - now exists 0%nat.
Qed.

Lemma rev_repeat {A : Type} (x : A) (k : nat) : rev (repeat x k) = repeat x k.
Proof.
  induction k as [|k IH]; [reflexivity|]. simpl. rewrite IH.
  clear IH. induction k as [|k IH]; [reflexivity|]. simpl. now rewrite IH.
Qed.

Lemma trim_zeros_split (ds : list Z) :
  exists k, ds = trim_zeros ds ++ repeat 0 k.
Proof.
  unfold trim_zeros. destruct (drop_zeros_split (rev ds)) as [k Hk].
  exists k. rewrite <- (rev_involutive ds) at 1. rewrite Hk at 1.
  now rewrite rev_app_distr, rev_repeat.
Qed.

Lemma drop_zeros_digits (ds : list Z) : Forall is_digit ds -> Forall is_digit (drop_zeros ds).
Proof.
  induction 1 as [|d ds Hd Hds IH]; simpl; [constructor|].
  destruct (Z.eqb d 0); [exact IH|]. now constructor.
Qed.

Lemma trim_zeros_digits (ds : list Z) : Forall is_digit ds -> Forall is_digit (trim_zeros ds).
Proof.
  intros Hd. unfold trim_zeros. apply Forall_rev, drop_zeros_digits, Forall_rev, Hd.
Qed.

Lemma drop_while_zero_chars (ds : list Z) (tail : list ascii) :
  Forall is_digit ds ->
  match tail with
  | c :: _ => Ascii.eqb "0" c = false
  | [] => True
  end ->
  drop_while (Ascii.eqb "0") (digit_chars ds ++ tail) = digit_chars (drop_zeros ds) ++ tail.
Proof.
  intros Hd Ht. induction Hd as [|d ds Hdig Hd IH].
  - destruct tail as [|c tail]; [reflexivity|].
    cbn [digit_chars map app drop_zeros drop_while]. now rewrite Ht.
  - destruct (digit_char_facts d Hdig) as (_ & _ & _ & _ & _ & _ & _ & _ & _ & Hz & _).
    change (digit_chars (d :: ds) ++ tail)
      with (ascii_of_digit d :: (digit_chars ds ++ tail)).
    cbn [drop_while drop_zeros]. rewrite Hz.
    destruct (Z.eqb d 0); [exact IH|reflexivity].
Qed.

Lemma digit_chars_rev (ds : list Z) : rev (digit_chars ds) = digit_chars (rev ds).
Proof. unfold digit_chars. now rewrite map_rev. Qed.

(** [rstrip('0')] on text ending in digits after a point. *)
Lemma rstrip_zeros (pre : list ascii) (ds : list Z) :
  Forall is_digit ds ->
  rstrip_char "0" (pre ++ ["."] ++ digit_chars ds)
  = pre ++ ["."] ++ digit_chars (trim_zeros ds).
Proof.
  intros Hd. unfold rstrip_char, trim_zeros.
  rewrite !rev_app_distr, digit_chars_rev, <- app_assoc.
  rewrite drop_while_zero_chars; [|now apply Forall_rev|reflexivity].
  rewrite rev_app_distr, digit_chars_rev, rev_app_distr, rev_involutive.
  simpl. now rewrite <- app_assoc.
Qed.

Lemma rstrip_keep (c : ascii) (l : list ascii) (x : ascii) :
  Ascii.eqb c x = false -> rstrip_char c (l ++ [x]) = l ++ [x].
Proof.
  intros Hx. unfold rstrip_char. rewrite rev_app_distr. simpl. rewrite Hx.
  simpl. now rewrite rev_involutive.
Qed.

Lemma rstrip_drop (c : ascii) (l : list ascii) :
  rstrip_char c (l ++ [c]) = rstrip_char c l.
Proof.
  unfold rstrip_char. rewrite rev_app_distr. simpl. now rewrite Ascii.eqb_refl.
Qed.

(** The fractional part as written: nothing, or a point and digits. *)
Definition frac_chars (ds : list Z) : list ascii :=
  match ds with
  | [] => []
  | _ => "." :: digit_chars ds
  end.

Lemma digit_chars_last (ds : list Z) :
  ds <> [] -> exists ds' d, ds = ds' ++ [d] /\ digit_chars ds = digit_chars ds' ++ [ascii_of_digit d].
Proof.
  intros Hne. destruct (exists_last Hne) as (ds' & d & ->).
  exists ds', d. split; [reflexivity|]. unfold digit_chars. now rewrite map_app.
Qed.

(** [.rstrip('0').rstrip('.')] on a [.6f] text. *)
Lemma rstrip_fixed (sign : list ascii) (ip fp : list Z) :
  Forall is_digit ip -> Forall is_digit fp -> ip <> [] ->
  rstrip_char "." (rstrip_char "0" (sign ++ digit_chars ip ++ ["."] ++ digit_chars fp))
  = sign ++ digit_chars ip ++ frac_chars (trim_zeros fp).
Proof.
  intros Hi Hf Hne.
  rewrite (app_assoc sign), rstrip_zeros by exact Hf.
  pose proof (trim_zeros_digits fp Hf) as Ht.
  destruct (trim_zeros fp) as [|t ts] eqn:Et.
  - cbn [digit_chars map frac_chars].
    change (["."] ++ []) with ["."].
    rewrite rstrip_drop, !app_nil_r.
    destruct (digit_chars_last ip Hne) as (ip' & d & -> & ->).
    rewrite app_assoc. rewrite rstrip_keep.
    + now rewrite <- app_assoc.
    + apply Forall_app in Hi. destruct Hi as [_ Hi]. apply Forall_inv in Hi.
      apply (digit_char_facts d Hi).
  - assert (Hne' : t :: ts <> []) by discriminate.
    destruct (digit_chars_last (t :: ts) Hne') as (ds' & d & Hsplit & Hchars).
    unfold frac_chars. rewrite Hchars.
    replace ((sign ++ digit_chars ip) ++ ["."] ++ digit_chars ds' ++ [ascii_of_digit d])
      with (((sign ++ digit_chars ip) ++ ["."] ++ digit_chars ds') ++ [ascii_of_digit d])
      by (rewrite <- !app_assoc; reflexivity).
    rewrite rstrip_keep.
    + rewrite <- !app_assoc. reflexivity.
    + rewrite Hsplit in Ht. apply Forall_app in Ht. destruct Ht as [_ Ht].
      apply Forall_inv in Ht. apply (digit_char_facts d Ht).
Qed.


(** *** [strip] *)

Lemma strip_id (c x : ascii) (m : list ascii) :
  is_space c = false -> is_space x = false ->
  forall l, l = c :: m -> (exists m', l = m' ++ [x]) -> strip l = l.
Proof.
  intros Hc Hx l Hl [m' Hm']. unfold strip.
  assert (E1 : drop_while is_space l = l).
  { rewrite Hl. cbn [drop_while]. now rewrite Hc. }
  rewrite E1. rewrite Hm' at 1. rewrite rev_app_distr.
  cbn [rev app drop_while]. rewrite Hx.
  change (x :: rev m') with (rev [x] ++ rev m').
  rewrite <- rev_app_distr, rev_involutive. now symmetry.
Qed.

(** *** [float()] on the numerals the formats write *)

(** The exponent part as written: nothing, or [e], a sign and digits. *)
Definition exp_chars (ex : option (bool * list Z)) : list ascii :=
  match ex with
  | None => []
  | Some (eneg, ds) => "e" :: (if eneg then "-" else "+") :: digit_chars ds
  end.

Definition exp_value (ex : option (bool * list Z)) : Z :=
  match ex with
  | None => 0
  | Some (eneg, ds) => if eneg then - digits_value ds else digits_value ds
  end.

Definition exp_ok (ex : option (bool * list Z)) : Prop :=
  match ex with
  | None => True
  | Some (_, ds) => Forall is_digit ds /\ ds <> []
  end.

Lemma stops_exp (ex : option (bool * list Z)) : stops (exp_chars ex).
Proof. destruct ex as [[eneg ds]|]; simpl; auto. Qed.

Lemma stops_frac (fp : list Z) (rest : list ascii) : fp <> [] -> stops (frac_chars fp ++ rest).
Proof. destruct fp; [congruence|]. intros _. cbn. auto. Qed.

(** The numerals end in a digit. *)
Lemma numeral_last (ip fp : list Z) (ex : option (bool * list Z)) :
  Forall is_digit ip -> Forall is_digit fp -> ip <> [] -> exp_ok ex ->
  exists m d, is_digit d
              /\ digit_chars ip ++ frac_chars fp ++ exp_chars ex = m ++ [ascii_of_digit d].
Proof.
  intros Hi Hf Hne He.
  destruct ex as [[eneg ds]|].
  - destruct He as [Hd Hdn].
    destruct (digit_chars_last ds Hdn) as (ds' & d & Hs & Hc).
    exists (digit_chars ip ++ frac_chars fp ++ "e" :: (if eneg then "-" else "+") :: digit_chars ds'), d.
    split.
    + rewrite Hs in Hd. apply Forall_app in Hd. destruct Hd as [_ Hd]. now apply Forall_inv in Hd.
    + cbn [exp_chars]. rewrite Hc. rewrite <- !app_assoc. reflexivity.
  - cbn [exp_chars]. rewrite app_nil_r.
    destruct fp as [|f fp'].
    + cbn [frac_chars]. rewrite app_nil_r.
      destruct (digit_chars_last ip Hne) as (ds' & d & Hs & Hc).
      exists (digit_chars ds'), d. split; [|exact Hc].
      rewrite Hs in Hi. apply Forall_app in Hi. destruct Hi as [_ Hi]. now apply Forall_inv in Hi.
    + assert (Hfn : f :: fp' <> []) by discriminate.
      destruct (digit_chars_last (f :: fp') Hfn) as (ds' & d & Hs & Hc).
      exists (digit_chars ip ++ "." :: digit_chars ds'), d. split.
      * rewrite Hs in Hf. apply Forall_app in Hf. destruct Hf as [_ Hf]. now apply Forall_inv in Hf.
      * cbn [frac_chars]. rewrite Hc. rewrite <- app_assoc. reflexivity.
Qed.

Section Numerals.
Context {F : Type} `{PyFloat F}.

Lemma take_exponent_exp (ex : option (bool * list Z)) :
  exp_ok ex -> take_exponent (exp_chars ex) = Some (exp_value ex, []).
Proof.
  destruct ex as [[eneg ds]|]; [|reflexivity].
  intros [Hd Hne]. cbn [exp_chars take_exponent].
  change (Ascii.eqb (lower "e") "e") with true. cbv iota.
  assert (Hs : take_sign ((if eneg then "-" else "+") :: digit_chars ds)
               = (eneg, digit_chars ds)) by (destruct eneg; reflexivity).
  rewrite Hs.
  pose proof (take_digits_run ds [] Hd I) as Ht. rewrite app_nil_r in Ht. rewrite Ht.
  destruct ds; [congruence|]. reflexivity.
Qed.

Lemma py_float_numeral (neg : bool) (ip fp : list Z) (ex : option (bool * list Z)) :
  Forall is_digit ip -> Forall is_digit fp -> ip <> [] -> exp_ok ex ->
  py_float (sign_chars neg ++ digit_chars ip ++ frac_chars fp ++ exp_chars ex)
  = Some (signed neg (lit (digits_value (ip ++ fp))
                          (exp_value ex - Z.of_nat (List.length fp)))).
Proof.
  intros Hi Hf Hne He.
  set (body := digit_chars ip ++ frac_chars fp ++ exp_chars ex).
  destruct ip as [|i0 ip']; [congruence|].
  assert (Hi0 : is_digit i0) by now apply Forall_inv in Hi.
  destruct (digit_char_facts i0 Hi0)
    as (Hsp & Hlow & Hminus & Hplus & _ & _ & _ & Hnoti & Hnotn & _).
  destruct (numeral_last (i0 :: ip') fp ex Hi Hf Hne He) as (m & d & Hd & Hlast).
  fold body in Hlast.
  assert (Hbody : body = ascii_of_digit i0 :: (digit_chars ip' ++ frac_chars fp ++ exp_chars ex))
    by reflexivity.
  unfold py_float.
  (* strip *)
  assert (Hstrip : strip (sign_chars neg ++ body) = sign_chars neg ++ body).
  { destruct (digit_char_facts d Hd) as (Hdsp & _).
    destruct neg.
    - apply (strip_id "-" (ascii_of_digit d) body); auto.
      exists ("-" :: m). cbn [sign_chars app]. now rewrite Hlast.
    - cbn [sign_chars app].
      apply (strip_id (ascii_of_digit i0) (ascii_of_digit d)
                      (digit_chars ip' ++ frac_chars fp ++ exp_chars ex)); auto.
      now exists m. }
  rewrite Hstrip.
  (* sign *)
  assert (Hsign : take_sign (sign_chars neg ++ body) = (neg, body)).
  { destruct neg; [reflexivity|]. cbn [sign_chars app]. rewrite Hbody.
    cbn [take_sign]. now rewrite Hminus, Hplus. }
  rewrite Hsign.
  (* not a word *)
  assert (Hword : forall w, (String.eqb (text (map lower body)) (String "i" w) = false)
                            /\ (String.eqb (text (map lower body)) (String "n" w) = false)).
  { intros w. rewrite Hbody. cbn [map text string_of_list_ascii String.eqb].
    rewrite Hlow, Hnoti, Hnotn. now split. }
  rewrite (proj1 (Hword "nf"%string)), (proj1 (Hword "nfinity"%string)),
    (proj2 (Hword "an"%string)).
  cbn [orb].
  (* integer digits *)
  assert (Hip : take_digits body = (i0 :: ip', frac_chars fp ++ exp_chars ex)).
  { assert (Hst : stops (frac_chars fp ++ exp_chars ex)).
    { destruct fp as [|f0 fp'].
      - change (frac_chars [] ++ exp_chars ex) with (exp_chars ex). exact (stops_exp ex).
      - exact (stops_frac (f0 :: fp') (exp_chars ex) ltac:(discriminate)). }
    exact (take_digits_run (i0 :: ip') (frac_chars fp ++ exp_chars ex) Hi Hst). }
  rewrite Hip.
  (* fraction digits *)
  assert (Hfp : match frac_chars fp ++ exp_chars ex with
                | c :: r => if Ascii.eqb c "." then take_digits r
                            else ([], frac_chars fp ++ exp_chars ex)
                | [] => ([], [])
                end = (fp, exp_chars ex)).
  { destruct fp as [|f0 fp'].
    - cbn [frac_chars app]. destruct ex as [[eneg ds]|]; reflexivity.
    - cbn [frac_chars app]. change (Ascii.eqb "." ".") with true. cbv iota.
      apply take_digits_run; [exact Hf|apply stops_exp]. }
  rewrite Hfp.
  rewrite (take_exponent_exp ex He). reflexivity.
Qed.

End Numerals.


(** *** Suffix matching *)

Lemma chars_text (l : list ascii) : chars (text l) = l.
Proof. apply list_ascii_of_string_of_list_ascii. Qed.

Lemma chars_append (s1 s2 : string) : chars (s1 ++ s2) = chars s1 ++ chars s2.
Proof.
  unfold chars. induction s1 as [|c s1 IH]; [reflexivity|].
  cbn [String.append list_ascii_of_string app]. now rewrite IH.
Qed.

Lemma endswith_single (x c : ascii) (l : list ascii) :
  endswith [x] (l ++ [c]) = Ascii.eqb x c.
Proof.
  unfold endswith. rewrite rev_app_distr. cbn [rev app starts_with].
  now rewrite andb_true_r.
Qed.

Lemma drop_last_single (c : ascii) (l : list ascii) : drop_last 1 (l ++ [c]) = l.
Proof.
  unfold drop_last. rewrite length_app. cbn [List.length].
  replace (List.length l + 1 - 1)%nat with (List.length l + 0)%nat by lia.
  rewrite firstn_app_2. cbn [firstn]. apply app_nil_r.
Qed.

Section Suffixes.
Context {F : Type} `{PyFloat F}.

(** The factor of the first one-letter prefix of [table] equal to [c]. *)
Fixpoint letter_factor (table : list (string * F)) (c : ascii) : option F :=
  match table with
  | [] => None
  | (String x EmptyString, factor) :: rest =>
      if Ascii.eqb x c then Some factor else letter_factor rest c
  | _ :: rest => letter_factor rest c
  end.

(** Every prefix of the table is empty or one letter. *)
Fixpoint short_prefixes (table : list (string * F)) : Prop :=
  match table with
  | [] => True
  | (p, _) :: rest => (String.length p <= 1)%nat /\ short_prefixes rest
  end.

Lemma parse_loop_last (table : list (string * F)) (body : list ascii) (c : ascii) :
  short_prefixes table ->
  parse_loop table (body ++ [c])
  = option_map (fun factor => option_map (fun x => fmul x factor) (py_float body))
               (letter_factor table c).
Proof.
  induction table as [|[p f] rest IH]; intros Hs; [reflexivity|].
  destruct Hs as [Hp Hs]. specialize (IH Hs).
  destruct p as [|x [|y p']].
  - cbn [parse_loop letter_factor String.eqb negb andb]. exact IH.
  - cbn [parse_loop letter_factor String.eqb negb andb String.length].
    change (chars (String x EmptyString)) with [x].
    rewrite endswith_single, drop_last_single.
    destruct (Ascii.eqb x c); [reflexivity|exact IH].
  - cbn [String.length] in Hp. lia.
Qed.

Lemma short_PREFIX_TO_VALUE : short_prefixes (PREFIX_TO_VALUE (F := F)).
Proof. cbn. repeat split; lia. Qed.

(** [parse_engineering_format] on a text whose stripped form ends in [c]:
    a table letter scales what stands before it, anything else leaves the
    whole text to [float]. *)
Lemma parse_by_last_char (s : string) (body : list ascii) (c : ascii) :
  strip (chars s) = body ++ [c] ->
  parse_engineering_format s
  = match letter_factor PREFIX_TO_VALUE c with
    | Some factor => option_map (fun x => fmul x factor) (py_float body)
    | None => py_float (body ++ [c])
    end.
Proof.
  intros Hs. unfold parse_engineering_format. rewrite Hs.
  rewrite (parse_loop_last _ body c short_PREFIX_TO_VALUE).
  destruct (letter_factor PREFIX_TO_VALUE c); cbn [option_map];
    destruct body; reflexivity.
Qed.

Lemma letter_factor_digit (d : Z) :
  is_digit d -> letter_factor (PREFIX_TO_VALUE (F := F)) (ascii_of_digit d) = None.
Proof. intros Hd. digit_cases d Hd; reflexivity. Qed.

End Suffixes.

End CodecFacts.

(** ** Rounding and decimal literals in exact arithmetic *)

Module RoundFacts.

Import CodecFacts.

Lemma round_half_even_error (q : Q) :
  Qabs (inject_Z (round_half_even q) - q) <= 1 # 2.
Proof.
  apply Qabs_Qle_condition.
  destruct q as [n d]. unfold round_half_even. cbn [Qnum Qden].
  pose proof (Z.div_mod n (Zpos d) ltac:(lia)) as Hdm.
  pose proof (Z.mod_pos_bound n (Zpos d) ltac:(lia)) as Hm.
  set (f := (n / Zpos d)%Z) in *. set (r := (n mod Zpos d)%Z) in *.
  destruct (2 * r ?= Zpos d)%Z eqn:E;
    [apply Z.compare_eq in E | rewrite Z.compare_lt_iff in E | rewrite Z.compare_gt_iff in E];
    try destruct (Z.even f);
    unfold Qle, Qminus, Qplus, Qopp, inject_Z; cbn [Qnum Qden];
    rewrite ?Pos2Z.inj_mul; split; nia.
Qed.

Lemma round_half_even_nonneg (q : Q) : 0 <= q -> (0 <= round_half_even q)%Z.
Proof.
  destruct q as [n d]. unfold Qle, round_half_even. cbn [Qnum Qden]. intros Hn.
  assert (Hn' : (0 <= n)%Z) by lia.
  pose proof (Z.div_pos n (Zpos d) Hn' ltac:(lia)) as Hf.
  destruct (2 * (n mod Zpos d) ?= Zpos d)%Z; try destruct (Z.even (n / Zpos d)); lia.
Qed.

(** The exact carrier's literals. *)
Lemma lit_nonneg_exp (m k : Z) : (0 <= k)%Z -> Exact.lit m k == inject_Z (m * 10 ^ k).
Proof. intros Hk. unfold Exact.lit. apply Z.leb_le in Hk. now rewrite Hk. Qed.

Lemma lit_neg_exp (m : Z) (j : Z) :
  (0 < j)%Z -> Exact.lit m (- j) * inject_Z (10 ^ j) == inject_Z m.
Proof.
  intros Hj. unfold Exact.lit.
  assert (E : (0 <=? - j)%Z = false) by (apply Z.leb_gt; lia). rewrite E.
  rewrite Z.opp_involutive.
  assert (Hp : (0 < 10 ^ j)%Z) by (apply Z.pow_pos_nonneg; lia).
  unfold Qeq, Qmult, inject_Z. cbn [Qnum Qden].
  rewrite Pos2Z.inj_mul, Z2Pos.id by exact Hp. cbn. ring.
Qed.

Lemma lit_scaled (m j : Z) :
  (0 <= j)%Z -> Exact.lit m (- j) * inject_Z (10 ^ j) == inject_Z m.
Proof.
  intros Hj. destruct (Z.eq_dec j 0) as [->|Hz].
  - cbn. unfold Qeq. cbn. lia.
  - apply lit_neg_exp. lia.
Qed.

End RoundFacts.

(** ** The [.6f] mantissa *)

Module FixedFacts.

Import CodecFacts RoundFacts.

(** The text [engineering_format] writes in front of the prefix. *)
Definition mantissa_text (x : Q) : list ascii :=
  rstrip_char "." (rstrip_char "0" (format_6f x)).

Lemma inject_Z_pow_split (m j k n : Z) (q : Q) :
  (0 <= j)%Z -> (0 <= k)%Z -> (m * 10 ^ k = n)%Z ->
  q * inject_Z (10 ^ j) == inject_Z m ->
  q * inject_Z (10 ^ (j + k)) == inject_Z n.
Proof.
  intros Hj Hk Hn Hq. rewrite Z.pow_add_r by lia.
  rewrite inject_Z_mult, Qmult_assoc, Hq, <- inject_Z_mult. now rewrite Hn.
Qed.

Lemma mantissa_text_shape (x : Q) :
  exists ip fp,
    Forall is_digit ip /\ Forall is_digit fp /\ ip <> []
    /\ mantissa_text x
       = sign_chars (Exact.ltb x 0) ++ digit_chars ip ++ frac_chars fp ++ exp_chars None
    /\ Qabs (signed (Exact.ltb x 0)
                    (Exact.lit (digits_value (ip ++ fp)) (0 - Z.of_nat (List.length fp)))
             - x) <= 1 # 2000000.
Proof.
  set (n := round_half_even (Qabs x * (1000000 # 1))).
  assert (Hn : (0 <= n)%Z).
  { apply round_half_even_nonneg. apply Qmult_le_0_compat; [apply Qabs_nonneg|]. lra. }
  pose proof (round_half_even_error (Qabs x * (1000000 # 1))) as Herr. fold n in Herr.
  assert (Hq0 : (0 <= n / 1000000)%Z) by (apply Z.div_pos; lia).
  assert (Hm0 : (0 <= n mod 1000000 < 1000000)%Z) by (apply Z.mod_pos_bound; lia).
  destruct (decimal_digits_spec (n / 1000000) Hq0) as (Hid & Hiv & Hine & _).
  destruct (fixed_digits_spec 6 (n mod 1000000) (proj1 Hm0)) as (Hfd & Hfv & Hfl).
  change (10 ^ Z.of_nat 6)%Z with 1000000%Z in Hfv.
  rewrite (Z.mod_small (n mod 1000000) 1000000 Hm0) in Hfv.
  set (ip := decimal_digits (n / 1000000)) in *.
  set (fr := fixed_digits 6 (n mod 1000000)) in *.
  destruct (trim_zeros_split fr) as [k Hk].
  pose proof (trim_zeros_digits fr Hfd) as Htd.
  set (fp := trim_zeros fr) in *.
  exists ip, fp. split; [exact Hid|]. split; [exact Htd|]. split; [exact Hine|]. split.
  - unfold mantissa_text, format_6f. cbn [fval_of Q_PyFloat Exact.fval_of]. fold n ip fr.
    rewrite rstrip_fixed by assumption. fold fp. cbn [exp_chars]. now rewrite app_nil_r.
  - (* the value *)
    assert (Hlen : (Z.of_nat (List.length fp) + Z.of_nat k = 6)%Z).
    { rewrite <- Nat2Z.inj_add. rewrite <- (repeat_length 0%Z k) at 1.
      rewrite <- length_app, <- Hk, Hfl. reflexivity. }
    assert (Hval : (digits_value (ip ++ fp) * 10 ^ Z.of_nat k = n)%Z).
    { rewrite digits_value_app, Z.mul_add_distr_r, <- Z.mul_assoc, <- Z.pow_add_r by lia.
      rewrite Hlen. rewrite Hiv.
      assert (Hfr : (digits_value fp * 10 ^ Z.of_nat k = n mod 1000000)%Z).
      { rewrite <- Hfv, Hk, digits_value_app, digits_value_zeros, repeat_length. lia. }
      rewrite Hfr. pose proof (Z.div_mod n 1000000 ltac:(lia)). lia. }
    set (q := Exact.lit (digits_value (ip ++ fp)) (0 - Z.of_nat (List.length fp))).
    assert (Hq : q * inject_Z 1000000 == inject_Z n).
    { change 1000000%Z with (10 ^ 6)%Z. rewrite <- Hlen.
      apply (inject_Z_pow_split (digits_value (ip ++ fp))); try lia.
      unfold q. replace (0 - Z.of_nat (List.length fp))%Z
        with (- Z.of_nat (List.length fp))%Z by lia.
      apply lit_scaled. lia. }
    apply Qabs_Qle_condition in Herr.
    assert (Hi : inject_Z 1000000 == 1000000 # 1) by reflexivity.
    rewrite Hi in Hq.
    apply Qabs_Qle_condition.
    unfold signed. cbn [fopp Q_PyFloat].
    destruct (Exact.ltb x 0) eqn:E; q_reflect.
    + rewrite (Qabs_neg x) in Herr by lra. lra.
    + rewrite (Qabs_pos x) in Herr by lra. lra.
Qed.

End FixedFacts.

(** ** The [.3e] form *)

Module SciFacts.

Import CodecFacts RoundFacts FixedFacts.

Definition ten : Q := 10 # 1.

Lemma ten_neq0 : ~ ten == 0.
Proof. unfold ten. intros Hx. discriminate Hx. Qed.

Lemma pow_pos (k : Z) : 0 < ten ^ k.
Proof. apply Qpower_0_lt. reflexivity. Qed.

Lemma pow_add (a b : Z) : ten ^ (a + b) == ten ^ a * ten ^ b.
Proof. apply Qpower_plus, ten_neq0. Qed.

Lemma pow_Z (n : Z) : (0 <= n)%Z -> ten ^ n == inject_Z (10 ^ n).
Proof. intros Hn. rewrite Zpower_Qpower by exact Hn. reflexivity. Qed.

Lemma pow_succ (k : Z) : ten ^ (k + 1) == 10 * ten ^ k.
Proof. rewrite pow_add. change (ten ^ 1) with ten. unfold ten. ring. Qed.

Lemma pow_3 (k : Z) : ten ^ k == 1000 * ten ^ (k - 3).
Proof.
  replace k with ((k - 3) + 3)%Z at 1 by lia. rewrite pow_add.
  change (ten ^ 3) with ((10 # 1) * (10 # 1) * (10 # 1)). ring.
Qed.

Lemma pow_inv (k : Z) : ten ^ k * ten ^ (- k) == 1.
Proof. rewrite <- pow_add. now replace (k + - k)%Z with 0%Z by lia. Qed.

Lemma lit_pow (m e : Z) : Exact.lit m e == inject_Z m * ten ^ e.
Proof.
  destruct (Z_le_gt_dec 0 e) as [He|He].
  - rewrite lit_nonneg_exp by exact He. rewrite inject_Z_mult, pow_Z by exact He.
    reflexivity.
  - pose proof (lit_neg_exp m (- e) ltac:(lia)) as Hl.
    rewrite Z.opp_involutive in Hl.
    rewrite <- pow_Z in Hl by lia.
    pose proof (pow_inv e) as Hi. pose proof (pow_pos e). pose proof (pow_pos (- e)).
    rewrite <- Hl. rewrite <- Qmult_assoc, (Qmult_comm (ten ^ (- e))), Hi. ring.
Qed.

(** The decimal exponent brackets a positive rational between two powers
    of ten. *)
Lemma decimal_exponent_spec (m : Q) :
  0 < m ->
  ten ^ decimal_exponent m <= m /\ m < ten ^ (decimal_exponent m + 1).
Proof.
  intros Hm. destruct m as [a b]. unfold decimal_exponent. cbn [Qnum Qden].
  assert (Ha : (0 < a)%Z) by (unfold Qlt in Hm; cbn in Hm; lia).
  destruct (decimal_digits_spec a ltac:(lia)) as (_ & _ & Hane & Hal).
  destruct (decimal_digits_spec (Zpos b) ltac:(lia)) as (_ & _ & Hbne & Hbl).
  specialize (Hal Ha). specialize (Hbl ltac:(lia)).
  set (la := Z.of_nat (List.length (decimal_digits a))) in *.
  set (lb := Z.of_nat (List.length (decimal_digits (Zpos b)))) in *.
  assert (Hla : (1 <= la)%Z).
  { unfold la. destruct (decimal_digits a); [congruence|]. cbn [List.length]. lia. }
  assert (Hlb : (1 <= lb)%Z).
  { unfold lb. destruct (decimal_digits (Zpos b)); [congruence|]. cbn [List.length]. lia. }
  (* the two brackets, cleared of denominators *)
  assert (Hlow : inject_Z (10 ^ (la - 1)) * inject_Z (Zpos b)
                 < inject_Z a * inject_Z (10 ^ lb)).
  { rewrite <- !inject_Z_mult, <- Zlt_Qlt. nia. }
  assert (Hhigh : inject_Z a * inject_Z (10 ^ (lb - 1))
                  < inject_Z (10 ^ la) * inject_Z (Zpos b)).
  { rewrite <- !inject_Z_mult, <- Zlt_Qlt. nia. }
  rewrite <- !pow_Z in Hlow, Hhigh by lia.
  assert (Hab : a # b == inject_Z a / inject_Z (Zpos b)) by apply Qmake_Qdiv.
  assert (Hbpos : 0 < inject_Z (Zpos b)) by reflexivity.
  set (B := inject_Z (Zpos b)) in *. set (A := inject_Z a) in *.
  assert (HA : a # b == A / B) by exact Hab.
  (* m * B = A *)
  assert (HmB : (a # b) * B == A).
  { rewrite HA. field. intros Hx. rewrite Hx in Hbpos. now apply Qlt_irrefl in Hbpos. }
  (* powers of ten around k0 *)
  pose proof (pow_pos (la - lb)) as Hp0. pose proof (pow_pos lb) as Hplb.
  assert (E1 : ten ^ (la - lb - 1) * ten ^ lb == ten ^ (la - 1)).
  { rewrite <- pow_add. now replace (la - lb - 1 + lb)%Z with (la - 1)%Z by lia. }
  assert (E2 : ten ^ (la - lb + 1) * ten ^ (lb - 1) == ten ^ la).
  { rewrite <- pow_add. now replace (la - lb + 1 + (lb - 1))%Z with la by lia. }
  pose proof (pow_pos (la - lb - 1)) as Hp1. pose proof (pow_pos (la - lb + 1)) as Hp2.
  pose proof (pow_pos (lb - 1)) as Hp3.
  (* 10^(k0-1) < m *)
  assert (L : ten ^ (la - lb - 1) < a # b).
  { apply (Qmult_lt_r _ _ (B * ten ^ lb)).
    - apply Qmult_lt_0_compat; assumption.
    - setoid_replace (ten ^ (la - lb - 1) * (B * ten ^ lb))
        with (ten ^ (la - 1) * B) by (rewrite <- E1; ring).
      setoid_replace ((a # b) * (B * ten ^ lb)) with (A * ten ^ lb)
        by (rewrite <- HmB; ring).
      exact Hlow. }
  (* m < 10^(k0+1) *)
  assert (U : a # b < ten ^ (la - lb + 1)).
  { apply (Qmult_lt_r _ _ (B * ten ^ (lb - 1))).
    - apply Qmult_lt_0_compat; assumption.
    - setoid_replace (ten ^ (la - lb + 1) * (B * ten ^ (lb - 1)))
        with (ten ^ la * B) by (rewrite <- E2; ring).
      setoid_replace ((a # b) * (B * ten ^ (lb - 1))) with (A * ten ^ (lb - 1))
        by (rewrite <- HmB; ring).
      exact Hhigh. }
  fold ten.
  destruct (Qle_bool (ten ^ (la - lb)) (a # b)) eqn:E.
  - apply Qle_bool_iff in E. split; [exact E|exact U].
  - apply ExactFacts.leb_gt in E.
    replace (la - lb - 1 + 1)%Z with (la - lb)%Z by lia.
    split; [now apply Qlt_le_weak|exact E].
Qed.


(** The text of [.3e] for sign [neg], four-digit mantissa [n] and exponent
    [k]. *)
Definition sci_text (neg : bool) (n k : Z) : list ascii :=
  sign_chars neg
    ++ digit_chars (fixed_digits 1 (n / 1000))
    ++ ["."%char]
    ++ digit_chars (fixed_digits 3 (n mod 1000))
    ++ ["e"%char]
    ++ [if (k <? 0)%Z then "-"%char else "+"%char]
    ++ digit_chars (match decimal_digits (Z.abs k) with [d] => [0%Z; d] | _ => decimal_digits (Z.abs k) end).

Lemma sci_text_shape (neg : bool) (n k : Z) :
  (0 <= n < 10000)%Z ->
  exists ip fp ex,
    Forall is_digit ip /\ Forall is_digit fp /\ ip <> [] /\ exp_ok ex
    /\ sci_text neg n k
       = sign_chars neg ++ digit_chars ip ++ frac_chars fp ++ exp_chars ex
    /\ digits_value (ip ++ fp) = n
    /\ (exp_value ex - Z.of_nat (List.length fp) = k - 3)%Z.
Proof.
  intros Hn.
  assert (Hq : (0 <= n / 1000 < 10)%Z).
  { split; [apply Z.div_pos; lia|apply Z.div_lt_upper_bound; lia]. }
  assert (Hr : (0 <= n mod 1000 < 1000)%Z) by (apply Z.mod_pos_bound; lia).
  destruct (fixed_digits_spec 1 (n / 1000) (proj1 Hq)) as (Hid & Hiv & Hil).
  destruct (fixed_digits_spec 3 (n mod 1000) (proj1 Hr)) as (Hfd & Hfv & Hfl).
  change (10 ^ Z.of_nat 1)%Z with 10%Z in Hiv. rewrite (Z.mod_small _ _ Hq) in Hiv.
  change (10 ^ Z.of_nat 3)%Z with 1000%Z in Hfv. rewrite (Z.mod_small _ _ Hr) in Hfv.
  destruct (decimal_digits_spec (Z.abs k) (Z.abs_nonneg k)) as (Hed & Hev & Hene & _).
  set (E := match decimal_digits (Z.abs k) with [d] => [0%Z; d] | _ => decimal_digits (Z.abs k) end).
  assert (HE : Forall is_digit E /\ E <> [] /\ digits_value E = Z.abs k).
  { unfold E. clear E. destruct (decimal_digits (Z.abs k)) as [|d [|d2 r]]; [congruence| |].
    - split; [|split; [discriminate|]].
      + constructor; [unfold is_digit; lia|exact Hed].
      + rewrite <- Hev. reflexivity.
    - split; [exact Hed|split; [discriminate|exact Hev]]. }
  destruct HE as (HEd & HEne & HEv).
  exists (fixed_digits 1 (n / 1000)), (fixed_digits 3 (n mod 1000)),
    (Some ((k <? 0)%Z, E)).
  split; [exact Hid|]. split; [exact Hfd|]. split.
  { intros Hx. rewrite Hx in Hil. discriminate Hil. }
  split; [split; assumption|]. split; [|split].
  - unfold sci_text. fold E.
    destruct (fixed_digits 3 (n mod 1000)) as [|f0 fr] eqn:Efp; [discriminate Hfl|].
    reflexivity.
  - rewrite digits_value_app, Hiv, Hfv, Hfl. change (10 ^ Z.of_nat 3)%Z with 1000%Z.
    pose proof (Z.div_mod n 1000 ltac:(lia)). lia.
  - cbn [exp_value]. rewrite HEv, Hfl.
    destruct (k <? 0)%Z eqn:Ek; [apply Z.ltb_lt in Ek|apply Z.ltb_ge in Ek]; lia.
Qed.

(** The mantissa and exponent [.3e] prints for a magnitude [m]. *)
Definition sci_parts (m : Q) : Z * Z :=
  if Qeq_bool m 0 then (0%Z, 0%Z)
  else
    let k := decimal_exponent m in
    let n := round_half_even (m * Qpower (10 # 1) (3 - k)) in
    if (n =? 10000)%Z then (1000%Z, (k + 1)%Z) else (n, k).

Lemma format_3e_parts (x : Q) :
  format_3e x = sci_text (Exact.ltb x 0) (fst (sci_parts (Qabs x))) (snd (sci_parts (Qabs x))).
Proof.
  unfold format_3e, sci_parts, sci_text. cbn [fval_of Q_PyFloat Exact.fval_of].
  destruct (Qeq_bool (Qabs x) 0); [reflexivity|].
  destruct (round_half_even _ =? 10000)%Z; reflexivity.
Qed.

(** The printed mantissa has at most four digits and, with the printed
    exponent, is within one part in two thousand of the magnitude. *)
Lemma sci_parts_spec (m : Q) :
  0 <= m ->
  (0 <= fst (sci_parts m) < 10000)%Z
  /\ Qabs (inject_Z (fst (sci_parts m)) * ten ^ (snd (sci_parts m) - 3) - m)
     <= (1 # 2000) * m.
Proof.
  intros Hm. unfold sci_parts.
  destruct (Qeq_bool m 0) eqn:E0.
  - apply Qeq_bool_iff in E0. cbn [fst snd]. split; [lia|].
    rewrite E0. change (inject_Z 0) with 0.
    setoid_replace (0 * ten ^ (0 - 3) - 0) with 0 by ring. cbn. lra.
  - apply ExactFacts.eqb_neq in E0.
    assert (Hpos : 0 < m) by lra.
    destruct (decimal_exponent_spec m Hpos) as [Hlo Hhi].
    set (k := decimal_exponent m) in *.
    fold ten.
    set (q := m * ten ^ (3 - k)).
    pose proof (round_half_even_error q) as Herr.
    set (n0 := round_half_even q) in *.
    apply Qabs_Qle_condition in Herr.
    pose proof (pow_pos (3 - k)) as Hp. pose proof (pow_pos k) as Hpk.
    pose proof (pow_pos (k - 3)) as Hpk3.
    assert (E3 : ten ^ k * ten ^ (3 - k) == 1000).
    { rewrite <- pow_add. now replace (k + (3 - k))%Z with 3%Z by lia. }
    assert (E4 : ten ^ (k + 1) * ten ^ (3 - k) == 10000).
    { rewrite <- pow_add. now replace (k + 1 + (3 - k))%Z with 4%Z by lia. }
    assert (E5 : ten ^ (3 - k) * ten ^ (k - 3) == 1).
    { rewrite <- pow_add. now replace (3 - k + (k - 3))%Z with 0%Z by lia. }
    assert (E6 : ten ^ k == 1000 * ten ^ (k - 3)) by apply pow_3.
    assert (E7 : ten ^ (k + 1 - 3) == 10 * ten ^ (k - 3)).
    { replace (k + 1 - 3)%Z with (k - 3 + 1)%Z by lia. apply pow_succ. }
    assert (Hq1 : 1000 <= q).
    { unfold q. rewrite <- E3. apply Qmult_le_compat_r; [exact Hlo|now apply Qlt_le_weak]. }
    assert (Hq2 : q < 10000).
    { unfold q. rewrite <- E4. apply Qmult_lt_compat_r; assumption. }
    assert (Hn1 : (1000 <= n0)%Z).
    { assert (Hx : inject_Z 999 < inject_Z n0) by (change (inject_Z 999) with 999; lra).
      rewrite <- Zlt_Qlt in Hx. lia. }
    assert (Hn2 : (n0 <= 10000)%Z).
    { assert (Hx : inject_Z n0 < inject_Z 10001)
        by (change (inject_Z 10001) with 10001; lra).
      rewrite <- Zlt_Qlt in Hx. lia. }
    assert (Hmq : m == q * ten ^ (k - 3)).
    { unfold q. rewrite <- Qmult_assoc, E5. ring. }
    assert (Hgoal : Qabs (inject_Z n0 * ten ^ (k - 3) - m) <= (1 # 2000) * m).
    { apply Qabs_Qle_condition.
      set (t := ten ^ (k - 3)) in *.
      assert (Hd : inject_Z n0 * t - m == (inject_Z n0 - q) * t) by (rewrite Hmq; ring).
      assert (Hm1 : 1000 * t <= m) by (rewrite <- E6; exact Hlo).
      rewrite Hd.
      assert (Ha : (inject_Z n0 - q) * t <= (1 # 2) * t).
      { apply Qmult_le_compat_r; [lra|now apply Qlt_le_weak]. }
      assert (Hb : - (1 # 2) * t <= (inject_Z n0 - q) * t).
      { apply Qmult_le_compat_r; [lra|now apply Qlt_le_weak]. }
      lra. }
    destruct (n0 =? 10000)%Z eqn:En; cbn [fst snd].
    + apply Z.eqb_eq in En. split; [lia|].
      rewrite E7. rewrite En in Hgoal.
      setoid_replace (inject_Z 1000 * (10 * ten ^ (k - 3)) - m)
        with (inject_Z 10000 * ten ^ (k - 3) - m)
        by (change (inject_Z 1000) with 1000; change (inject_Z 10000) with 10000; ring).
      exact Hgoal.
    + apply Z.eqb_neq in En. split; [lia|exact Hgoal].
Qed.

Lemma format_3e_shape (x : Q) :
  exists ip fp ex,
    Forall is_digit ip /\ Forall is_digit fp /\ ip <> [] /\ exp_ok ex
    /\ format_3e x
       = sign_chars (Exact.ltb x 0) ++ digit_chars ip ++ frac_chars fp ++ exp_chars ex
    /\ Qabs (signed (Exact.ltb x 0)
                    (Exact.lit (digits_value (ip ++ fp))
                               (exp_value ex - Z.of_nat (List.length fp)))
             - x) <= (1 # 2000) * Qabs x.
Proof.
  destruct (sci_parts_spec (Qabs x) (Qabs_nonneg x)) as [Hn Herr].
  destruct (sci_text_shape (Exact.ltb x 0) _ (snd (sci_parts (Qabs x))) Hn)
    as (ip & fp & ex & Hi & Hf & Hne & Hex & Htxt & Hval & Hexp).
  exists ip, fp, ex. repeat (split; [assumption|]). split.
  - rewrite format_3e_parts. exact Htxt.
  - rewrite Hval, Hexp.
    pose proof (lit_pow (fst (sci_parts (Qabs x))) (snd (sci_parts (Qabs x)) - 3)) as Hl.
    set (w := Exact.lit _ _) in *.
    set (w' := inject_Z _ * _) in *.
    apply Qabs_Qle_condition in Herr. apply Qabs_Qle_condition.
    unfold signed. cbn [fopp Q_PyFloat].
    destruct (Exact.ltb x 0) eqn:E; q_reflect.
    + rewrite (Qabs_neg x) in * by lra. lra.
    + rewrite (Qabs_pos x) in * by lra. lra.
Qed.

End SciFacts.

(** ** Reading back what was written *)

Module RoundTrip.

Import CodecFacts RoundFacts FixedFacts SciFacts.

Local Open Scope char_scope.

Definition numeral (neg : bool) (ip fp : list Z) (ex : option (bool * list Z))
  : list ascii :=
  sign_chars neg ++ digit_chars ip ++ frac_chars fp ++ exp_chars ex.

Definition well_formed (ip fp : list Z) (ex : option (bool * list Z)) : Prop :=
  Forall is_digit ip /\ Forall is_digit fp /\ ip <> [] /\ exp_ok ex.

Lemma numeral_head (neg : bool) (ip fp : list Z) (ex : option (bool * list Z)) :
  well_formed ip fp ex ->
  exists c m, is_space c = false /\ numeral neg ip fp ex = c :: m.
Proof.
  intros (Hi & _ & Hne & _). unfold numeral. destruct neg.
  - exists "-", (digit_chars ip ++ frac_chars fp ++ exp_chars ex). now split.
  - destruct ip as [|i0 ip']; [congruence|].
    exists (ascii_of_digit i0), (digit_chars ip' ++ frac_chars fp ++ exp_chars ex).
    split; [|reflexivity].
    apply Forall_inv in Hi. now destruct (digit_char_facts i0 Hi) as (Hsp & _).
Qed.

Lemma numeral_end (neg : bool) (ip fp : list Z) (ex : option (bool * list Z)) :
  well_formed ip fp ex ->
  exists m d, is_digit d /\ numeral neg ip fp ex = m ++ [ascii_of_digit d].
Proof.
  intros (Hi & Hf & Hne & He).
  destruct (numeral_last ip fp ex Hi Hf Hne He) as (m & d & Hd & Hl).
  exists (sign_chars neg ++ m), d. split; [exact Hd|].
  unfold numeral. now rewrite Hl, app_assoc.
Qed.

Section Parsing.
Context {F : Type} `{PyFloat F}.

(** A numeral alone is left to [float]. *)
Lemma parse_numeral (neg : bool) (ip fp : list Z) (ex : option (bool * list Z)) :
  well_formed ip fp ex ->
  parse_engineering_format (text (numeral neg ip fp ex))
  = Some (signed neg (lit (digits_value (ip ++ fp))
                          (exp_value ex - Z.of_nat (List.length fp)))).
Proof.
  intros Hw.
  destruct (numeral_head neg ip fp ex Hw) as (c & m & Hc & Hm).
  destruct (numeral_end neg ip fp ex Hw) as (m' & d & Hd & Hm').
  destruct (digit_char_facts d Hd) as (Hsp & _).
  assert (Hs : strip (chars (text (numeral neg ip fp ex))) = m' ++ [ascii_of_digit d]).
  { rewrite chars_text. rewrite <- Hm'.
    apply (strip_id c (ascii_of_digit d) m); auto. now exists m'. }
  rewrite (parse_by_last_char _ _ _ Hs), letter_factor_digit by exact Hd.
  rewrite <- Hm'. destruct Hw as (Hi & Hf & Hne & He). unfold numeral.
  now apply py_float_numeral.
Qed.

(** A numeral followed by a table letter is scaled by the letter's
    factor. *)
Lemma parse_numeral_letter (neg : bool) (ip fp : list Z) (ex : option (bool * list Z))
      (c : ascii) (factor : F) :
  well_formed ip fp ex ->
  is_space c = false ->
  letter_factor PREFIX_TO_VALUE c = Some factor ->
  parse_engineering_format (text (numeral neg ip fp ex) ++ String c EmptyString)
  = Some (fmul (signed neg (lit (digits_value (ip ++ fp))
                                (exp_value ex - Z.of_nat (List.length fp))))
               factor).
Proof.
  intros Hw Hc Hf.
  destruct (numeral_head neg ip fp ex Hw) as (c0 & m & Hc0 & Hm).
  assert (Hs : strip (chars (text (numeral neg ip fp ex) ++ String c EmptyString))
               = numeral neg ip fp ex ++ [c]).
  { rewrite chars_append, chars_text. change (chars (String c EmptyString)) with [c].
    apply (strip_id c0 c (m ++ [c])); auto.
    - now rewrite Hm.
    - now exists (numeral neg ip fp ex). }
  rewrite (parse_by_last_char _ _ _ Hs), Hf.
  destruct Hw as (Hi & Hfp & Hne & He). unfold numeral.
  now rewrite py_float_numeral.
Qed.

End Parsing.

(** An entry of the prefix table that reads back with its own factor. *)
Definition reads_back (entry : Q * string) : Prop :=
  0 < fst entry
  /\ ((snd entry = EmptyString /\ fst entry == 1)
      \/ exists c, snd entry = String c EmptyString /\ is_space c = false
                   /\ letter_factor (PREFIX_TO_VALUE (F := Q)) c = Some (fst entry)).

Definition sorted_prefixes : list (Q * string) :=
  rev (py_sort (fun a b => Exact.ltb (fst a) (fst b)) ENGINEERING_PREFIXES).

Lemma sorted_prefixes_read_back : Forall reads_back sorted_prefixes.
Proof.
  remember sorted_prefixes as t eqn:Et. vm_compute in Et. subst t.
  repeat (apply Forall_cons;
          [split; [reflexivity|cbn [fst snd];
                   first [left; split; reflexivity
                         |right; eexists; split; [reflexivity|split; reflexivity]]]|]).
  apply Forall_nil.
Qed.

Lemma pico_in_table : exists p, In (Exact.lit 1 (-12), p) sorted_prefixes.
Proof. exists "p"%string. vm_compute. tauto. Qed.

Lemma format_loop_some (table : list (Q * string)) (v : Q) (e : Q) (p : string) :
  In (e, p) table -> e <= Qabs v -> format_loop table v (Qabs v) <> None.
Proof.
  induction table as [|[e' p'] rest IH]; intros Hin He; [destruct Hin|].
  cbn [format_loop]. cbn [fle Q_PyFloat].
  destruct (Qle_bool e' (Qabs v)) eqn:E; [discriminate|].
  destruct Hin as [Hin|Hin].
  - inversion Hin; subst. q_reflect. lra.
  - now apply IH.
Qed.

Lemma format_loop_round_trip (table : list (Q * string)) (v : Q) (s : string) :
  Forall reads_back table ->
  format_loop table v (Qabs v) = Some s ->
  exists w, parse_engineering_format s = Some w
            /\ Qabs (w - v) <= (1 # 2000000) * Qabs v.
Proof.
  induction table as [|[e p] rest IH]; intros Ht Hs; [discriminate Hs|].
  cbn [format_loop] in Hs. cbn [fle fdiv Q_PyFloat] in Hs.
  inversion Ht as [|? ? [Hpos Hrb] Hrest]; subst. cbn [fst snd] in Hpos, Hrb.
  destruct (Qle_bool e (Qabs v)) eqn:E; [|now apply IH].
  injection Hs as Hs. q_reflect.
  fold (mantissa_text (v / e)) in Hs.
  destruct (mantissa_text_shape (v / e)) as (ip & fp & Hi & Hf & Hne & Htxt & Herr).
  fold (numeral (Exact.ltb (v / e) 0) ip fp None) in Htxt.
  assert (Hw : well_formed ip fp None) by (repeat split; assumption).
  set (w0 := signed (Exact.ltb (v / e) 0)
                    (Exact.lit (digits_value (ip ++ fp)) (0 - Z.of_nat (List.length fp)))) in *.
  assert (Hscale : Qabs (w0 * e - v) <= (1 # 2000000) * Qabs v).
  { assert (Hv : w0 * e - v == (w0 - v / e) * e) by (field; lra).
    rewrite Hv, Qabs_Qmult, (Qabs_pos e) by lra.
    apply Qle_trans with ((1 # 2000000) * e).
    - apply Qmult_le_compat_r; [exact Herr|lra].
    - apply Qmult_le_l; [reflexivity|exact E]. }
  destruct Hrb as [[Hp He]|(c & Hp & Hc & Hl)]; subst p s; rewrite Htxt.
  - exists w0. split.
    + replace (text (numeral (Exact.ltb (v / e) 0) ip fp None) ++ "")%string
        with (text (numeral (Exact.ltb (v / e) 0) ip fp None)).
      * exact (parse_numeral _ ip fp None Hw).
      * generalize (text (numeral (Exact.ltb (v / e) 0) ip fp None)).
        intros t. induction t as [|a t IHt]; [reflexivity|].
        cbn [String.append]. now rewrite <- IHt.
    + assert (Hv : w0 - v == w0 * e - v) by (rewrite He; ring).
      rewrite Hv. exact Hscale.
  - exists (w0 * e). split; [|exact Hscale].
    exact (parse_numeral_letter _ ip fp None c e Hw Hc Hl).
Qed.

End RoundTrip.

(** ** Extras: the engineering notation *)

Section CodecExtras.
Import CodecFacts RoundFacts FixedFacts SciFacts RoundTrip.

(** X1. In exact arithmetic every value survives the trip through its own
    text: [parse_engineering_format] accepts what [engineering_format]
    wrote, and the value read back differs from the one written by at most
    one part in two thousand, and by at most one part in two million when
    the magnitude is [1e-12] or more (the range the prefix table covers). *)
Theorem engineering_format_round_trip (v : Q) :
  exists w,
    parse_engineering_format (engineering_format v) = Some w
    /\ Qabs (w - v) <= (1 # 2000) * Qabs v
    /\ (Exact.lit 1 (-12) <= Qabs v -> Qabs (w - v) <= (1 # 2000000) * Qabs v).
Proof.
  unfold engineering_format. cbn [feq flt fabs Q_PyFloat].
  destruct (Qeq_bool v (of_int 0)) eqn:E0.
  - exists 0. change (of_int 0) with (0 # 1) in E0. q_reflect.
    split; [vm_compute; reflexivity|].
    assert (Hz : Qabs (0 - v) == 0) by (rewrite E0; reflexivity).
    assert (Hv : Qabs v == 0) by (rewrite E0; reflexivity).
    rewrite Hz, Hv. split; [lra|intros _; lra].
  - fold sorted_prefixes.
    destruct (format_loop sorted_prefixes v (Qabs v)) as [s|] eqn:El.
    + destruct (format_loop_round_trip _ v s sorted_prefixes_read_back El) as (w & Hp & Hb).
      exists w. split; [exact Hp|]. split; [|intros _; exact Hb].
      pose proof (Qabs_nonneg v). lra.
    + destruct (format_3e_shape v) as (ip & fp & ex & Hi & Hf & Hne & Hex & Htxt & Herr).
      fold (numeral (Exact.ltb v 0) ip fp ex) in Htxt.
      assert (Hw : well_formed ip fp ex) by (repeat split; assumption).
      eexists. split; [rewrite Htxt; exact (parse_numeral _ ip fp ex Hw)|].
      split; [exact Herr|].
      intros Hbig. exfalso.
      destruct pico_in_table as [p Hin].
      exact (format_loop_some _ v _ p Hin Hbig El).
Qed.


Lemma letter_factor_in {F : Type} `{PyFloat F} (table : list (string * F)) (c : ascii)
      (factor : F) :
  letter_factor table c = Some factor -> In (String c EmptyString, factor) table.
Proof.
  induction table as [|[p f] rest IH]; [discriminate|].
  cbn [letter_factor].
  destruct p as [|x [|y p']]; try (intros Hl; right; now apply IH).
  destruct (Ascii.eqb x c) eqn:E.
  - apply Ascii.eqb_eq in E. subst x. intros Hl. injection Hl as <-. now left.
  - intros Hl. right. now apply IH.
Qed.

(** X2. The last character of the stripped text decides how it is read:
    when it is a letter of [PREFIX_TO_VALUE], what stands before it goes to
    [float] and the result is multiplied by the letter's factor; when it is
    no table letter, the whole text goes to [float]. *)
Theorem parse_suffix_scaling {F : Type} `{PyFloat F} (s : string) (body : list ascii)
        (c : ascii) :
  strip (chars s) = body ++ [c] ->
  (forall factor, In (String c EmptyString, factor) PREFIX_TO_VALUE ->
     parse_engineering_format s = option_map (fun x => fmul x factor) (py_float body))
  /\ ((forall factor, ~ In (String c EmptyString, factor) PREFIX_TO_VALUE) ->
      parse_engineering_format s = py_float (body ++ [c])).
Proof.
  intros Hs. rewrite (parse_by_last_char s body c Hs). split.
  - intros factor Hin. cbn [PREFIX_TO_VALUE In] in Hin.
    repeat (destruct Hin as [Hin|Hin];
            [first [discriminate Hin
                   |injection Hin as Hc Hf; subst c factor; reflexivity]|]).
    destruct Hin.
  - intros Hnot. destruct (letter_factor PREFIX_TO_VALUE c) as [f|] eqn:E; [|reflexivity].
    exfalso. exact (Hnot f (letter_factor_in _ _ _ E)).
Qed.

Lemma parse_suffix_scaling_witness :
  parse_engineering_format (F := Q) "2.5k"
  = option_map (fun x => fmul x (lit 1 3)) (py_float (chars "2.5")).
Proof.
  refine (proj1 (parse_suffix_scaling (F := Q) "2.5k" (chars "2.5") "k"%char eq_refl)
                (lit 1 3) _).
  cbn [PREFIX_TO_VALUE In]. tauto.
Defined.

Lemma drop_while_spaces (l : list ascii) :
  forallb is_space l = true -> drop_while is_space l = [].
Proof.
  induction l as [|c l IH]; [reflexivity|].
  cbn [forallb drop_while]. intros Hc. apply andb_prop in Hc. destruct Hc as [Hc Hl].
  rewrite Hc. now apply IH.
Qed.

(** X3. A text of white space only, and a text that is exactly one of the
    table's prefixes with no number in front, are refused
    ([ValueError]). *)
Theorem parse_rejects_blank_and_bare_prefix {F : Type} `{PyFloat F} (s : string) :
  forallb is_space (chars s) = true
  \/ (exists factor, In (s, factor) PREFIX_TO_VALUE) ->
  parse_engineering_format s = None.
Proof.
  intros [Hb|[factor Hin]].
  - unfold parse_engineering_format, strip.
    rewrite (drop_while_spaces _ Hb). reflexivity.
  - cbn [PREFIX_TO_VALUE In] in Hin.
    repeat (destruct Hin as [Hin|Hin]; [injection Hin as Hp _; subst s; reflexivity|]).
    destruct Hin.
Qed.

Lemma parse_rejects_blank_and_bare_prefix_witness :
  parse_engineering_format (F := Q) "  " = None.
Proof.
  apply (parse_rejects_blank_and_bare_prefix (F := Q) "  "). left. reflexivity.
Defined.

Lemma Qabs_div_pos (v e : Q) : 0 < e -> Qabs (v / e) == Qabs v / e.
Proof.
  intros He. unfold Qdiv. rewrite Qabs_Qmult. rewrite (Qabs_pos (/ e)); [reflexivity|].
  apply Qlt_le_weak, Qinv_lt_0_compat, He.
Qed.

(** X4. In exact arithmetic, a value whose magnitude is at least [1e-12]
    and below [1e12] is written with the prefix of [ENGINEERING_PREFIXES]
    that brings its mantissa into [1, 1000): the text is the [.6f] mantissa,
    trailing zeros and a trailing point removed, followed by that prefix. *)
Theorem engineering_format_prefix (v : Q) :
  Exact.lit 1 (-12) <= Qabs v -> Qabs v < Exact.lit 1 12 ->
  exists e p,
    In (e, p) ENGINEERING_PREFIXES
    /\ engineering_format v
       = (text (rstrip_char "." (rstrip_char "0" (format_6f (v / e)))) ++ p)%string
    /\ 1 <= Qabs (v / e) /\ Qabs (v / e) < 1000.
Proof.
  intros Hlo Hhi. q_lits.
  unfold engineering_format. cbn [feq flt fabs Q_PyFloat].
  destruct (Qeq_bool v (of_int 0)) eqn:E0.
  { exfalso. change (of_int 0) with (0 # 1) in E0. q_reflect.
    assert (Hv : Qabs v == 0) by (rewrite E0; reflexivity). lra. }
  fold sorted_prefixes.
  remember sorted_prefixes as t eqn:Et. vm_compute in Et. subst t.
  cbn [format_loop fle fdiv Q_PyFloat].
  repeat match goal with
    | |- context [Qle_bool ?e (Qabs v)] =>
        destruct (Qle_bool e (Qabs v)) eqn:?;
        [ exists e; eexists; split; [cbn [ENGINEERING_PREFIXES In];
                                     q_lits; change (of_int 1) with (1 # 1); tauto|];
          split; [reflexivity|];
          q_reflect; rewrite Qabs_div_pos by reflexivity;
          split; [apply Qle_shift_div_l; [reflexivity|lra]
                 |apply Qlt_shift_div_r; [reflexivity|lra]]
        | ]
    end.
  exfalso. q_reflect. lra.
Qed.

Lemma engineering_format_prefix_witness :
  exists e p,
    In (e, p) ENGINEERING_PREFIXES
    /\ engineering_format (5004 # 10000)
       = (text (rstrip_char "." (rstrip_char "0" (format_6f ((5004 # 10000) / e)))) ++ p)%string
    /\ 1 <= Qabs ((5004 # 10000) / e) /\ Qabs ((5004 # 10000) / e) < 1000.
Proof.
  apply (engineering_format_prefix (5004 # 10000)); vm_compute; congruence.
Defined.

End CodecExtras.

(* ================================================================= *)
(** ** The viewport: coordinates and zooming (exact arithmetic) *)

Module ViewFacts.

Lemma of_int_inject (n : Z) : of_int (F := Q) n == inject_Z n.
Proof.
  unfold of_int. cbn [lit Q_PyFloat]. unfold Exact.lit. cbn [Z.leb Z.compare].
  now rewrite Z.pow_0_r, Z.mul_1_r.
Qed.

(** The plot area has room: what both coordinate maps test first. *)
Definition has_plot_area (c : canvas Q) : Prop :=
  (0 < winfo_width c - margin_left - margin_right)%Z
  /\ (0 < winfo_height c - margin_top - margin_bottom)%Z.

Lemma plot_area_test (c : canvas Q) :
  has_plot_area c ->
  ((winfo_width c - margin_left - margin_right <=? 0)
   || (winfo_height c - margin_top - margin_bottom <=? 0))%Z = false.
Proof.
  intros [Hw Hh]. apply orb_false_intro; apply Z.leb_gt; assumption.
Qed.

Lemma draw_w_pos (c : canvas Q) :
  has_plot_area c -> 0 < of_int (F := Q) (winfo_width c - margin_left - margin_right).
Proof.
  intros [Hw _]. rewrite of_int_inject. change 0 with (inject_Z 0). now rewrite <- Zlt_Qlt.
Qed.

Lemma draw_h_pos (c : canvas Q) :
  has_plot_area c -> 0 < of_int (F := Q) (winfo_height c - margin_top - margin_bottom).
Proof.
  intros [_ Hh]. rewrite of_int_inject. change 0 with (inject_Z 0). now rewrite <- Zlt_Qlt.
Qed.

Lemma screen_to_world_eq (c : canvas Q) (sx sy : Q) :
  has_plot_area c ->
  screen_to_world c sx sy
  = (x_min c + (sx - of_int margin_left)
               / of_int (winfo_width c - margin_left - margin_right)
               * (x_max c - x_min c),
     y_min c + (of_int (margin_top + (winfo_height c - margin_top - margin_bottom)) - sy)
               / of_int (winfo_height c - margin_top - margin_bottom)
               * (y_max c - y_min c)).
Proof.
  intros Hp. unfold screen_to_world. cbv zeta. now rewrite (plot_area_test c Hp).
Qed.

Lemma world_to_screen_eq (c : canvas Q) (x y : Q) :
  has_plot_area c -> ~ x_max c == x_min c -> ~ y_max c == y_min c ->
  world_to_screen c x y
  = (of_int margin_left
     + (x - x_min c) / (x_max c - x_min c)
       * of_int (winfo_width c - margin_left - margin_right),
     of_int (margin_top + (winfo_height c - margin_top - margin_bottom))
     - (y - y_min c) / (y_max c - y_min c)
       * of_int (winfo_height c - margin_top - margin_bottom)).
Proof.
  intros Hp Hx Hy. unfold world_to_screen. cbv zeta. rewrite (plot_area_test c Hp).
  cbn [feq fsub Q_PyFloat].
  assert (Ex : Qeq_bool (x_max c - x_min c) (of_int 0) = false).
  { apply ExactFacts.eqb_neq. change (of_int 0) with (0 # 1). intros Hz. apply Hx. lra. }
  assert (Ey : Qeq_bool (y_max c - y_min c) (of_int 0) = false).
  { apply ExactFacts.eqb_neq. change (of_int 0) with (0 # 1). intros Hz. apply Hy. lra. }
  now rewrite Ex, Ey.
Qed.

End ViewFacts.

(** X5.  In exact arithmetic, on a canvas with a plot area and a viewport
    of non-zero width and height, [screen_to_world] and [world_to_screen]
    are inverse to each other. *)
Theorem screen_world_round_trip (c : canvas Q) (x y sx sy : Q) :
  ViewFacts.has_plot_area c -> ~ x_max c == x_min c -> ~ y_max c == y_min c ->
  fst (screen_to_world c (fst (world_to_screen c x y)) (snd (world_to_screen c x y))) == x
  /\ snd (screen_to_world c (fst (world_to_screen c x y)) (snd (world_to_screen c x y))) == y
  /\ fst (world_to_screen c (fst (screen_to_world c sx sy)) (snd (screen_to_world c sx sy))) == sx
  /\ snd (world_to_screen c (fst (screen_to_world c sx sy)) (snd (screen_to_world c sx sy))) == sy.
Proof.
  intros Hp Hx Hy.
  pose proof (ViewFacts.draw_w_pos c Hp) as Hw.
  pose proof (ViewFacts.draw_h_pos c Hp) as Hh.
  rewrite (ViewFacts.world_to_screen_eq c x y Hp Hx Hy).
  rewrite !ViewFacts.screen_to_world_eq by exact Hp.
  rewrite (ViewFacts.world_to_screen_eq c _ _ Hp Hx Hy).
  cbn [fst snd fadd fsub fmul fdiv Q_PyFloat].
  set (dw := of_int (winfo_width c - margin_left - margin_right)) in *.
  set (dh := of_int (winfo_height c - margin_top - margin_bottom)) in *.
  set (ml := of_int margin_left). set (top := of_int _).
  assert (Hxr : ~ x_max c - x_min c == 0) by (intros Hz; apply Hx; lra).
  assert (Hyr : ~ y_max c - y_min c == 0) by (intros Hz; apply Hy; lra).
  assert (Hdw : ~ dw == 0) by lra.
  assert (Hdh : ~ dh == 0) by lra.
  repeat split; field; auto.
Qed.

Lemma screen_world_round_trip_witness :
  fst (screen_to_world init_canvas (fst (world_to_screen init_canvas (5 # 1) (1 # 2)))
                       (snd (world_to_screen init_canvas (5 # 1) (1 # 2)))) == 5 # 1.
Proof.
  refine (proj1 (screen_world_round_trip init_canvas (5 # 1) (1 # 2) 0 0 _ _ _)).
  - split; reflexivity.
  - vm_compute. discriminate.
  - vm_compute. discriminate.
Defined.

(** The factor one wheel step applies to the visible span. *)
Definition wheel_scale (zoom_in : bool) : Q :=
  if zoom_in then of_int 1 / ZOOM_FACTOR else ZOOM_FACTOR.

Lemma wheel_scale_values : wheel_scale true == 10 # 11 /\ wheel_scale false == 11 # 10.
Proof. split; vm_compute; reflexivity. Qed.

Lemma enforce_negative_axis_limit_y (c : canvas Q) :
  y_min (_enforce_negative_axis_limit c) = y_min c
  /\ y_max (_enforce_negative_axis_limit c) = y_max c
  /\ winfo_width (_enforce_negative_axis_limit c) = winfo_width c
  /\ winfo_height (_enforce_negative_axis_limit c) = winfo_height c.
Proof.
  unfold _enforce_negative_axis_limit. cbn [flt fle fsub fadd Q_PyFloat].
  repeat match goal with
         | |- context [if ?b then _ else _] => destruct b
         end; cbn; repeat split; reflexivity.
Qed.

(** X6.  One wheel step, in exact arithmetic on a canvas with a plot area.
    Unless Shift alone is held the Y span is multiplied by the step's
    factor (10/11 when zooming in, 11/10 when zooming out) and the value
    under the pointer stays under the pointer; with Shift alone the Y range
    is untouched; with neither Ctrl nor Shift the X range is untouched; and
    a plain step in followed by a plain step out at the same pointer
    position restores the Y range. *)
Theorem scroll_zoom_about_pointer (c : canvas Q) (sx sy : Q) (zoom_in is_ctrl is_shift : bool) :
  ViewFacts.has_plot_area c ->
  let c' := _on_mouse_scroll sx sy zoom_in is_ctrl is_shift c in
  (if is_ctrl || negb is_shift
   then y_max c' - y_min c' == (y_max c - y_min c) * wheel_scale zoom_in
        /\ snd (screen_to_world c' sx sy) == snd (screen_to_world c sx sy)
   else y_min c' = y_min c /\ y_max c' = y_max c)
  /\ (is_ctrl || is_shift = false -> x_min c' = x_min c /\ x_max c' = x_max c)
  /\ y_min (_on_mouse_scroll sx sy false false false
                             (_on_mouse_scroll sx sy true false false c)) == y_min c
  /\ y_max (_on_mouse_scroll sx sy false false false
                             (_on_mouse_scroll sx sy true false false c)) == y_max c.
Proof.
  intros Hp c'.
  pose proof (ViewFacts.draw_h_pos c Hp) as Hh.
  destruct wheel_scale_values as [Hin Hout].
  assert (Hplain : forall z, ViewFacts.has_plot_area (_on_mouse_scroll sx sy z false false c)).
  { intros z. unfold _on_mouse_scroll. rewrite (ViewFacts.screen_to_world_eq c sx sy Hp).
    exact Hp. }
  split; [|split].
  - unfold c', _on_mouse_scroll.
    rewrite (ViewFacts.screen_to_world_eq c sx sy Hp).
    repeat match goal with
           | |- context [if zoom_in then ?a else ?b] =>
               change (if zoom_in then a else b) with (wheel_scale zoom_in)
           end.
    set (s := wheel_scale zoom_in).
    set (dh := of_int (winfo_height c - margin_top - margin_bottom)) in *.
    set (k := (of_int (margin_top + (winfo_height c - margin_top - margin_bottom)) - sy) / dh).
    destruct is_ctrl; [|destruct is_shift]; cbn [orb negb].
    + match goal with
      | |- context [_enforce_negative_axis_limit ?d] =>
          destruct (enforce_negative_axis_limit_y d) as (_ & _ & Ew & Eh);
          set (e := _enforce_negative_axis_limit d) in *
      end.
      cbn [set_x winfo_width winfo_height] in Ew, Eh.
      match goal with
      | |- context [screen_to_world ?d sx sy] =>
          assert (Hpe : ViewFacts.has_plot_area d)
            by (unfold ViewFacts.has_plot_area; cbn [set_y winfo_width winfo_height];
                rewrite Ew, Eh; exact Hp);
          rewrite (ViewFacts.screen_to_world_eq d sx sy Hpe)
      end.
      cbn [set_y y_min y_max winfo_height snd fadd fsub fmul fdiv Q_PyFloat].
      rewrite Eh. fold dh. fold k.
      split; ring.
    + match goal with
      | |- context [_enforce_negative_axis_limit ?d] =>
          destruct (enforce_negative_axis_limit_y d) as (Ey1 & Ey2 & _ & _)
      end.
      rewrite Ey1, Ey2. split; reflexivity.
    + cbn [fadd fsub fmul fdiv Q_PyFloat].
      match goal with
      | |- context [screen_to_world ?d sx sy] =>
          assert (Hpe : ViewFacts.has_plot_area d) by exact Hp;
          rewrite (ViewFacts.screen_to_world_eq d sx sy Hpe)
      end.
      cbn [set_y y_min y_max winfo_height snd fadd fsub fmul fdiv Q_PyFloat].
      fold dh. fold k. split; ring.
  - unfold c', _on_mouse_scroll.
    rewrite (ViewFacts.screen_to_world_eq c sx sy Hp).
    destruct is_ctrl; [discriminate|]. destruct is_shift; [discriminate|].
    intros _. split; reflexivity.
  - unfold _on_mouse_scroll at 1 3.
    rewrite !(ViewFacts.screen_to_world_eq _ sx sy (Hplain true)).
    unfold _on_mouse_scroll.
    rewrite (ViewFacts.screen_to_world_eq c sx sy Hp).
    change (of_int 1 / ZOOM_FACTOR)%py with (wheel_scale true).
    change (@ZOOM_FACTOR Q _) with (wheel_scale false).
    cbn [set_y y_min y_max winfo_height snd fadd fsub fmul fdiv Q_PyFloat].
    set (dh := of_int (winfo_height c - margin_top - margin_bottom)) in *.
    set (k := (of_int (margin_top + (winfo_height c - margin_top - margin_bottom)) - sy) / dh).
    set (a := wheel_scale true) in *. set (b := wheel_scale false) in *.
    assert (Hab : a * b == 1) by (rewrite Hin, Hout; reflexivity).
    split.
    + nra.
    + nra.
Qed.

Lemma scroll_zoom_about_pointer_witness :
  y_max (_on_mouse_scroll (500 # 1) (300 # 1) true false false init_canvas)
  - y_min (_on_mouse_scroll (500 # 1) (300 # 1) true false false init_canvas)
  == (y_max init_canvas - y_min init_canvas) * wheel_scale true.
Proof.
  refine (proj1 (proj1 (scroll_zoom_about_pointer init_canvas (500 # 1) (300 # 1)
                                                  true false false _))).
  split; reflexivity.
Defined.

(* ================================================================= *)
(** ** Picking points with the pointer (exact arithmetic) *)

Lemma in_enumerate_from {A : Type} (l : list A) (k i : nat) (x : A) :
  In (i, x) (enumerate_from k l) <-> (k <= i)%nat /\ nth_error l (i - k) = Some x.
Proof.
  revert k. induction l as [|y l IH]; intros k; cbn [enumerate_from In].
  - split; [tauto|]. intros [_ Hn]. destruct (i - k)%nat; discriminate Hn.
  - rewrite IH. split.
    + intros [Heq|[Hk Hn]].
      * injection Heq as <- <-. split; [lia|]. now rewrite Nat.sub_diag.
      * split; [lia|]. replace (i - k)%nat with (S (i - S k)) by lia. exact Hn.
    + intros [Hk Hn]. destruct (Nat.eq_dec i k) as [->|Hne].
      * left. rewrite Nat.sub_diag in Hn. cbn in Hn. now injection Hn as ->.
      * right. split; [lia|]. replace (i - k)%nat with (S (i - S k)) in Hn by lia.
        exact Hn.
Qed.

(** The squared distance, in pixels, between the pointer and a point. *)
Definition screen_dist_sq (c : canvas Q) (sx sy : Q) (p : point Q) : Q :=
  (sx - fst (world_to_screen c (fst p) (snd p)))
  * (sx - fst (world_to_screen c (fst p) (snd p)))
  + (sy - snd (world_to_screen c (fst p) (snd p)))
    * (sy - snd (world_to_screen c (fst p) (snd p))).

Lemma closest_loop_cons (c : canvas Q) (sx sy : Q) (i : nat) (p : point Q)
      (rest : list (nat * point Q)) (best : option nat) (m : Q) :
  closest_loop c sx sy ((i, p) :: rest) best m
  = if Exact.ltb (screen_dist_sq c sx sy p) m
    then closest_loop c sx sy rest (Some i) (screen_dist_sq c sx sy p)
    else closest_loop c sx sy rest best m.
Proof.
  destruct p as [px py]. cbn [closest_loop]. unfold screen_dist_sq. cbn [fst snd].
  destruct (world_to_screen c px py) as [psx psy]. reflexivity.
Qed.

Lemma closest_loop_none (c : canvas Q) (sx sy : Q) (l : list (point Q)) (k : nat)
      (best : option nat) (m : Q) :
  closest_loop c sx sy (enumerate_from k l) best m = None ->
  best = None /\ forall q, In q l -> m <= screen_dist_sq c sx sy q.
Proof.
  revert k best m. induction l as [|p l IH]; intros k best m Hr.
  - cbn in Hr. split; [exact Hr|]. intros q [].
  - cbn [enumerate_from] in Hr. rewrite closest_loop_cons in Hr.
    destruct (Exact.ltb (screen_dist_sq c sx sy p) m) eqn:E.
    + apply IH in Hr. destruct Hr as [Hr _]. discriminate Hr.
    + apply IH in Hr. destruct Hr as [Hb Hall]. split; [exact Hb|].
      intros q [<-|Hq]; [q_reflect; exact E|now apply Hall].
Qed.

Lemma closest_loop_some (c : canvas Q) (sx sy : Q) (l : list (point Q)) (k : nat)
      (best : option nat) (m : Q) (i : nat) :
  closest_loop c sx sy (enumerate_from k l) best m = Some i ->
  (best = Some i /\ forall q, In q l -> m <= screen_dist_sq c sx sy q)
  \/ (exists p,
         (k <= i)%nat /\ nth_error l (i - k) = Some p
         /\ screen_dist_sq c sx sy p < m
         /\ forall j q, nth_error l j = Some q ->
                        screen_dist_sq c sx sy p <= screen_dist_sq c sx sy q
                        /\ ((j < i - k)%nat ->
                            screen_dist_sq c sx sy p < screen_dist_sq c sx sy q)).
Proof.
  revert k best m. induction l as [|p0 l IH]; intros k best m Hr.
  - cbn in Hr. left. split; [exact Hr|]. intros q [].
  - cbn [enumerate_from] in Hr. rewrite closest_loop_cons in Hr.
    destruct (Exact.ltb (screen_dist_sq c sx sy p0) m) eqn:E; q_reflect;
      apply IH in Hr; destruct Hr as [[Hb Hall]|(p & Hk & Hn & Hd & Hmin)].
    + (* the head is the answer *)
      injection Hb as <-. right. exists p0. split; [lia|].
      rewrite Nat.sub_diag. split; [reflexivity|]. split; [exact E|].
      intros j q Hj. destruct j as [|j]; cbn in Hj.
      * injection Hj as <-. split; [apply Qle_refl|lia].
      * split; [apply Hall; eapply nth_error_In; exact Hj|lia].
    + (* a later point beats the head *)
      right. exists p. split; [lia|].
      replace (i - k)%nat with (S (i - S k)) by lia.
      split; [exact Hn|]. split; [lra|].
      intros j q Hj. destruct j as [|j]; cbn in Hj.
      * injection Hj as <-. split; [lra|intros _; exact Hd].
      * destruct (Hmin j q Hj) as [Hle Hlt]. split; [exact Hle|].
        intros Hlt'. apply Hlt. lia.
    + (* nothing beats the running best *)
      left. split; [exact Hb|]. intros q [<-|Hq]; [exact E|now apply Hall].
    + right. exists p. split; [lia|].
      replace (i - k)%nat with (S (i - S k)) by lia.
      split; [exact Hn|]. split; [exact Hd|].
      intros j q Hj. destruct j as [|j]; cbn in Hj.
      * injection Hj as <-. split; [lra|intros _; lra].
      * destruct (Hmin j q Hj) as [Hle Hlt]. split; [exact Hle|].
        intros Hlt'. apply Hlt. lia.
Qed.

(** X7.  The hit test of a left click, in exact arithmetic: the point it
    returns is less than 10 pixels from the pointer, no point is nearer,
    and every point before it in the list is strictly farther (the first
    of equally near points wins); it returns none only when every point
    is 10 pixels or more away. *)
Theorem closest_point_spec (c : canvas Q) (sx sy : Q) (pts : list (point Q)) :
  match closest_point c sx sy pts with
  | Some i =>
      exists p,
        nth_error pts i = Some p
        /\ screen_dist_sq c sx sy p < 100
        /\ forall j q, nth_error pts j = Some q ->
                       screen_dist_sq c sx sy p <= screen_dist_sq c sx sy q
                       /\ ((j < i)%nat ->
                           screen_dist_sq c sx sy p < screen_dist_sq c sx sy q)
  | None => forall q, In q pts -> 100 <= screen_dist_sq c sx sy q
  end.
Proof.
  unfold closest_point.
  change (of_int (pixel_threshold * pixel_threshold)) with (100 # 1).
  destruct (closest_loop c sx sy (enumerate_from 0 pts) None (100 # 1)) as [i|] eqn:E.
  - apply closest_loop_some in E.
    destruct E as [[Hb _]|(p & _ & Hn & Hd & Hmin)]; [discriminate Hb|].
    rewrite Nat.sub_0_r in Hn, Hmin. exists p. split; [exact Hn|]. split; [exact Hd|exact Hmin].
  - apply closest_loop_none in E. exact (proj2 E).
Qed.

(** The test the box selection applies to a point. *)
Definition inside_box (lo_x hi_x lo_y hi_y : Q) (p : point Q) : bool :=
  Qle_bool lo_x (fst p) && Qle_bool (fst p) hi_x
  && Qle_bool lo_y (snd p) && Qle_bool (snd p) hi_y.

Definition between (a b x : Q) : Prop := a <= x <= b \/ b <= x <= a.

Lemma inside_box_sorted (a b a' b' : Q) (p : point Q) :
  inside_box (fst (sorted_pair a b)) (snd (sorted_pair a b))
             (fst (sorted_pair a' b')) (snd (sorted_pair a' b')) p = true
  <-> between a b (fst p) /\ between a' b' (snd p).
Proof.
  unfold inside_box, sorted_pair, between. cbn [flt Q_PyFloat].
  rewrite !andb_true_iff.
  destruct (Exact.ltb b a) eqn:E1; destruct (Exact.ltb b' a') eqn:E2;
    cbn [fst snd]; rewrite !ExactFacts.leb_le; q_reflect; split; intros; lra.
Qed.

Lemma box_selected_eq (c : canvas Q) (x0 y0 x1 y1 : Q) (pts : list (point Q)) :
  box_selected c (x0, y0) x1 y1 pts
  = map fst
        (filter (fun ip =>
                   inside_box
                     (fst (sorted_pair (fst (screen_to_world c x0 y0))
                                       (fst (screen_to_world c x1 y1))))
                     (snd (sorted_pair (fst (screen_to_world c x0 y0))
                                       (fst (screen_to_world c x1 y1))))
                     (fst (sorted_pair (snd (screen_to_world c x0 y0))
                                       (snd (screen_to_world c x1 y1))))
                     (snd (sorted_pair (snd (screen_to_world c x0 y0))
                                       (snd (screen_to_world c x1 y1))))
                     (snd ip))
                (enumerate_from 0 pts)).
Proof.
  unfold box_selected.
  destruct (screen_to_world c x0 y0) as [wx0 wy0].
  destruct (screen_to_world c x1 y1) as [wx1 wy1]. cbn [fst snd].
  destruct (sorted_pair wx0 wx1) as [xmin xmax].
  destruct (sorted_pair wy0 wy1) as [ymin ymax]. cbn [fst snd].
  apply f_equal. apply filter_ext. intros [i [px py]]. reflexivity.
Qed.

(** X8.  The box selection, in exact arithmetic: a point is selected
    exactly when its time lies between the times of the two corners of the
    box and its value between their values, whichever corner the drag
    started from; dragging the same box from the opposite corner selects
    the same indices. *)
Theorem box_selection_spec (c : canvas Q) (x0 y0 x1 y1 : Q) (pts : list (point Q)) :
  (forall i,
      In i (box_selected c (x0, y0) x1 y1 pts)
      <-> exists p,
          nth_error pts i = Some p
          /\ between (fst (screen_to_world c x0 y0)) (fst (screen_to_world c x1 y1)) (fst p)
          /\ between (snd (screen_to_world c x0 y0)) (snd (screen_to_world c x1 y1)) (snd p))
  /\ box_selected c (x1, y1) x0 y0 pts = box_selected c (x0, y0) x1 y1 pts.
Proof.
  split.
  - intros i. rewrite box_selected_eq, in_map_iff. split.
    + intros ([j p] & Hi & Hin). cbn [fst] in Hi. subst j.
      apply filter_In in Hin. destruct Hin as [Hin Ht]. cbn [snd] in Ht.
      apply in_enumerate_from in Hin. destruct Hin as [_ Hn].
      rewrite Nat.sub_0_r in Hn. exists p. split; [exact Hn|].
      now apply inside_box_sorted.
    + intros (p & Hn & Hb). exists (i, p). split; [reflexivity|].
      apply filter_In. split.
      * apply in_enumerate_from. split; [lia|]. now rewrite Nat.sub_0_r.
      * cbn [snd]. now apply inside_box_sorted.
  - rewrite !box_selected_eq. apply f_equal. apply filter_ext. intros [i p]. cbn [snd].
    apply eq_true_iff_eq. rewrite !inside_box_sorted. unfold between. tauto.
Qed.

(* ================================================================= *)
(** ** Deleting the selected points *)

Section DeleteFacts.
Context {A : Type}.

(** One step of the deletion loop. *)
Definition delete_at (pts : list A) (index : nat) : list A :=
  if Nat.ltb index (List.length pts) then del_nth index pts else pts.

(** The elements of [pts], numbered from [k], whose number is not in
    [sel]. *)
Fixpoint keep_from (k : nat) (pts : list A) (sel : list nat) : list A :=
  match pts with
  | [] => []
  | p :: rest =>
      if mem_nat k sel then keep_from (S k) rest sel
      else p :: keep_from (S k) rest sel
  end.

Lemma keep_from_filter (k : nat) (pts : list A) (sel : list nat) :
  keep_from k pts sel
  = map snd (filter (fun ip => negb (mem_nat (fst ip) sel)) (enumerate_from k pts)).
Proof.
  revert k. induction pts as [|p pts IH]; intros k; [reflexivity|].
  cbn [keep_from enumerate_from filter fst]. rewrite IH.
  destruct (mem_nat k sel); reflexivity.
Qed.

Lemma keep_from_below (k i : nat) (pts : list A) (sel : list nat) :
  (i < k)%nat -> keep_from k pts (i :: sel) = keep_from k pts sel.
Proof.
  revert k. induction pts as [|p pts IH]; intros k Hik; [reflexivity|].
  cbn [keep_from mem_nat existsb].
  assert (E : Nat.eqb k i = false) by (apply Nat.eqb_neq; lia).
  rewrite E. cbn [orb]. fold (mem_nat k sel).
  rewrite (IH (S k)) by lia. reflexivity.
Qed.

Lemma mem_nat_above (i : nat) (sel : list nat) :
  Forall (fun j => (i < j)%nat) sel -> mem_nat i sel = false.
Proof.
  induction 1 as [|j sel Hj Hs IH]; [reflexivity|].
  cbn [mem_nat existsb]. fold (mem_nat i sel). rewrite IH, orb_false_r.
  apply Nat.eqb_neq. lia.
Qed.

Lemma mem_nat_above_le (k i : nat) (sel : list nat) :
  Forall (fun j => (i < j)%nat) sel -> (k <= i)%nat -> mem_nat k sel = false.
Proof.
  intros Hs Hk. apply mem_nat_above. eapply Forall_impl; [|exact Hs].
  cbn. intros j Hj. lia.
Qed.

Lemma delete_at_keep (pts : list A) (k i : nat) (sel : list nat) :
  Forall (fun j => (i < j)%nat) sel -> (k <= i)%nat ->
  delete_at (keep_from k pts sel) (i - k) = keep_from k pts (i :: sel).
Proof.
  intros Hs. revert k. induction pts as [|p pts IH]; intros k Hk; [reflexivity|].
  cbn [keep_from]. rewrite (mem_nat_above_le k i sel Hs Hk).
  cbn [mem_nat existsb]. fold (mem_nat k sel).
  rewrite (mem_nat_above_le k i sel Hs Hk), orb_false_r.
  destruct (Nat.eqb k i) eqn:E.
  - apply Nat.eqb_eq in E. subst k. rewrite Nat.sub_diag.
    rewrite keep_from_below by lia. reflexivity.
  - apply Nat.eqb_neq in E.
    replace (i - k)%nat with (S (i - S k)) by lia.
    rewrite <- (IH (S k)) by lia. unfold delete_at. cbn [List.length del_nth].
    change (Nat.ltb (S (i - S k)) (S (List.length (keep_from (S k) pts sel))))
      with (Nat.ltb (i - S k) (List.length (keep_from (S k) pts sel))).
    destruct (Nat.ltb (i - S k) (List.length (keep_from (S k) pts sel))); reflexivity.
Qed.

Lemma keep_from_nil (k : nat) (pts : list A) : keep_from k pts [] = pts.
Proof.
  revert k. induction pts as [|p pts IH]; intros k; [reflexivity|].
  cbn [keep_from mem_nat existsb]. now rewrite IH.
Qed.

(** Deleting the indices of an increasing list from the last to the first
    removes exactly the elements at those indices. *)
Lemma delete_descending (pts : list A) (sel : list nat) :
  StronglySorted lt sel ->
  fold_left delete_at (rev sel) pts = keep_from 0 pts sel.
Proof.
  intros Hs.
  assert (E : fold_left delete_at (rev sel) pts
              = fold_right (fun i acc => delete_at acc i) pts sel).
  { rewrite <- (rev_involutive sel) at 2. now rewrite fold_left_rev_right. }
  rewrite E. clear E.
  induction Hs as [|i sel Hs IH Hi]; cbn [fold_right].
  - now rewrite keep_from_nil.
  - rewrite IH. rewrite <- (delete_at_keep pts 0 i sel Hi) by lia.
    now rewrite Nat.sub_0_r.
Qed.

End DeleteFacts.

Lemma set_add_nat_sorted (i : nat) (s : list nat) :
  StronglySorted lt s ->
  StronglySorted lt (set_add_nat i s)
  /\ forall j, In j (set_add_nat i s) <-> j = i \/ In j s.
Proof.
  induction 1 as [|j s Hs IH Hj]; cbn [set_add_nat].
  - split; [repeat constructor|]. intros j. cbn. intuition congruence.
  - destruct IH as [IHs IHi].
    destruct (Nat.ltb i j) eqn:E1; [|destruct (Nat.eqb i j) eqn:E2].
    + apply Nat.ltb_lt in E1. split.
      * constructor; [now constructor|]. constructor; [exact E1|].
        eapply Forall_impl; [|exact Hj]. cbn. intros a Ha. lia.
      * intros k. cbn. intuition congruence.
    + apply Nat.eqb_eq in E2. subst j. split; [now constructor|].
      intros k. cbn. intuition congruence.
    + apply Nat.ltb_ge in E1. apply Nat.eqb_neq in E2. split.
      * constructor; [exact IHs|]. rewrite Forall_forall. intros a Ha.
        apply IHi in Ha. destruct Ha as [->|Ha]; [lia|].
        rewrite Forall_forall in Hj. now apply Hj.
      * intros k. cbn. rewrite IHi. intuition congruence.
Qed.

Lemma set_of_list_sorted (l : list nat) : StronglySorted lt (fold_right set_add_nat [] l).
Proof.
  induction l as [|i l IH]; cbn [fold_right]; [constructor|].
  now apply set_add_nat_sorted.
Qed.

(** X9.  [delete_point] on a selection kept in increasing order (the
    order [sorted] gives the set): with nothing selected in the editor nor
    in the table it warns and changes nothing; otherwise it ends with
    exactly the points whose index was not selected, in their old order,
    and with the selection cleared. *)
Theorem delete_point_removes_selected {F : Type} `{PyFloat F}
        (tree_selection : list nat) (s : editor F) :
  StronglySorted lt (selected_indices s) ->
  let sel := match selected_indices s with
             | [] => fold_right set_add_nat [] tree_selection
             | sel => sel
             end in
  match sel with
  | [] => delete_point tree_selection s = (s, Warned)
  | _ =>
      snd (delete_point tree_selection s) = Done
      /\ points (fst (delete_point tree_selection s))
         = map snd (filter (fun ip => negb (mem_nat (fst ip) sel))
                           (enumerate_from 0 (points s)))
      /\ selected_indices (fst (delete_point tree_selection s)) = []
      /\ primary_selected_index (fst (delete_point tree_selection s)) = None
  end.
Proof.
  intros Hsel sel.
  assert (Hs : StronglySorted lt sel).
  { unfold sel. destruct (selected_indices s); [apply set_of_list_sorted|exact Hsel]. }
  unfold delete_point. fold sel.
  destruct sel as [|i sel'] eqn:E; [reflexivity|].
  cbn [fst snd points selected_indices primary_selected_index with_selection with_points].
  split; [reflexivity|]. split; [|split; reflexivity].
  rewrite <- keep_from_filter.
  exact (delete_descending (points s) (i :: sel') Hs).
Qed.

Lemma delete_point_removes_selected_witness :
  points (fst (delete_point [] (with_selection (init_editor (F := Q)
                                                [(0, 0); (1, 1); (2, 0); (3, 1)])
                                               [1%nat; 3%nat] (Some 3%nat))))
  = [(0, 0); (2, 0)].
Proof.
  refine (proj1 (proj2 (delete_point_removes_selected
                          [] (with_selection (init_editor (F := Q)
                                                [(0, 0); (1, 1); (2, 0); (3, 1)])
                                             [1%nat; 3%nat] (Some 3%nat)) _))).
  cbn [selected_indices with_selection]. repeat constructor.
Defined.

(* ================================================================= *)
(** ** Editing a point in place (exact arithmetic) *)

Module StoreFacts.

Import SpacingFacts.

Lemma index_from_found {A : Type} (eqb : A -> A -> bool) (x : A) (l : list A) (k : nat) :
  (exists y, In y l /\ eqb y x = true) -> exists idx, index_from eqb x l k = Some idx.
Proof.
  revert k. induction l as [|z l IH]; intros k (y & Hin & Hy); [destruct Hin|].
  cbn [index_from]. destruct (eqb z x) eqn:E; [now exists k|].
  destruct Hin as [->|Hin]; [congruence|]. apply IH. now exists y.
Qed.

Lemma index_from_at {A : Type} (eqb : A -> A -> bool) (x : A) (l : list A) (k i : nat) (y : A) :
  nth_error l i = Some y -> eqb y x = true ->
  (forall j z, (j < i)%nat -> nth_error l j = Some z -> eqb z x = false) ->
  index_from eqb x l k = Some (k + i)%nat.
Proof.
  revert k i. induction l as [|z l IH]; intros k i Hn Hy Hbefore; [now destruct i|].
  cbn [index_from]. destruct i as [|i].
  - cbn in Hn. injection Hn as ->. rewrite Hy. now rewrite Nat.add_0_r.
  - rewrite (Hbefore 0%nat z) by (try lia; reflexivity).
    rewrite (IH (S k) i); [f_equal; lia|exact Hn|exact Hy|].
    intros j w Hj Hw. apply (Hbefore (S j) w); [lia|exact Hw].
Qed.

Lemma tuple_eq_refl (p : point Q) : tuple_eq p p = true.
Proof.
  unfold tuple_eq. cbn [feq Q_PyFloat]. apply andb_true_intro.
  split; apply ExactFacts.eqb_eq; reflexivity.
Qed.

Lemma tuple_eq_time (p q : point Q) : tuple_eq p q = true -> fst p == fst q.
Proof.
  unfold tuple_eq. cbn [feq Q_PyFloat]. intros Hx. apply andb_prop in Hx.
  now apply ExactFacts.eqb_eq.
Qed.

(** In exact arithmetic [index] finds what was just stored. *)
Lemma py_index_present (x : point Q) (l : list (point Q)) :
  In x l -> exists idx, py_index tuple_eq x l = Some idx.
Proof.
  intros Hin. apply index_from_found. exists x. split; [exact Hin|apply tuple_eq_refl].
Qed.

Lemma gap_lt (p q : point Q) : gap p q -> fst p < fst q.
Proof. unfold gap, eps. intros. lra. Qed.

Lemma sorted_no_descent (l : list (point Q)) :
  StronglySorted gap l -> no_descent tuple_lt l.
Proof.
  induction 1 as [|x l Hs IH Hx]; [exact I|].
  split; [|exact IH]. destruct l as [|y l']; [exact I|].
  apply Forall_inv in Hx. apply gap_lt in Hx.
  unfold tuple_lt. cbn [feq flt Q_PyFloat].
  destruct (Qeq_bool (fst y) (fst x)) eqn:E; cbn [negb]; q_reflect; [lra|].
  apply ExactFacts.ltb_ge. lra.
Qed.

Lemma sorted_set_value (l : list (point Q)) (i : nat) (t v v' : Q) :
  StronglySorted gap l -> nth_error l i = Some (t, v) ->
  StronglySorted gap (set_nth i (t, v') l).
Proof.
  intros Hs. revert i. induction Hs as [|x l Hs IH Hx]; intros i Hn; [now destruct i|].
  destruct i as [|i]; cbn in Hn |- *.
  - injection Hn as ->. constructor; [exact Hs|].
    eapply Forall_impl; [|exact Hx]. intros a Ha. exact Ha.
  - constructor; [now apply IH|].
    apply Forall_set_nth; [exact Hx|].
    rewrite Forall_forall in Hx. apply nth_error_In in Hn.
    exact (Hx _ Hn).
Qed.

Lemma nth_error_set_nth_same {A : Type} (l : list A) (i : nat) (x y : A) :
  nth_error l i = Some y -> nth_error (set_nth i x l) i = Some x.
Proof.
  revert i. induction l as [|z l IH]; intros i Hn; [now destruct i|].
  destruct i as [|i]; cbn in *; [reflexivity|now apply IH].
Qed.

Lemma nth_error_set_nth_other {A : Type} (l : list A) (i j : nat) (x : A) :
  i <> j -> nth_error (set_nth i x l) j = nth_error l j.
Proof.
  revert i j. induction l as [|z l IH]; intros i j Hij; [now destruct i|].
  destruct i as [|i], j as [|j]; cbn; try reflexivity; try congruence.
  apply IH. congruence.
Qed.

Lemma sorted_before (l : list (point Q)) (i j : nat) (p q : point Q) :
  StronglySorted gap l -> (j < i)%nat ->
  nth_error l j = Some q -> nth_error l i = Some p -> gap q p.
Proof.
  intros Hs. revert i j. induction Hs as [|x l Hs IH Hx]; intros i j Hji Hq Hp;
    [now destruct j|].
  destruct i as [|i]; [lia|]. destruct j as [|j]; cbn in Hq, Hp.
  - injection Hq as <-. rewrite Forall_forall in Hx. apply Hx.
    eapply nth_error_In; exact Hp.
  - apply (IH i j); [lia|exact Hq|exact Hp].
Qed.

Lemma Permutation_set_nth {A : Type} (l : list A) (i : nat) (x y : A) :
  nth_error l i = Some y -> In x (set_nth i x l).
Proof.
  intros Hn. eapply nth_error_In. eapply nth_error_set_nth_same. exact Hn.
Qed.

Lemma set_nth_length {A : Type} (l : list A) (i : nat) (x : A) :
  List.length (set_nth i x l) = List.length l.
Proof.
  revert i. induction l as [|z l IH]; intros i; [now destruct i|].
  destruct i; cbn; [reflexivity|now rewrite IH].
Qed.

End StoreFacts.

(** X10.  In exact arithmetic, on a Waveform that satisfies the spacing
    invariant, [update_point] with the selected point's own time and a new
    value always succeeds (the conflict check is skipped when the time is
    unchanged): the point keeps its index, only its value changes, every
    other point is untouched, and it stays the selection. *)
Theorem update_value_keeps_place (s : editor Q) (i : nat) (t v v' : Q) :
  SpacingFacts.well_spaced (points s) ->
  primary_selected_index s = Some i ->
  nth_error (points s) i = Some (t, v) ->
  update_point_at t v' s
  = (with_selection (with_points s (set_nth i (t, v') (points s))) [i] (Some i), Done).
Proof.
  intros [Hs Hn] Hp Hi. unfold update_point_at. rewrite Hp, Hi.
  assert (Ht : 0 <= t).
  { rewrite Forall_forall in Hn. apply nth_error_In in Hi. exact (Hn _ Hi). }
  assert (E0 : flt t (lit 0 0) = false).
  { cbn [flt lit Q_PyFloat]. q_lits. apply ExactFacts.ltb_ge. exact Ht. }
  rewrite E0.
  assert (E1 : negb (feq t t) = false).
  { cbn [feq Q_PyFloat]. apply negb_false_iff, ExactFacts.eqb_eq. reflexivity. }
  rewrite E1. cbn [andb].
  pose proof (StoreFacts.sorted_set_value _ i t v v' Hs Hi) as Hs'.
  rewrite (py_sort_run tuple_lt _ (StoreFacts.sorted_no_descent _ Hs')).
  assert (Ei : py_index tuple_eq (t, v') (set_nth i (t, v') (points s)) = Some i).
  { unfold py_index.
    rewrite (StoreFacts.index_from_at tuple_eq (t, v') _ 0 i (t, v')).
    - reflexivity.
    - eapply StoreFacts.nth_error_set_nth_same. exact Hi.
    - apply StoreFacts.tuple_eq_refl.
    - intros j z Hj Hz.
      rewrite StoreFacts.nth_error_set_nth_other in Hz by lia.
      pose proof (StoreFacts.sorted_before _ i j _ _ Hs Hj Hz Hi) as Hg.
      apply StoreFacts.gap_lt in Hg. cbn [fst] in Hg.
      destruct (tuple_eq z (t, v')) eqn:E; [|reflexivity].
      apply StoreFacts.tuple_eq_time in E. cbn [fst] in E. lra. }
  now rewrite Ei.
Qed.

Lemma update_value_keeps_place_witness :
  update_point_at (1 # 1) (5 # 1)
    (with_selection (init_editor (F := Q) [(0, 0); (1, 1); (2, 0)]) [1%nat] (Some 1%nat))
  = (with_selection
       (with_points
          (with_selection (init_editor (F := Q) [(0, 0); (1, 1); (2, 0)])
                          [1%nat] (Some 1%nat))
          [(0, 0); (1 # 1, 5 # 1); (2, 0)])
       [1%nat] (Some 1%nat), Done).
Proof.
  refine (update_value_keeps_place
            (with_selection (init_editor (F := Q) [(0, 0); (1, 1); (2, 0)])
                            [1%nat] (Some 1%nat))
            1 (1 # 1) (1 # 1) (5 # 1) _ eq_refl eq_refl).
  apply SpacingFacts.spacing_ok_iff. vm_compute. reflexivity.
Defined.

(** X11.  In exact arithmetic [update_point] either succeeds or changes
    nothing: whenever it ends with a warning or an error box the editor is
    exactly as before, and the only boxes it can end with are the missing
    selection, the invalid number, the negative time and the time
    conflict.  When it succeeds on a selected index in range, the new
    Waveform is the old one with that entry replaced by the parsed pair,
    re-sorted, and the selection is one index at which that pair now
    stands. *)
Theorem update_point_all_or_nothing (time_str value_str : string) (s : editor Q) :
  let r := update_point time_str value_str s in
  (snd r <> Done ->
     fst r = s
     /\ (snd r = Warned \/ snd r = Failed InvalidFormat
         \/ snd r = Failed NegativeTime \/ snd r = Failed TimeConflict))
  /\ (snd r = Done ->
      exists index new_time new_value,
        primary_selected_index s = Some index
        /\ parse_engineering_format time_str = Some new_time
        /\ parse_engineering_format value_str = Some new_value
        /\ 0 <= new_time
        /\ (nth_error (points s) index = None /\ fst r = s
            \/ exists idx q,
                 Permutation (points (fst r))
                             (set_nth index (new_time, new_value) (points s))
                 /\ selected_indices (fst r) = [idx]
                 /\ primary_selected_index (fst r) = Some idx
                 /\ nth_error (points (fst r)) idx = Some q
                 /\ fst q == new_time /\ snd q == new_value)).
Proof.
  intros r. unfold r, update_point.
  destruct (primary_selected_index s) as [index|] eqn:Ep;
    [|split; [intros _; split; [reflexivity|now left]|discriminate]].
  destruct (parse_engineering_format time_str) as [new_time|];
    [|split; [intros _; split; [reflexivity|right; now left]|discriminate]].
  destruct (parse_engineering_format value_str) as [new_value|];
    [|split; [intros _; split; [reflexivity|right; now left]|discriminate]].
  unfold update_point_at. rewrite Ep.
  destruct (flt new_time (lit 0 0)) eqn:E0;
    [split; [intros _; split; [reflexivity|right; right; now left]|discriminate]|].
  assert (H0 : 0 <= new_time).
  { cbn [flt lit Q_PyFloat] in E0. q_lits. q_reflect. exact E0. }
  destruct (nth_error (points s) index) as [[old_time old_value]|] eqn:En.
  - destruct (negb (feq new_time old_time) && _check_time_conflict s new_time (Some index));
      [split; [intros _; split; [reflexivity|right; right; now right]|discriminate]|].
    set (stored := set_nth index (new_time, new_value) (points s)).
    assert (Hin : In (new_time, new_value) (py_sort tuple_lt stored)).
    { eapply Permutation_in; [symmetry; apply py_sort_perm|].
      eapply StoreFacts.Permutation_set_nth. exact En. }
    destruct (StoreFacts.py_index_present _ _ Hin) as [idx Hidx]. rewrite Hidx.
    cbn [fst snd]. split; [intros Hx; now elim Hx|]. intros _.
    exists index, new_time, new_value. repeat (split; [reflexivity|]).
    split; [exact H0|]. right.
    destruct (py_index_spec _ _ _ _ Hidx) as (q & Hq & Heq).
    exists idx, q. cbn [points selected_indices primary_selected_index
                        with_selection with_points].
    split; [apply py_sort_perm|]. split; [reflexivity|]. split; [reflexivity|].
    split; [exact Hq|].
    unfold tuple_eq in Heq. cbn [feq Q_PyFloat fst snd] in Heq.
    apply andb_prop in Heq. destruct Heq as [H1 H2]. q_reflect. now split.
  - cbn [fst snd]. split; [intros Hx; now elim Hx|]. intros _.
    exists index, new_time, new_value. repeat (split; [reflexivity|]).
    split; [exact H0|]. left. now split.
Qed.

(* ================================================================= *)
(** ** Adding a point with the M key (exact arithmetic) *)

Module KeyFacts.

Import RoundFacts.

Lemma py_round_exact (q : Q) :
  exists n, py_round q = Some n /\ Qabs (inject_Z n - q) <= 1 # 2
            /\ (0 <= q -> (0 <= n)%Z).
Proof.
  unfold py_round. cbn [fval_of Q_PyFloat Exact.fval_of].
  pose proof (round_half_even_error (Qabs q)) as He.
  pose proof (round_half_even_nonneg (Qabs q) (Qabs_nonneg q)) as Hn.
  set (R := round_half_even (Qabs q)) in *.
  apply Qabs_Qle_condition in He.
  destruct (Exact.ltb q 0) eqn:E; q_reflect; eexists; (split; [reflexivity|]).
  - pose proof (Qabs_neg q ltac:(lra)) as Hq. split; [|intros; lra].
    rewrite inject_Z_opp. apply Qabs_Qle_condition. lra.
  - pose proof (Qabs_pos q ltac:(lra)) as Hq. split; [|intros _; exact Hn].
    apply Qabs_Qle_condition. lra.
Qed.

Lemma py_max_zero (x : Q) : 0 <= py_max (F := Q) (lit 0 0) x.
Proof.
  unfold py_max. cbn [flt lit Q_PyFloat]. q_lits.
  destruct (Exact.ltb 0 x) eqn:E; q_reflect; lra.
Qed.

End KeyFacts.

(** X12.  The M key, in exact arithmetic with a drag precision other than
    zero, on a Waveform that satisfies the spacing invariant.  The handler
    never raises.  Either the bell rings and the editor is unchanged, or
    one point is added: its time is a whole, non-negative number of
    [TIME_MIN_PRECISION] steps within half a step of the pointer's time
    (clamped at zero), its value a whole number of precision steps within
    half a step of the pointer's value, and it becomes the selection.  The
    Waveform satisfies the invariant afterwards. *)
Theorem m_key_adds_on_grid (x y : Q) (s : editor Q) :
  ~ drag_precision s == 0 ->
  SpacingFacts.well_spaced (points s) ->
  let r := _on_m_key x y s in
  SpacingFacts.well_spaced (points (fst r))
  /\ (snd r = Bell /\ fst r = s
      \/ snd r = PointAdded
         /\ exists rt rv idx q,
              (0 <= rt)%Z
              /\ Qabs (of_int rt * TIME_MIN_PRECISION - py_max (lit 0 0) x)
                 <= TIME_MIN_PRECISION / 2
              /\ Qabs (of_int rv * drag_precision s - y) <= Qabs (drag_precision s) / 2
              /\ Permutation (points (fst r))
                             (points s ++ [(of_int rt * TIME_MIN_PRECISION,
                                            of_int rv * drag_precision s)])
              /\ selected_indices (fst r) = [idx]
              /\ primary_selected_index (fst r) = Some idx
              /\ nth_error (points (fst r)) idx = Some q
              /\ fst q == of_int rt * TIME_MIN_PRECISION
              /\ snd q == of_int rv * drag_precision s).
Proof.
  intros Hprec Hw r. unfold r, _on_m_key.
  pose proof (KeyFacts.py_max_zero x) as Hx.
  set (time0 := py_max (lit 0 0) x) in *.
  assert (Heps : @TIME_MIN_PRECISION Q _ == 1 # 1000000000000) by apply ExactFacts.eps_value.
  cbn [fdiv fmul Q_PyFloat].
  destruct (KeyFacts.py_round_exact (time0 / TIME_MIN_PRECISION)) as (rt & Ert & Hrt & Hrt0).
  destruct (KeyFacts.py_round_exact (y / drag_precision s)) as (rv & Erv & Hrv & _).
  rewrite Ert, Erv.
  assert (Hrt1 : (0 <= rt)%Z).
  { apply Hrt0. rewrite Heps. apply Qle_shift_div_l; [reflexivity|lra]. }
  set (time := of_int rt * TIME_MIN_PRECISION).
  set (value := of_int rv * drag_precision s).
  assert (Htime : 0 <= time).
  { unfold time. rewrite ViewFacts.of_int_inject, Heps.
    apply Qmult_le_0_compat; [|discriminate].
    change 0 with (inject_Z 0). now rewrite <- Zle_Qle. }
  (* the rest is the tail of add_point *)
  pose proof (SpacingFacts.add_point_at_well_spaced time value s Hw) as Hadd.
  unfold add_point_at in Hadd.
  assert (E0 : flt time (lit 0 0) = false).
  { cbn [flt lit Q_PyFloat]. q_lits. apply ExactFacts.ltb_ge. exact Htime. }
  rewrite E0 in Hadd.
  destruct (_check_time_conflict s time None) eqn:Ec.
  - cbn [fst snd]. split; [exact Hw|]. left. now split.
  - assert (Hin : In (time, value) (py_sort tuple_lt (points s ++ [(time, value)]))).
    { eapply Permutation_in; [symmetry; apply py_sort_perm|].
      apply in_or_app. right. now left. }
    destruct (StoreFacts.py_index_present _ _ Hin) as [idx Hidx].
    rewrite Hidx in Hadd |- *. cbn [fst snd] in Hadd |- *.
    split; [exact Hadd|]. right. split; [reflexivity|].
    destruct (py_index_spec _ _ _ _ Hidx) as (q & Hq & Heq).
    exists rt, rv, idx, q.
    split; [exact Hrt1|]. split; [|split; [|split; [|split; [|split; [|split]]]]].
    + (* the time snaps to the nearest step *)
      fold time. apply Qabs_Qle_condition in Hrt. apply Qabs_Qle_condition.
      unfold time. rewrite ViewFacts.of_int_inject.
      set (e := @TIME_MIN_PRECISION Q _) in *.
      assert (He : 0 < e) by (rewrite Heps; reflexivity).
      assert (Hd : time0 == time0 / e * e) by (field; lra).
      assert (H1 : (inject_Z rt - time0 / e) * e <= (1 # 2) * e)
        by (apply Qmult_le_compat_r; lra).
      assert (H2 : - (1 # 2) * e <= (inject_Z rt - time0 / e) * e)
        by (apply Qmult_le_compat_r; lra).
      assert (H3 : e / 2 == (1 # 2) * e) by field.
      rewrite H3. split; lra.
    + (* the value snaps to the nearest step *)
      rewrite ViewFacts.of_int_inject.
      set (p := drag_precision s) in *.
      assert (Hd : inject_Z rv * p - y == (inject_Z rv - y / p) * p) by (field; exact Hprec).
      rewrite Hd, Qabs_Qmult.
      assert (H3 : Qabs p / 2 == (1 # 2) * Qabs p) by field.
      rewrite H3. apply Qmult_le_compat_r; [exact Hrv|apply Qabs_nonneg].
    + cbn [points with_selection with_points]. apply py_sort_perm.
    + reflexivity.
    + reflexivity.
    + exact Hq.
    + unfold tuple_eq in Heq. cbn [feq Q_PyFloat fst snd] in Heq.
      apply andb_prop in Heq. destruct Heq as [H1 H2]. q_reflect. now split.
Qed.

Lemma m_key_adds_on_grid_witness :
  SpacingFacts.well_spaced
    (points (fst (_on_m_key (15 # 10) (1 # 3) (init_editor (F := Q) [(0, 0); (1, 1)])))).
Proof.
  refine (proj1 (m_key_adds_on_grid (15 # 10) (1 # 3)
                                    (init_editor (F := Q) [(0, 0); (1, 1)]) _ _)).
  - vm_compute. discriminate.
  - apply SpacingFacts.spacing_ok_iff. vm_compute. reflexivity.
Defined.

(* ================================================================= *)
(** ** Placement, clipboard and files *)

Section PlacementFacts.
Context {F : Type} `{PyFloat F}.

Lemma set_add_nat_in (i j : nat) (s : list nat) :
  In j (set_add_nat i s) -> j = i \/ In j s.
Proof.
  induction s as [|k s IH]; cbn [set_add_nat].
  - intros [<-|[]]. now left.
  - destruct (Nat.ltb i k); [|destruct (Nat.eqb i k)].
    + intros [<-|Hin]; [now left|now right].
    + intros Hin. now right.
    + intros [<-|Hin]; [right; now left|].
      destruct (IH Hin) as [->|Hs]; [now left|right; now right].
Qed.

Lemma find_indices_from (vals pts : list (point F)) (acc : list nat) (idx : nat) :
  In idx (fold_left (fun sel val =>
                       match py_index tuple_eq val pts with
                       | Some i => set_add_nat i sel
                       | None => sel
                       end) vals acc) ->
  In idx acc \/ exists val, In val vals /\ py_index tuple_eq val pts = Some idx.
Proof.
  revert acc. induction vals as [|v vals IH]; intros acc Hin; [now left|].
  cbn [fold_left] in Hin. apply IH in Hin. destruct Hin as [Hin|(val & Hv & Hi)].
  - destruct (py_index tuple_eq v pts) as [i|] eqn:E; [|now left].
    apply set_add_nat_in in Hin. destruct Hin as [->|Hin]; [|now left].
    right. exists v. split; [now left|exact E].
  - right. exists val. split; [now right|exact Hi].
Qed.

Lemma find_indices_spec (vals pts : list (point F)) (idx : nat) :
  In idx (find_indices vals pts) ->
  exists val q, In val vals /\ nth_error pts idx = Some q /\ tuple_eq q val = true.
Proof.
  intros Hin. apply find_indices_from in Hin. destruct Hin as [[]|(val & Hv & Hi)].
  destruct (py_index_spec _ _ _ _ Hi) as (q & Hq & Heq). now exists val, q.
Qed.

Lemma cancel_placement_fields (s : editor F) :
  points (_cancel_placement s) = points s
  /\ selected_indices (_cancel_placement s) = selected_indices s
  /\ primary_selected_index (_cancel_placement s) = primary_selected_index s
  /\ the_canvas (_cancel_placement s) = the_canvas s
  /\ placement_mode (_cancel_placement s) = false
  /\ (placement_mode s = true -> placement_data (_cancel_placement s) = []).
Proof.
  unfold _cancel_placement. destruct (placement_mode s) eqn:E; cbn.
  - repeat split; reflexivity.
  - repeat split; auto. discriminate.
Qed.

(** The points a commit at world [x] adds. *)
Definition placed (x : F) (data : list (point F)) : list (point F) :=
  map (fun tv => (fadd (py_max (lit 0 0) x) (fst tv), snd tv)) data.

Lemma placement_commit_points (x : F) (s : editor F) :
  Permutation (points (_handle_placement_commit x s))
              (points s ++ placed x (placement_data s))
  /\ placement_mode (_handle_placement_commit x s) = false.
Proof.
  unfold _handle_placement_commit.
  destruct (placement_data s) as [|d data] eqn:Ed.
  - destruct (cancel_placement_fields s) as (Hp & _ & _ & _ & Hm & _).
    rewrite Hp. cbn [placed map]. rewrite app_nil_r. now split.
  - fold (placed x (d :: data)).
    match goal with
    | |- context [_cancel_placement ?e] =>
        destruct (cancel_placement_fields e) as (Hp & _ & _ & _ & Hm & _)
    end.
    rewrite Hp. cbn [points with_selection with_points].
    split; [apply py_sort_perm|exact Hm].
Qed.

End PlacementFacts.

Lemma copies_shifted (x base : Q) (l : list (point Q)) :
  Forall2 (fun old new => fst new == fst old + (py_max (lit 0 0) x - base)
                          /\ snd new = snd old)
          l (placed x (map (fun tv => (fst tv - base, snd tv)) l)).
Proof.
  induction l as [|[t v] l IH]; cbn [map placed]; constructor; [|exact IH].
  cbn [fst snd fadd fsub Q_PyFloat]. split; [ring|reflexivity].
Qed.


(** The points [copy_selection] reads: the selected indices in range. *)
Definition selected_points {F : Type} `{PyFloat F} (s : editor F) : list (point F) :=
  flat_map (fun i => match nth_error (points s) i with
                     | Some p => [p]
                     | None => []
                     end) (selected_indices s).

(** X14.  Copy, paste and commit, in exact arithmetic.  [copy_selection]
    leaves the clipboard alone exactly when no selected index is in range;
    otherwise the clipboard holds the selected points with the first
    one's time subtracted, so that it starts at time zero.  Pasting that
    clipboard and committing at world [x] adds one copy of every selected
    point, with its value unchanged and its time moved by the same amount
    [max(0, x) - t0] as all the others, and leaves the placement mode. *)
Theorem copy_paste_commit (x : Q) (s : editor Q) :
  match copy_selection s with
  | None => selected_points s = []
  | Some clipboard =>
      exists p0 rest,
        selected_points s = p0 :: rest
        /\ clipboard = map (fun tv => (fst tv - fst p0, snd tv)) (selected_points s)
        /\ (exists c0 crest, clipboard = c0 :: crest /\ fst c0 == 0 /\ snd c0 = snd p0)
        /\ let s' := _handle_placement_commit x (paste_waveform clipboard s) in
           exists copies,
             Permutation (points s') (points s ++ copies)
             /\ Forall2 (fun old new =>
                           fst new == fst old + (py_max (lit 0 0) x - fst p0)
                           /\ snd new = snd old)
                        (selected_points s) copies
             /\ placement_mode s' = false
  end.
Proof.
  unfold copy_selection.
  destruct (selected_indices s) as [|i sel] eqn:Es.
  { cbv beta iota. unfold selected_points. now rewrite Es. }
  cbv beta iota zeta. rewrite <- Es. fold (selected_points s).
  destruct (selected_points s) as [|[t0 v0] rest] eqn:Ep; [reflexivity|].
  exists (t0, v0), rest. split; [reflexivity|]. split; [reflexivity|]. split.
  { eexists. eexists. cbn [map].
    split; [reflexivity|]. cbn [fst snd fsub Q_PyFloat]. split; [ring|reflexivity]. }
  set (clipboard := map (fun tv => (fsub (fst tv) (fst (t0, v0)), snd tv))
                        ((t0, v0) :: rest)).
  set (s' := _handle_placement_commit x (paste_waveform clipboard s)).
  destruct (placement_commit_points x (paste_waveform clipboard s)) as (Hperm & Hm).
  fold s' in Hperm, Hm.
  assert (Hpaste : points (paste_waveform clipboard s) = points s
                   /\ placement_data (paste_waveform clipboard s) = clipboard).
  { unfold clipboard. cbn [map paste_waveform points placement_data]. now split. }
  destruct Hpaste as [Hpp Hpd]. rewrite Hpp, Hpd in Hperm.
  exists (placed x clipboard). split; [exact Hperm|]. split; [|exact Hm].
  exact (copies_shifted x (fst (t0, v0)) ((t0, v0) :: rest)).
Qed.


(* ================================================================= *)
(** ** [_enforce_min_dt_for_drag]: what it leaves alone *)

Section DragFrame.
Context {F : Type} `{PyFloat F}.

Lemma mem_nat_In (i : nat) (l : list nat) : mem_nat i l = true <-> In i l.
Proof.
  unfold mem_nat. rewrite existsb_exists. split.
  - intros (j & Hj & Heq). apply Nat.eqb_eq in Heq. now subst j.
  - intros Hin. exists i. split; [exact Hin|apply Nat.eqb_refl].
Qed.

(** An entry made from point [e_index] of [pts0], one of the dragged
    indices, carrying that point's value. *)
Definition entry_of (pts0 : list (point F)) (dragged : list nat) (e : drag_entry) : Prop :=
  In (e_index e) dragged /\ exists t, nth_error pts0 (e_index e) = Some (t, e_v e).

Lemma drag_entries_of (non_times : list F) (pts0 : list (point F)) (dragged : list nat) :
  Forall (entry_of pts0 dragged) (drag_entries pts0 non_times dragged).
Proof.
  rewrite Forall_forall. intros e He. unfold drag_entries in He.
  apply in_flat_map in He. destruct He as (i & Hi & He).
  destruct (nth_error pts0 i) as [[t v]|] eqn:En; [|destruct He].
  destruct He as [<-|[]]. cbn [e_index e_v]. split; [exact Hi|]. now exists t.
Qed.

Lemma map_snd_set_nth (cur : list (point F)) (i : nat) (t t' v : F) :
  nth_error cur i = Some (t, v) -> map snd (set_nth i (t', v) cur) = map snd cur.
Proof.
  revert i. induction cur as [|p cur IH]; intros i Hn; [now destruct i|].
  destruct i as [|i]; cbn in Hn |- *.
  - injection Hn as ->. reflexivity.
  - now rewrite (IH i Hn).
Qed.

Lemma nth_error_map_snd (cur pts0 : list (point F)) (i : nat) (t v : F) :
  map snd cur = map snd pts0 -> nth_error pts0 i = Some (t, v) ->
  exists t', nth_error cur i = Some (t', v).
Proof.
  revert pts0 i. induction cur as [|[t0 v0] cur IH]; intros pts0 i Hm Hn.
  - destruct pts0; [now destruct i|discriminate Hm].
  - destruct pts0 as [|[t1 v1] pts0]; [discriminate Hm|].
    cbn [map snd] in Hm. injection Hm as Hv Hm.
    destruct i as [|i]; cbn in Hn |- *.
    + injection Hn as _ <-. subst v0. now exists t0.
    + exact (IH pts0 i Hm Hn).
Qed.

Lemma drag_adjust_frame (pts0 : list (point F)) (dragged : list nat)
      (entries : list drag_entry) (prev : option F) (cur : list (point F)) :
  Forall (entry_of pts0 dragged) entries ->
  map snd cur = map snd pts0 ->
  (forall i, mem_nat i dragged = false -> nth_error cur i = nth_error pts0 i) ->
  let out := drag_adjust_loop entries prev cur in
  map snd out = map snd pts0
  /\ (forall i, mem_nat i dragged = false -> nth_error out i = nth_error pts0 i).
Proof.
  revert prev cur. induction entries as [|e entries IH]; intros prev cur He Hv Hf.
  - cbn. now split.
  - apply Forall_cons_iff in He. destruct He as [[Hin (t & Ht)] He].
    cbn [drag_adjust_loop]. cbv zeta.
    match goal with
    | |- context [set_nth (e_index e) (?ta, e_v e) cur] => set (t_adj := ta)
    end.
    apply IH; [exact He| |].
    + destruct (nth_error_map_snd cur pts0 _ _ _ Hv Ht) as [t' Ht'].
      now rewrite (map_snd_set_nth cur _ t' t_adj _ Ht').
    + intros i Hi. rewrite StoreFacts.nth_error_set_nth_other; [now apply Hf|].
      intros Heq. rewrite Heq in Hin. apply mem_nat_In in Hin. congruence.
Qed.

End DragFrame.

(** X16.  [_enforce_min_dt_for_drag] moves dragged points only, and only
    in time: the list keeps its length, every point whose index is not
    dragged is left exactly where it was, and every point keeps its
    value. *)
Theorem enforce_min_dt_moves_dragged_only {F : Type} `{PyFloat F}
        (pts : list (point F)) (dragged_indices : list nat) :
  let out := _enforce_min_dt_for_drag pts dragged_indices in
  List.length out = List.length pts
  /\ map snd out = map snd pts
  /\ forall i, mem_nat i dragged_indices = false -> nth_error out i = nth_error pts i.
Proof.
  intros out.
  assert (Hgoal : map snd out = map snd pts
                  /\ forall i, mem_nat i dragged_indices = false
                               -> nth_error out i = nth_error pts i).
  { unfold out, _enforce_min_dt_for_drag.
    destruct dragged_indices as [|d ds] eqn:Ed; [now split|]. rewrite <- Ed.
    cbv zeta.
    apply drag_adjust_frame; [|reflexivity|reflexivity].
    eapply Permutation_Forall; [symmetry; apply py_sort_perm|].
    apply drag_entries_of.
  }
  destruct Hgoal as [Hv Hf]. split; [|split; [exact Hv|exact Hf]].
  pose proof (f_equal (@List.length _) Hv) as Hl. rewrite !length_map in Hl. exact Hl.
Qed.

(* ================================================================= *)
(** ** [_enforce_min_dt_for_drag]: the dragged points among themselves *)

Module DragFacts.

Import SpacingFacts.

(** The time the adjustment loop gives an entry, after [prev_adj]. *)
Definition adjusted (e : drag_entry (F := Q)) (prev_adj : option Q) : Q :=
  let t_adj := py_max (e_t e) (e_low e) in
  let t_adj :=
    match prev_adj with
    | Some pa => py_max t_adj (fadd pa TIME_MIN_PRECISION)
    | None => t_adj
    end in
  let t_adj :=
    match e_high e with
    | Some high =>
        if flt high t_adj then
          let t_adj := high in
          match prev_adj with
          | Some pa =>
              if flt t_adj (fadd pa TIME_MIN_PRECISION)
              then fadd pa TIME_MIN_PRECISION else t_adj
          | None => t_adj
          end
        else t_adj
    | None => t_adj
    end in
  if flt t_adj (lit 0 0) then lit 0 0 else t_adj.

Lemma drag_adjust_loop_cons (e : drag_entry) (rest : list drag_entry) (prev : option Q)
      (cur : list (point Q)) :
  drag_adjust_loop (e :: rest) prev cur
  = drag_adjust_loop rest (Some (adjusted e prev))
                     (set_nth (e_index e) (adjusted e prev, e_v e) cur).
Proof. reflexivity. Qed.

Lemma py_max_ge (a b : Q) : a <= py_max a b /\ b <= py_max a b.
Proof.
  unfold py_max. cbn [flt Q_PyFloat].
  destruct (Exact.ltb a b) eqn:E; q_reflect; split; lra.
Qed.

Lemma adjusted_bounds (e : drag_entry) (prev : option Q) :
  0 <= adjusted e prev
  /\ forall pa, prev = Some pa -> pa + eps <= adjusted e prev.
Proof.
  unfold adjusted. cbv zeta.
  set (t1 := py_max (e_t e) (e_low e)).
  set (t2 := match prev with
             | Some pa => py_max t1 (fadd pa TIME_MIN_PRECISION)
             | None => t1
             end).
  assert (H2 : forall pa, prev = Some pa -> pa + eps <= t2).
  { intros pa ->. unfold t2. apply (py_max_ge t1 (pa + eps)). }
  set (t3 := match e_high e with
             | Some high =>
                 if flt high t2 then
                   match prev with
                   | Some pa =>
                       if flt high (fadd pa TIME_MIN_PRECISION)
                       then fadd pa TIME_MIN_PRECISION else high
                   | None => high
                   end
                 else t2
             | None => t2
             end).
  assert (H3 : forall pa, prev = Some pa -> pa + eps <= t3).
  { intros pa Hpa. specialize (H2 pa Hpa). unfold t3.
    destruct (e_high e) as [high|]; [|exact H2].
    destruct (flt high t2); [|exact H2]. rewrite Hpa.
    change (fadd pa TIME_MIN_PRECISION) with (pa + eps).
    cbn [flt Q_PyFloat]. destruct (Exact.ltb high (pa + eps)) eqn:E; q_reflect; lra. }
  cbn [flt lit Q_PyFloat]. q_lits.
  destruct (Exact.ltb t3 0) eqn:E; q_reflect.
  - split; [lra|]. intros pa Hpa. specialize (H3 pa Hpa). lra.
  - split; [exact E|exact H3].
Qed.

(** What holds of the points set so far: they are at non-negative times
    not after [prev_adj], and pairwise one step apart. *)
Definition settled_so_far (T : nat -> Prop) (prev : option Q) (cur : list (point Q)) : Prop :=
  (forall i p, T i -> nth_error cur i = Some p ->
               0 <= fst p /\ exists pa, prev = Some pa /\ fst p <= pa)
  /\ (forall i j p q, T i -> T j -> i <> j ->
                      nth_error cur i = Some p -> nth_error cur j = Some q -> far p q).

Lemma nth_error_set_nth_cases {A : Type} (l : list A) (i j : nat) (x y : A) :
  nth_error (set_nth i x l) j = Some y ->
  (j = i /\ y = x) \/ (j <> i /\ nth_error l j = Some y).
Proof.
  intros Hn. destruct (Nat.eq_dec j i) as [->|Hne].
  - left. split; [reflexivity|].
    destruct (nth_error l i) as [z|] eqn:E.
    + rewrite (StoreFacts.nth_error_set_nth_same l i x z E) in Hn. congruence.
    + exfalso. apply nth_error_None in E.
      assert (Hl : nth_error (set_nth i x l) i <> None) by congruence.
      apply nth_error_Some in Hl. rewrite StoreFacts.set_nth_length in Hl. lia.
  - right. split; [exact Hne|].
    rewrite StoreFacts.nth_error_set_nth_other in Hn by congruence. exact Hn.
Qed.

Lemma settled_step (T : nat -> Prop) (prev : option Q) (cur : list (point Q))
      (e : drag_entry) :
  settled_so_far T prev cur ->
  settled_so_far (fun i => T i \/ i = e_index e) (Some (adjusted e prev))
                 (set_nth (e_index e) (adjusted e prev, e_v e) cur).
Proof.
  intros [Ha Hb]. destruct (adjusted_bounds e prev) as [H0 Hp].
  set (a := adjusted e prev) in *.
  assert (Hold : forall i p, T i -> nth_error cur i = Some p -> fst p + eps <= a).
  { intros i p Hi Hn. destruct (Ha i p Hi Hn) as (_ & pa & Epa & Hle).
    specialize (Hp pa Epa). lra. }
  split.
  - intros i p Hi Hn. apply nth_error_set_nth_cases in Hn.
    destruct Hn as [[-> ->]|[Hne Hn]].
    + cbn [fst]. split; [exact H0|]. exists a. split; [reflexivity|apply Qle_refl].
    + destruct Hi as [Hi|Hi]; [|congruence].
      destruct (Ha i p Hi Hn) as [Hp0 _]. split; [exact Hp0|].
      exists a. split; [reflexivity|]. specialize (Hold i p Hi Hn). unfold eps in Hold. lra.
  - intros i j p q Hi Hj Hij Hni Hnj.
    apply nth_error_set_nth_cases in Hni. apply nth_error_set_nth_cases in Hnj.
    destruct Hni as [[-> ->]|[Hnei Hni]]; destruct Hnj as [[-> ->]|[Hnej Hnj]].
    + congruence.
    + destruct Hj as [Hj|Hj]; [|congruence].
      right. unfold gap. cbn [fst]. exact (Hold j q Hj Hnj).
    + destruct Hi as [Hi|Hi]; [|congruence].
      left. unfold gap. cbn [fst]. exact (Hold i p Hi Hni).
    + destruct Hi as [Hi|Hi]; [|congruence]. destruct Hj as [Hj|Hj]; [|congruence].
      exact (Hb i j p q Hi Hj Hij Hni Hnj).
Qed.

Lemma drag_adjust_settled (entries : list drag_entry) (T : nat -> Prop) (prev : option Q)
      (cur : list (point Q)) :
  settled_so_far T prev cur ->
  exists last,
    settled_so_far (fun i => T i \/ In i (map e_index entries)) last
                   (drag_adjust_loop entries prev cur).
Proof.
  revert T prev cur. induction entries as [|e entries IH]; intros T prev cur Hs.
  - exists prev. destruct Hs as [Ha Hb]. split.
    + intros i p [Hi|[]]. now apply Ha.
    + intros i j p q [Hi|[]] [Hj|[]]. now apply Hb.
  - rewrite drag_adjust_loop_cons.
    destruct (IH _ _ _ (settled_step T prev cur e Hs)) as [last [Ha Hb]].
    exists last. split.
    + intros i p Hi. apply Ha. cbn [map In] in Hi.
      destruct Hi as [Hi|[Hi|Hi]]; [left; now left|left; now right|now right].
    + intros i j p q Hi Hj. apply Hb; cbn [map In] in Hi, Hj.
      * destruct Hi as [Hi|[Hi|Hi]]; [left; now left|left; now right|now right].
      * destruct Hj as [Hj|[Hj|Hj]]; [left; now left|left; now right|now right].
Qed.

Lemma entry_indices (pts : list (point Q)) (non_times : list Q) (dragged : list nat)
      (i : nat) (p : point Q) :
  In i dragged -> nth_error pts i = Some p ->
  In i (map e_index (drag_entries pts non_times dragged)).
Proof.
  intros Hi Hn. apply in_map_iff. unfold drag_entries.
  destruct p as [t v].
  eexists. split; [|apply in_flat_map; exists i; split; [exact Hi|]; rewrite Hn; now left].
  reflexivity.
Qed.

End DragFacts.

(** X17.  In exact arithmetic, after [_enforce_min_dt_for_drag] every
    dragged point is at a non-negative time, and any two dragged points
    are at least [TIME_MIN_PRECISION] apart in time. *)
Theorem dragged_points_spaced (pts : list (point Q)) (dragged_indices : list nat) :
  let out := _enforce_min_dt_for_drag pts dragged_indices in
  (forall i p, In i dragged_indices -> nth_error out i = Some p -> 0 <= fst p)
  /\ (forall i j p q,
         In i dragged_indices -> In j dragged_indices -> i <> j ->
         nth_error out i = Some p -> nth_error out j = Some q ->
         fst p + TIME_MIN_PRECISION <= fst q \/ fst q + TIME_MIN_PRECISION <= fst p).
Proof.
  intros out.
  assert (Hlen : List.length out = List.length pts).
  { unfold out, _enforce_min_dt_for_drag.
    destruct dragged_indices as [|d ds] eqn:Ed; [reflexivity|]. rewrite <- Ed. cbv zeta.
    match goal with
    | |- context [drag_adjust_loop ?es None pts] =>
        assert (He : Forall (entry_of pts dragged_indices) es)
    end.
    { eapply Permutation_Forall; [symmetry; apply py_sort_perm|]. apply drag_entries_of. }
    destruct (drag_adjust_frame pts dragged_indices _ None pts He eq_refl
                                (fun i _ => eq_refl)) as [Hv _].
    pose proof (f_equal (@List.length _) Hv) as Hl. rewrite !length_map in Hl. exact Hl. }
  assert (Hin : forall i p, In i dragged_indices -> nth_error out i = Some p ->
                            exists p0, nth_error pts i = Some p0).
  { intros i p _ Hn.
    assert (Hlt : (i < List.length pts)%nat).
    { rewrite <- Hlen. apply nth_error_Some. congruence. }
    apply nth_error_Some in Hlt. destruct (nth_error pts i) as [p0|]; [now exists p0|congruence]. }
  revert Hin. unfold out, _enforce_min_dt_for_drag.
  destruct dragged_indices as [|d ds] eqn:Ed.
  { intros _. split; [intros i p []|intros i j p q []]. }
  rewrite <- Ed. cbv zeta. intros Hin.
  match goal with
  | |- context [drag_adjust_loop (py_sort ?lt (drag_entries pts ?nt dragged_indices)) None pts] =>
      set (non_times := nt);
      set (entries := py_sort lt (drag_entries pts nt dragged_indices))
  end.
  assert (Hidx : forall i p0, In i dragged_indices -> nth_error pts i = Some p0 ->
                              In i (map e_index entries)).
  { intros i p0 Hi Hn.
    eapply Permutation_in;
      [apply Permutation_map; symmetry; apply py_sort_perm|].
    exact (DragFacts.entry_indices pts non_times dragged_indices i p0 Hi Hn). }
  assert (H0 : DragFacts.settled_so_far (fun _ => False) None pts).
  { split; [intros i p []|intros i j p q []]. }
  destruct (DragFacts.drag_adjust_settled entries _ None pts H0) as [last [Ha Hb]].
  split.
  - intros i p Hi Hn. destruct (Hin i p Hi Hn) as [p0 Hp0].
    apply (Ha i p); [right; exact (Hidx i p0 Hi Hp0)|exact Hn].
  - intros i j p q Hi Hj Hij Hni Hnj.
    destruct (Hin i p Hi Hni) as [p0 Hp0]. destruct (Hin j q Hj Hnj) as [q0 Hq0].
    assert (Hf : SpacingFacts.far p q).
    { apply (Hb i j p q); [right; exact (Hidx i p0 Hi Hp0)
                          |right; exact (Hidx j q0 Hj Hq0)|exact Hij|exact Hni|exact Hnj]. }
    pose proof ExactFacts.eps_value as He.
    unfold SpacingFacts.far, SpacingFacts.gap, SpacingFacts.eps in Hf.
    destruct Hf as [Hf|Hf]; [left|right]; rewrite He; exact Hf.
Qed.

(* ================================================================= *)
(** ** Fit to view shows the Waveform (exact arithmetic) *)

Module ShowFacts.

Lemma list_min_all (l : list Q) (x : Q) :
  list_min x l <= x /\ forall y, In y l -> list_min x l <= y.
Proof.
  unfold list_min. revert x. induction l as [|a l IH]; intros x; cbn [fold_left].
  - split; [apply Qle_refl|intros y []].
  - match goal with |- context [if ?b then _ else _] => destruct b eqn:E end;
      cbn [flt Q_PyFloat] in E; q_reflect.
    + destruct (IH a) as [H1 H2]. split; [lra|].
      intros y [<-|Hy]; [exact H1|now apply H2].
    + destruct (IH x) as [H1 H2]. split; [exact H1|].
      intros y [<-|Hy]; [lra|now apply H2].
Qed.

Lemma list_max_all (l : list Q) (x : Q) :
  x <= list_max x l /\ forall y, In y l -> y <= list_max x l.
Proof.
  unfold list_max. revert x. induction l as [|a l IH]; intros x; cbn [fold_left].
  - split; [apply Qle_refl|intros y []].
  - match goal with |- context [if ?b then _ else _] => destruct b eqn:E end;
      cbn [flt Q_PyFloat] in E; q_reflect.
    + destruct (IH a) as [H1 H2]. split; [lra|].
      intros y [<-|Hy]; [exact H1|now apply H2].
    + destruct (IH x) as [H1 H2]. split; [exact H1|].
      intros y [<-|Hy]; [lra|now apply H2].
Qed.

(** The padding is positive whatever the points. *)
Lemma fit_range_pos (lo hi : Q) :
  0 < (if Exact.ltb lo hi then hi - lo else py_max (Qabs hi) (Exact.lit 1 0)).
Proof.
  destruct (Exact.ltb lo hi) eqn:E; q_reflect; [lra|].
  unfold py_max. cbn [flt Q_PyFloat]. q_lits.
  destruct (Exact.ltb (Qabs hi) 1) eqn:E'; q_reflect; lra.
Qed.

(** On a viewport that starts left of zero and ends right of [1e-15] the
    clamp keeps the right edge and keeps the left edge at or left of
    zero. *)
Lemma enforce_limit_wide (c : canvas Q) :
  x_min c < 0 -> 1 # 1000000000000000 < x_max c ->
  let c' := _enforce_negative_axis_limit c in
  x_max c' = x_max c /\ x_min c' < 0
  /\ y_min c' = y_min c /\ y_max c' = y_max c.
Proof.
  intros Hlo Hhi. unfold _enforce_negative_axis_limit. simpl.
  q_lits.
  let v := eval vm_compute in ((5 # 100) / (95 # 100)) in
  change ((5 # 100) / (95 # 100)) with v.
  case_tests; q_reflect;
    first [exfalso; lra | split; [reflexivity|split; [lra|split; reflexivity]]].
Qed.

End ShowFacts.

(** X18.  In exact arithmetic, when some point lies later than [1e-15],
    fit-to-view leaves every point at a non-negative time strictly inside
    the viewport, in time and in value. *)
Theorem zoom_shows_all_points (s : editor Q) :
  (exists q, In q (points s) /\ Exact.lit 1 (-15) < fst q) ->
  let c' := the_canvas (zoom_to_all_points s) in
  forall p, In p (points s) -> 0 <= fst p ->
            x_min c' < fst p /\ fst p < x_max c'
            /\ y_min c' < snd p /\ snd p < y_max c'.
Proof.
  intros (q & Hq & Hbig) c'. unfold c', zoom_to_all_points.
  destruct (points s) as [|p0 rest] eqn:Ep; [destruct Hq|].
  cbv zeta.
  set (times := map fst rest ++ [lit 0 0]).
  set (values := map snd rest).
  destruct (ShowFacts.list_min_all times (fst p0)) as [Hmin0 Hmin].
  destruct (ShowFacts.list_max_all times (fst p0)) as [Hmax0 Hmax].
  destruct (ShowFacts.list_min_all values (snd p0)) as [Hvmin0 Hvmin].
  destruct (ShowFacts.list_max_all values (snd p0)) as [Hvmax0 Hvmax].
  set (xmin := list_min (fst p0) times) in *.
  set (xmax := list_max (fst p0) times) in *.
  set (ymin := list_min (snd p0) values) in *.
  set (ymax := list_max (snd p0) values) in *.
  cbn [flt fsub fadd fmul fabs lit Q_PyFloat].
  pose proof (ShowFacts.fit_range_pos xmin xmax) as Hxr.
  pose proof (ShowFacts.fit_range_pos ymin ymax) as Hyr.
  set (x_range := if Exact.ltb xmin xmax then xmax - xmin
                  else py_max (Qabs xmax) (Exact.lit 1 0)) in *.
  set (y_range := if Exact.ltb ymin ymax then ymax - ymin
                  else py_max (Qabs ymax) (Exact.lit 1 0)) in *.
  q_lits.
  assert (Hzero : In (lit 0 0) times) by (apply in_or_app; right; now left).
  assert (Hx0 : xmin <= 0) by (apply (Hmin _ Hzero)).
  assert (Htimes : forall p, In p (p0 :: rest) -> xmin <= fst p /\ fst p <= xmax).
  { intros p [<-|Hp]; [now split|].
    assert (Hin : In (fst p) times) by (apply in_or_app; left; now apply in_map).
    split; [now apply Hmin|now apply Hmax]. }
  assert (Hvalues : forall p, In p (p0 :: rest) -> ymin <= snd p /\ snd p <= ymax).
  { intros p [<-|Hp]; [now split|].
    assert (Hin : In (snd p) values) by now apply in_map.
    split; [now apply Hvmin|now apply Hvmax]. }
  assert (Hxbig : 1 # 1000000000000000 < xmax).
  { destruct (Htimes q Hq) as [_ Hle]. q_lits. lra. }
  match goal with
  | |- context [_enforce_negative_axis_limit ?c0] =>
      destruct (ShowFacts.enforce_limit_wide c0) as (Ex & En & Ey1 & Ey2);
      [cbn [set_x set_y x_min x_max]; lra
      |cbn [set_x set_y x_min x_max]; lra|]
  end.
  cbn [the_canvas with_canvas].
  intros p Hp Hp0.
  rewrite Ex, Ey1, Ey2. cbn [set_x set_y x_min x_max y_min y_max].
  destruct (Htimes p Hp) as [_ Ht]. destruct (Hvalues p Hp) as [Hv1 Hv2].
  split; [lra|]. split; [lra|]. split; lra.
Qed.

Lemma zoom_shows_all_points_witness :
  x_min (the_canvas (zoom_to_all_points (init_editor (F := Q) [(0, 0); (1, 10); (2, -10)])))
  < 1.
Proof.
  refine (proj1 (zoom_shows_all_points
                   (init_editor (F := Q) [(0, 0); (1, 10); (2, -10)]) _ (1, 10) _ _)).
  - exists (1, 10). split; [right; now left|reflexivity].
  - right. now left.
  - discriminate.
Defined.

(* ================================================================= *)
(** ** Preview decimation: what is kept *)

(** [s] is [l] with some elements left out. *)
Inductive subseq {A : Type} : list A -> list A -> Prop :=
| subseq_nil : subseq [] []
| subseq_skip (x : A) (s l : list A) : subseq s l -> subseq s (x :: l)
| subseq_take (x : A) (s l : list A) : subseq s l -> subseq (x :: s) (x :: l).

Lemma subseq_nil_l {A : Type} (l : list A) : subseq [] l.
Proof. induction l; constructor; assumption. Qed.

Section DecimationFacts.
Context {F : Type} `{PyFloat F}.

(** The test that lets [q] in after [p] was kept. *)
Definition far_enough (c : canvas F) (step : Z) (p q : point F) : bool :=
  fle (of_int step)
      (fabs (fsub (fst (world_to_screen c (fst q) (snd q)))
                  (fst (world_to_screen c (fst p) (snd p))))).

(** Every element passes the test against the one before it, the first
    against [prev] if there is one. *)
Fixpoint chain_from (c : canvas F) (step : Z) (prev : option (point F))
         (l : list (point F)) : Prop :=
  match l with
  | [] => True
  | q :: rest =>
      match prev with
      | Some p => far_enough c step p q = true
      | None => True
      end /\ chain_from c step (Some q) rest
  end.

Lemma decimate_loop_cons (c : canvas F) (step : Z) (p : point F) (rest dec : list (point F))
      (last_sx : option F) :
  decimate_loop c step (p :: rest) dec last_sx
  = let sx := fst (world_to_screen c (fst p) (snd p)) in
    let keep := match last_sx with
                | None => true
                | Some l => fle (of_int step) (fabs (fsub sx l))
                end in
    let dec' := if keep then p :: dec else dec in
    let last' := if keep then Some sx else last_sx in
    if Nat.ltb (_max_preview_points c) (List.length dec') then rev dec'
    else decimate_loop c step rest dec' last'.
Proof.
  destruct p as [t v]. cbn [decimate_loop fst snd].
  destruct (world_to_screen c t v) as [sx sy]. reflexivity.
Qed.

Lemma decimate_loop_kept (c : canvas F) (step : Z) (line dec : list (point F))
      (last_sx : option F) :
  last_sx = option_map (fun p => fst (world_to_screen c (fst p) (snd p))) (hd_error dec) ->
  exists kept,
    decimate_loop c step line dec last_sx = rev dec ++ kept
    /\ subseq kept line
    /\ chain_from c step (hd_error dec) kept
    /\ (dec = [] -> forall p rest, line = p :: rest -> exists r, kept = p :: r).
Proof.
  revert dec last_sx. induction line as [|p line IH]; intros dec last_sx Hl.
  - exists []. cbn [decimate_loop]. rewrite app_nil_r.
    split; [reflexivity|]. split; [constructor|]. split; [exact I|]. discriminate.
  - rewrite decimate_loop_cons. cbv zeta.
    set (sx := fst (world_to_screen c (fst p) (snd p))).
    destruct (match last_sx with
              | None => true
              | Some l => fle (of_int step) (fabs (fsub sx l))
              end) eqn:Ekeep.
    + (* the point is kept *)
      assert (Hstep : match hd_error dec with
                      | Some p0 => far_enough c step p0 p = true
                      | None => True
                      end).
      { destruct dec as [|p0 dec']; [exact I|]. cbn [hd_error option_map] in Hl |- *.
        subst last_sx. exact Ekeep. }
      destruct (Nat.ltb (_max_preview_points c) (List.length (p :: dec))).
      * exists [p]. cbn [rev]. split; [reflexivity|].
        split; [constructor; apply subseq_nil_l|].
        split; [cbn [chain_from]; split; [exact Hstep|exact I]|].
        intros _ p' rest' Heq. injection Heq as <- _. now exists [].
      * destruct (IH (p :: dec) (Some sx) eq_refl) as (kept & Hk & Hs & Hc & _).
        exists (p :: kept). cbn [rev] in Hk. rewrite <- app_assoc in Hk.
        split; [exact Hk|]. split; [now constructor|].
        split; [cbn [chain_from]; split; [exact Hstep|exact Hc]|].
        intros _ p' rest' Heq. injection Heq as <- _. now exists kept.
    + (* the point is dropped: something was kept before *)
      assert (Hne : dec <> []).
      { intros ->. cbn in Hl. subst last_sx. discriminate Ekeep. }
      destruct (Nat.ltb (_max_preview_points c) (List.length dec)).
      * exists []. rewrite app_nil_r. split; [reflexivity|].
        split; [apply subseq_nil_l|]. split; [exact I|]. intros Hd. contradiction.
      * destruct (IH dec last_sx Hl) as (kept & Hk & Hs & Hc & _).
        exists kept. split; [exact Hk|]. split; [now constructor|].
        split; [exact Hc|]. intros Hd. contradiction.
Qed.

Lemma chain_from_none (c : canvas F) (step : Z) (prev : option (point F)) (l : list (point F)) :
  chain_from c step prev l -> chain_from c step None l.
Proof. destruct l as [|q l]; [trivial|]. cbn [chain_from]. intros [_ Hc]. now split. Qed.

Lemma chain_from_nth (c : canvas F) (step : Z) (l : list (point F)) (prev : option (point F)) :
  chain_from c step prev l ->
  forall i p q, nth_error l i = Some p -> nth_error l (S i) = Some q ->
                far_enough c step p q = true.
Proof.
  revert prev. induction l as [|x l IH]; intros prev Hc i p q Hp Hq; [now destruct i|].
  cbn [chain_from] in Hc. destruct Hc as [_ Hc].
  destruct i as [|i]; cbn in Hp, Hq.
  - injection Hp as ->. destruct l as [|y l]; [discriminate|].
    cbn in Hq. injection Hq as ->. cbn [chain_from] in Hc. exact (proj1 Hc).
  - exact (IH _ Hc i p q Hp Hq).
Qed.

End DecimationFacts.

(** X19.  The decimated preview is the candidate line with some points
    left out, in the same order; it starts with the line's first point;
    and each point kept after the first is at least [max(1,
    _lod_pixel_step)] pixels, in screen X, from the one kept before it. *)
Theorem decimation_keeps_spaced_subsequence {F : Type} `{PyFloat F}
        (c : canvas F) (line : list (point F)) :
  let out := decimate_preview c line in
  subseq out line
  /\ (forall p rest, line = p :: rest -> exists r, out = p :: r)
  /\ forall i p q, nth_error out i = Some p -> nth_error out (S i) = Some q ->
                   far_enough c (Z.max 1 (_lod_pixel_step c)) p q = true.
Proof.
  intros out. unfold out, decimate_preview.
  destruct (decimate_loop_kept c (Z.max 1 (_lod_pixel_step c)) line [] None eq_refl)
    as (kept & Hk & Hs & Hc & Hfirst).
  rewrite Hk. cbn [rev app].
  split; [exact Hs|]. split; [exact (Hfirst eq_refl)|].
  exact (chain_from_nth c _ kept _ Hc).
Qed.

(* ================================================================= *)
(** ** The generator: levels, termination, order *)

Section WaveLevels.
Context {F : Type} `{PyFloat F}.

(** The sample is at one of the two levels [offset - amp], [offset + amp]. *)
Definition at_level (a off : F) (p : point F) : Prop :=
  snd p = fsub off a \/ snd p = fadd off a.

(** The last step of [_wave_params_to_points]: sort by time, then shift so
    that the first time is zero. *)
Definition normalised (raw : list (point F)) : list (point F) :=
  match py_sort key_lt raw with
  | [] => []
  | (s0, _) :: _ => map (fun tv => (fsub (fst tv) s0, snd tv)) (py_sort key_lt raw)
  end.

Lemma normalised_eq (raw : list (point F)) :
  match py_sort key_lt raw with
  | [] => Some []
  | (s0, _) :: _ => Some (map (fun tv => (fsub (fst tv) s0, snd tv)) (py_sort key_lt raw))
  end = Some (normalised raw).
Proof.
  unfold normalised. destruct (py_sort key_lt raw) as [|[s0 v0] l]; reflexivity.
Qed.

Lemma normalised_values (raw : list (point F)) :
  Permutation (map snd (normalised raw)) (map snd raw).
Proof.
  unfold normalised. pose proof (py_sort_perm key_lt raw) as Hp.
  destruct (py_sort key_lt raw) as [|[s0 v0] l].
  - apply Permutation_nil in Hp. now subst raw.
  - rewrite map_map. cbn [snd]. now apply Permutation_map.
Qed.

Lemma normalised_levels (a off : F) (raw : list (point F)) :
  Forall (at_level a off) raw -> Forall (at_level a off) (normalised raw).
Proof.
  intros Hr.
  assert (Hv : Forall (fun v => v = fsub off a \/ v = fadd off a) (map snd (normalised raw))).
  { eapply Permutation_Forall; [symmetry; apply normalised_values|].
    apply Forall_map. exact Hr. }
  apply Forall_map in Hv. exact Hv.
Qed.

Lemma Forall_app_intro {A : Type} (P : A -> Prop) (l1 l2 : list A) :
  Forall P l1 -> Forall P l2 -> Forall P (l1 ++ l2).
Proof. intros H1 H2. apply Forall_app. now split. Qed.

Ltac emitted :=
  repeat first
    [ assumption
    | apply Forall_nil
    | apply Forall_cons; [first [left; reflexivity | right; reflexivity]|]
    | apply Forall_app_intro
    | match goal with |- Forall _ (if ?b then _ else _) => destruct b end ].

Lemma square_loop_levels (fuel : nat) :
  forall (t per a off dur rise fall high : F) (pts : list (point F)),
    square_loop fuel t per a off dur rise fall high = Some pts ->
    Forall (at_level a off) pts.
Proof.
  induction fuel as [|fuel IH]; intros t per a off dur rise fall high pts; cbn [square_loop];
    [discriminate|].
  destruct (flt t (fsub dur (lit 1 (-15)))); [|intros [= <-]; constructor].
  cbv zeta.
  destruct (square_loop fuel (fadd t per) per a off dur rise fall high) as [rest|] eqn:E;
    [|discriminate].
  intros [= <-]. specialize (IH _ _ _ _ _ _ _ _ _ E).
  emitted.
Qed.

Lemma triangle_loop_levels (fuel : nat) :
  forall (t per a off dur rise : F) (pts : list (point F)),
    triangle_loop fuel t per a off dur rise = Some pts ->
    Forall (at_level a off) pts.
Proof.
  induction fuel as [|fuel IH]; intros t per a off dur rise pts; cbn [triangle_loop];
    [discriminate|].
  destruct (flt t (fsub dur (lit 1 (-15)))); [|intros [= <-]; constructor].
  cbv zeta.
  destruct (triangle_loop fuel (fadd t per) per a off dur rise) as [rest|] eqn:E;
    [|discriminate].
  intros [= <-]. specialize (IH _ _ _ _ _ _ _ E).
  emitted.
Qed.

End WaveLevels.

Ltac finish_normalised raw :=
  match goal with
  | |- match ?X with _ => _ end =>
      replace X with (Some (normalised raw)) by (symmetry; apply normalised_eq)
  end.

(** X20.  Whatever the parameters, the square and the triangle generators
    emit samples at two levels only, [offset - amp] and [offset + amp]
    with the defaults [amp = 1.0] and [offset = 0.0] for [None]; and a wave
    type other than the three known ones gives the empty list at once. *)
Theorem square_triangle_levels {F : Type} `{PyFloat F}
        (math_sin : F -> F) (math_pi : F) (fuel : nat) (wave_type : string)
        (p : wave_params) :
  match _wave_params_to_points math_sin math_pi fuel wave_type p with
  | Some pts =>
      (wave_type = "square"%string \/ wave_type = "triangle"%string ->
       Forall (at_level (or_default (amp p) (lit 1 0)) (or_default (offset p) (lit 0 0))) pts)
      /\ (wave_type <> "sine"%string -> wave_type <> "square"%string ->
          wave_type <> "triangle"%string -> pts = [])
  | None => wave_type = "sine"%string \/ wave_type = "square"%string
            \/ wave_type = "triangle"%string
  end.
Proof.
  unfold _wave_params_to_points. cbv zeta.
  destruct (String.eqb_spec wave_type "sine") as [Es|Es].
  { match goal with
    | |- match match ?l with _ => _ end with _ => _ end => destruct l as [raw|]
    end; [|now left].
    finish_normalised raw. subst wave_type.
    split; [intros [E|E]; discriminate E|]. intros E. now elim E. }
  destruct (String.eqb_spec wave_type "square") as [Eq|Eq].
  { match goal with
    | |- context [square_loop fuel ?t ?per ?a ?off ?dur _ _ _] =>
        set (a0 := a); set (off0 := off)
    end.
    match goal with
    | |- match match ?l with _ => _ end with _ => _ end => destruct l as [raw|] eqn:El
    end; [|right; now left].
    finish_normalised raw. split; [|intros _ E; now elim E].
    intros _. apply normalised_levels.
    destruct (fle _ _) in El; exact (square_loop_levels _ _ _ _ _ _ _ _ _ _ El). }
  destruct (String.eqb_spec wave_type "triangle") as [Et|Et].
  { match goal with
    | |- match match ?l with _ => _ end with _ => _ end => destruct l as [raw|] eqn:El
    end; [|right; now right].
    finish_normalised raw. split; [|intros _ _ E; now elim E].
    intros _. apply normalised_levels.
    exact (triangle_loop_levels _ _ _ _ _ _ _ _ El). }
  cbn [py_sort fold_right]. split; [|reflexivity].
  intros [E|E]; contradiction.
Qed.

(** Times do not decrease from [p] to [q]. *)
Definition time_le (p q : point Q) : Prop := fst p <= fst q.

Module WaveFacts.

Lemma insert_sorted_time (x : point Q) (l : list (point Q)) :
  StronglySorted time_le l -> StronglySorted time_le (insert_sorted key_lt x l).
Proof.
  induction l as [|y l IH]; intros Hs; cbn [insert_sorted].
  - constructor; constructor.
  - apply StronglySorted_inv in Hs. destruct Hs as [Hs Hall].
    unfold key_lt at 1. cbn [flt Q_PyFloat].
    destruct (Exact.ltb (fst y) (fst x)) eqn:E; q_reflect.
    + constructor; [now apply IH|].
      eapply Permutation_Forall; [symmetry; apply insert_sorted_perm|].
      constructor; [unfold time_le; lra|exact Hall].
    + constructor; [now constructor|].
      constructor; [exact E|]. eapply Forall_impl; [|exact Hall].
      intros z Hz. unfold time_le in *. lra.
Qed.

Lemma py_sort_time (l : list (point Q)) : StronglySorted time_le (py_sort key_lt l).
Proof.
  induction l as [|x l IH]; [constructor|].
  change (py_sort key_lt (x :: l)) with (insert_sorted key_lt x (py_sort key_lt l)).
  now apply insert_sorted_time.
Qed.

Lemma shift_sorted (s0 : Q) (l : list (point Q)) :
  StronglySorted time_le l ->
  StronglySorted time_le (map (fun tv => (fst tv - s0, snd tv)) l).
Proof.
  induction 1 as [|x l Hs IH Hall]; cbn [map]; constructor; [exact IH|].
  apply Forall_map. eapply Forall_impl; [|exact Hall].
  intros y Hy. unfold time_le in *. cbn [fst]. lra.
Qed.

Lemma normalised_order (raw : list (point Q)) :
  StronglySorted time_le (normalised raw)
  /\ Forall (fun q => 0 <= fst q) (normalised raw)
  /\ (forall q rest, normalised raw = q :: rest -> fst q == 0)
  /\ (raw <> [] -> normalised raw <> []).
Proof.
  unfold normalised. pose proof (py_sort_time raw) as Hs.
  pose proof (py_sort_perm key_lt raw) as Hp.
  destruct (py_sort key_lt raw) as [|[s0 v0] l].
  - split; [constructor|]. split; [constructor|]. split; [discriminate|].
    intros Hne. apply Permutation_nil in Hp. contradiction.
  - split; [now apply (shift_sorted s0)|].
    apply StronglySorted_inv in Hs. destruct Hs as [_ Hall].
    split; [|split; [|discriminate]].
    + cbn [map fsub Q_PyFloat fst snd]. constructor; [cbn [fst]; lra|].
      apply Forall_map. eapply Forall_impl; [|exact Hall].
      intros y Hy. unfold time_le in Hy. cbn [fst] in *. lra.
    + cbn [map fsub Q_PyFloat fst snd]. intros q rest [= <- _]. cbn [fst]. ring.
Qed.

(** Enough steps of a positive size pass any bound. *)
Lemma steps_exist (x dt : Q) : 0 < dt -> exists k : nat, x < inject_Z (Z.of_nat k) * dt.
Proof.
  intros Hdt. set (r := x / dt).
  assert (Hx : x == r * dt) by (unfold r; field; lra).
  set (z := Z.max 0 (Qceiling r + 1)).
  exists (Z.to_nat z). rewrite Z2Nat.id by (unfold z; lia).
  assert (Hz : r < inject_Z z).
  { apply Qle_lt_trans with (inject_Z (Qceiling r)); [apply Qle_ceiling|].
    rewrite <- Zlt_Qlt. unfold z. lia. }
  rewrite Hx. apply Qmult_lt_r; assumption.
Qed.

Lemma next_step (k : nat) (t dt : Q) :
  t + inject_Z (Z.of_nat (S k)) * dt == t + dt + inject_Z (Z.of_nat k) * dt.
Proof. rewrite Nat2Z.inj_succ. unfold Z.succ. rewrite inject_Z_plus. ring. Qed.

Section Loops.
Variable math_sin : Q -> Q.
Variable math_pi : Q.

Lemma sine_loop_ends (dt per a off dur : Q) (k : nat) :
  forall t, dur + lit 1 (-15) < t + inject_Z (Z.of_nat k) * dt ->
            exists raw, forall fuel, (k < fuel)%nat ->
                          sine_loop math_sin math_pi fuel t dt per a off dur = Some raw.
Proof.
  induction k as [|k IH]; intros t Hk.
  - exists []. intros [|fuel] Hf; [lia|]. cbn [sine_loop fle fadd Q_PyFloat].
    destruct (Qle_bool t (dur + lit 1 (-15))) eqn:E; [|reflexivity].
    q_reflect. change (inject_Z (Z.of_nat 0)) with 0 in Hk. lra.
  - rewrite next_step in Hk. destruct (IH _ Hk) as [rest Hrest].
    destruct (Qle_bool t (dur + lit 1 (-15))) eqn:E.
    + eexists. intros [|fuel] Hf; [lia|]. cbn [sine_loop fle fadd Q_PyFloat].
      rewrite E. cbv zeta. cbn [fadd Q_PyFloat] in Hrest.
      rewrite (Hrest fuel) by lia. reflexivity.
    + exists []. intros [|fuel] Hf; [lia|]. cbn [sine_loop fle fadd Q_PyFloat].
      now rewrite E.
Qed.

Lemma sine_loop_returns (t dt per a off dur : Q) :
  0 < dt ->
  exists n raw,
    (forall fuel, (n <= fuel)%nat ->
                  sine_loop math_sin math_pi fuel t dt per a off dur = Some raw)
    /\ (t <= dur + lit 1 (-15) -> raw <> []).
Proof.
  intros Hdt. destruct (steps_exist (dur + lit 1 (-15) - t) dt Hdt) as [k Hk].
  destruct (sine_loop_ends dt per a off dur k t) as [raw Hraw]; [lra|].
  exists (S k), raw. split; [intros fuel Hf; apply Hraw; lia|].
  intros Ht Hnil. specialize (Hraw (S k) (Nat.lt_succ_diag_r k)).
  cbn [sine_loop fle fadd Q_PyFloat] in Hraw.
  apply ExactFacts.leb_le in Ht. cbn [fadd Q_PyFloat] in Ht. rewrite Ht in Hraw.
  cbv zeta in Hraw. subst raw.
  destruct (sine_loop math_sin math_pi k (t + dt) dt per a off dur); discriminate.
Qed.

End Loops.

Lemma square_loop_ends (per a off dur rise fall high : Q) (k : nat) :
  forall t, dur - lit 1 (-15) < t + inject_Z (Z.of_nat k) * per ->
            exists raw, forall fuel, (k < fuel)%nat ->
                          square_loop fuel t per a off dur rise fall high = Some raw.
Proof.
  induction k as [|k IH]; intros t Hk.
  - exists []. intros [|fuel] Hf; [lia|]. cbn [square_loop flt fsub fadd Q_PyFloat].
    destruct (Exact.ltb t (dur - lit 1 (-15))) eqn:E; [|reflexivity].
    q_reflect. change (inject_Z (Z.of_nat 0)) with 0 in Hk. lra.
  - rewrite next_step in Hk. destruct (IH _ Hk) as [rest Hrest].
    destruct (Exact.ltb t (dur - lit 1 (-15))) eqn:E.
    + eexists. intros [|fuel] Hf; [lia|]. cbn [square_loop flt fsub fadd Q_PyFloat].
      rewrite E. cbv zeta. rewrite (Hrest fuel) by lia. reflexivity.
    + exists []. intros [|fuel] Hf; [lia|]. cbn [square_loop flt fsub fadd Q_PyFloat].
      now rewrite E.
Qed.

Lemma square_loop_returns (t per a off dur rise fall high : Q) :
  0 < per ->
  exists n raw, forall fuel, (n <= fuel)%nat ->
                  square_loop fuel t per a off dur rise fall high = Some raw.
Proof.
  intros Hp. destruct (steps_exist (dur - lit 1 (-15) - t) per Hp) as [k Hk].
  destruct (square_loop_ends per a off dur rise fall high k t) as [raw Hraw]; [lra|].
  exists (S k), raw. intros fuel Hf. apply Hraw. lia.
Qed.

Lemma triangle_loop_ends (per a off dur rise : Q) (k : nat) :
  forall t, dur - lit 1 (-15) < t + inject_Z (Z.of_nat k) * per ->
            exists raw, forall fuel, (k < fuel)%nat ->
                          triangle_loop fuel t per a off dur rise = Some raw.
Proof.
  induction k as [|k IH]; intros t Hk.
  - exists []. intros [|fuel] Hf; [lia|]. cbn [triangle_loop flt fsub fadd Q_PyFloat].
    destruct (Exact.ltb t (dur - lit 1 (-15))) eqn:E; [|reflexivity].
    q_reflect. change (inject_Z (Z.of_nat 0)) with 0 in Hk. lra.
  - rewrite next_step in Hk. destruct (IH _ Hk) as [rest Hrest].
    destruct (Exact.ltb t (dur - lit 1 (-15))) eqn:E.
    + eexists. intros [|fuel] Hf; [lia|]. cbn [triangle_loop flt fsub fadd Q_PyFloat].
      rewrite E. cbv zeta. rewrite (Hrest fuel) by lia. reflexivity.
    + exists []. intros [|fuel] Hf; [lia|]. cbn [triangle_loop flt fsub fadd Q_PyFloat].
      now rewrite E.
Qed.

Lemma triangle_loop_returns (t per a off dur rise : Q) :
  0 < per ->
  exists n raw, forall fuel, (n <= fuel)%nat ->
                  triangle_loop fuel t per a off dur rise = Some raw.
Proof.
  intros Hp. destruct (steps_exist (dur - lit 1 (-15) - t) per Hp) as [k Hk].
  destruct (triangle_loop_ends per a off dur rise k t) as [raw Hraw]; [lra|].
  exists (S k), raw. intros fuel Hf. apply Hraw. lia.
Qed.

(** The period, the duration and the points per cycle after the defaults. *)
Definition resolved_period (p : wave_params (F := Q)) : Q :=
  if none_or_le0 (period p)
  then lit 1 0 / (if none_or_le0 (freq p) then lit 1 (-9)
                  else or_default (freq p) (lit 1 (-9)))
  else or_default (period p) (lit 1 0).

Definition resolved_duration (p : wave_params (F := Q)) : Q :=
  if none_or_le0 (duration p) then resolved_period p
  else or_default (duration p) (resolved_period p).

Definition resolved_ppc (p : wave_params (F := Q)) : Q :=
  match ppc p with
  | None => of_int 50
  | Some n => if flt n (of_int 4) then of_int 50 else n
  end.

Lemma Qdiv_pos (a b : Q) : 0 < a -> 0 < b -> 0 < a / b.
Proof.
  intros Ha Hb. unfold Qdiv. apply Qmult_lt_0_compat; [exact Ha|].
  now apply Qinv_lt_0_compat.
Qed.

Lemma resolved_value_pos (x : option Q) (d : Q) :
  none_or_le0 x = false -> 0 < or_default x d.
Proof.
  destruct x as [v|]; [|discriminate]. cbn [none_or_le0 or_default fle Q_PyFloat].
  intros E. q_reflect. exact E.
Qed.

Lemma resolved_period_pos (p : wave_params) : 0 < resolved_period p.
Proof.
  unfold resolved_period.
  destruct (none_or_le0 (period p)) eqn:Ep; [|now apply resolved_value_pos].
  apply Qdiv_pos; [reflexivity|].
  destruct (none_or_le0 (freq p)) eqn:Ef; [reflexivity|now apply resolved_value_pos].
Qed.

Lemma resolved_duration_pos (p : wave_params) : 0 < resolved_duration p.
Proof.
  unfold resolved_duration.
  destruct (none_or_le0 (duration p)) eqn:Ed;
    [apply resolved_period_pos|now apply resolved_value_pos].
Qed.

Lemma resolved_ppc_pos (p : wave_params) : 0 < resolved_ppc p.
Proof.
  unfold resolved_ppc. destruct (ppc p) as [n|]; [|reflexivity].
  cbn [flt Q_PyFloat]. destruct (Exact.ltb n (of_int 4)) eqn:E; [reflexivity|].
  q_reflect. unfold of_int in E. cbn [lit Q_PyFloat] in E. q_lits. lra.
Qed.

End WaveFacts.

Ltac generated raw Hn :=
  match goal with
  | |- match ?L with _ => _ end = _ =>
      replace L with (Some raw) by (symmetry; exact Hn)
  end;
  apply normalised_eq.

(** X21.  In exact arithmetic [_wave_params_to_points] returns, whatever
    the wave type and the parameters: some number of loop rounds is enough,
    and from there on the result is the same list.  That list is in
    non-decreasing order of time, holds no negative time, starts at time
    zero when it is not empty, and is not empty for a sine. *)
Theorem generator_returns_sorted_from_zero
        (math_sin : Q -> Q) (math_pi : Q) (wave_type : string) (p : wave_params) :
  exists n pts,
    (forall fuel, (n <= fuel)%nat ->
                  _wave_params_to_points math_sin math_pi fuel wave_type p = Some pts)
    /\ StronglySorted time_le pts
    /\ Forall (fun q => 0 <= fst q) pts
    /\ (forall q rest, pts = q :: rest -> fst q == 0)
    /\ (wave_type = "sine"%string -> exists q rest, pts = q :: rest).
Proof.
  pose proof (WaveFacts.resolved_period_pos p) as Hper.
  pose proof (WaveFacts.resolved_duration_pos p) as Hdur.
  pose proof (WaveFacts.resolved_ppc_pos p) as Hppc.
  assert (Hraw : exists n raw,
             (forall fuel, (n <= fuel)%nat ->
                           _wave_params_to_points math_sin math_pi fuel wave_type p
                           = Some (normalised raw))
             /\ (wave_type = "sine"%string -> raw <> [])).
  { unfold _wave_params_to_points. cbv zeta.
    destruct (String.eqb_spec wave_type "sine") as [Es|Es].
    { destruct (WaveFacts.sine_loop_returns math_sin math_pi (lit 0 0)
                  (WaveFacts.resolved_period p / WaveFacts.resolved_ppc p)
                  (WaveFacts.resolved_period p)
                  (or_default (amp p) (lit 1 0)) (or_default (offset p) (lit 0 0))
                  (WaveFacts.resolved_duration p))
        as (n & raw & Hn & Hne); [now apply WaveFacts.Qdiv_pos|].
      exists n, raw. split.
      - intros fuel Hf. specialize (Hn fuel Hf). generated raw Hn.
      - intros _. apply Hne. cbn [lit fadd Q_PyFloat]. q_lits. lra. }
    destruct (String.eqb_spec wave_type "square") as [Eq|Eq].
    { match goal with
      | |- context [if ?c then (?x, ?y) else _] => destruct c
      end.
      all: match goal with
           | |- context [square_loop _ ?t ?per ?a ?off ?dur ?rise ?fall ?high] =>
               destruct (WaveFacts.square_loop_returns t per a off dur rise fall high Hper)
               as (n & raw & Hn)
           end.
      all: exists n, raw; split; [|intros E; congruence].
      all: intros fuel Hf; specialize (Hn fuel Hf); generated raw Hn. }
    destruct (String.eqb_spec wave_type "triangle") as [Et|Et].
    { match goal with
      | |- context [triangle_loop _ ?t ?per ?a ?off ?dur ?rise] =>
          destruct (WaveFacts.triangle_loop_returns t per a off dur rise Hper)
          as (n & raw & Hn)
      end.
      exists n, raw. split; [|intros E; congruence].
      intros fuel Hf. specialize (Hn fuel Hf). generated raw Hn. }
    exists 0%nat, []. split; [reflexivity|intros E; congruence]. }
  destruct Hraw as (n & raw & Hn & Hne).
  destruct (WaveFacts.normalised_order raw) as (Hs & Hpos & Hzero & Hkeep).
  exists n, (normalised raw). split; [exact Hn|]. split; [exact Hs|].
  split; [exact Hpos|]. split; [exact Hzero|].
  intros Ew. specialize (Hkeep (Hne Ew)).
  destruct (normalised raw) as [|q rest]; [now elim Hkeep|]. now exists q, rest.
Qed.

(* ================================================================= *)
(** ** [_ensure_min_spacing]: what it moves *)

Module RespaceFacts.

Import SpacingFacts.

(** The point is where it was or later, with its value. *)
Definition later (old new : point Q) : Prop := fst old <= fst new /\ snd new = snd old.

(** The point is where it was, with its value. *)
Definition same (old new : point Q) : Prop := fst new == fst old /\ snd new = snd old.

Lemma spacing_loop_later (l : list (point Q)) (prev : option Q) :
  Forall2 later l (spacing_loop prev l).
Proof.
  revert prev. induction l as [|[t v] l IH]; intros prev; cbn [spacing_loop];
    [constructor|].
  destruct prev as [p|]; cbv zeta.
  - constructor; [|apply IH]. split; [|reflexivity]. cbn [fst flt fadd Q_PyFloat].
    destruct (Exact.ltb t (p + TIME_MIN_PRECISION)) eqn:E; q_reflect; lra.
  - constructor; [|apply IH]. split; [|reflexivity]. cbn [fst].
    apply (DragFacts.py_max_ge (lit 0 0) t).
Qed.

Lemma gaps_ok_step (p t v : Q) (l : list (point Q)) :
  gaps_ok p ((t, v) :: l) = true -> p + eps <= t /\ gaps_ok t l = true.
Proof.
  cbn [gaps_ok]. intros Hg. apply andb_true_iff in Hg. destruct Hg as [Hg Hl].
  split; [|exact Hl]. cbn [fle fsub Q_PyFloat] in Hg. q_reflect.
  change (@TIME_MIN_PRECISION Q Q_PyFloat) with eps in Hg. lra.
Qed.

Lemma spacing_loop_keeps (l : list (point Q)) (p p' : Q) :
  p' == p -> gaps_ok p l = true -> spacing_loop (Some p') l = l.
Proof.
  revert p p'. induction l as [|[t v] l IH]; intros p p' Hp Hg; [reflexivity|].
  apply gaps_ok_step in Hg. destruct Hg as [Hpt Hl].
  cbn [spacing_loop flt fadd Q_PyFloat].
  destruct (Exact.ltb t (p' + TIME_MIN_PRECISION)) eqn:E; q_reflect.
  - exfalso. change (@TIME_MIN_PRECISION Q Q_PyFloat) with eps in E. lra.
  - cbv zeta. now rewrite (IH t t (Qeq_refl t) Hl).
Qed.

Lemma gaps_ok_run (l : list (point Q)) (p v : Q) :
  gaps_ok p l = true -> no_descent key_lt ((p, v) :: l).
Proof.
  revert p v. induction l as [|[t w] l IH]; intros p v Hg; [cbn; tauto|].
  apply gaps_ok_step in Hg. destruct Hg as [Hpt Hl].
  split; [|exact (IH t w Hl)].
  unfold key_lt. cbn [fst flt Q_PyFloat]. apply ExactFacts.ltb_ge. unfold eps in Hpt. lra.
Qed.

Lemma same_refl (l : list (point Q)) : Forall2 same l l.
Proof. induction l as [|q l IH]; constructor; [split; reflexivity|exact IH]. Qed.

Lemma ensure_min_spacing_same (pts : list (point Q)) :
  spacing_ok pts = true -> Forall2 same pts (_ensure_min_spacing pts).
Proof.
  destruct pts as [|[t v] pts]; [constructor|].
  intros Hok. cbn [spacing_ok] in Hok. apply andb_true_iff in Hok.
  destruct Hok as [H0 Hg]. cbn [fle Q_PyFloat] in H0. q_reflect.
  change (_ensure_min_spacing ((t, v) :: pts))
    with (spacing_loop None (py_sort key_lt ((t, v) :: pts))).
  pose proof (py_sort_run key_lt _ (gaps_ok_run pts t v Hg)) as Hrun.
  match goal with
  | |- context [spacing_loop None ?x] =>
      replace x with ((t, v) :: pts) by (symmetry; exact Hrun)
  end.
  cbn [spacing_loop]. cbv zeta.
  assert (Hmax : py_max (lit 0 0) t == t).
  { unfold py_max. cbn [flt Q_PyFloat].
    destruct (Exact.ltb (lit 0 0) t) eqn:E; q_reflect; [reflexivity|].
    cbn [lit Q_PyFloat] in *. q_lits. lra. }
  rewrite (spacing_loop_keeps pts t _ Hmax Hg).
  constructor; [split; [exact Hmax|reflexivity]|apply same_refl].
Qed.

End RespaceFacts.

(** X22.  In exact arithmetic [_ensure_min_spacing] only ever moves a
    point later: taken in sorted order, every point comes out with its
    value and at its own time or a later one.  On a list that satisfies the
    spacing invariant already it moves nothing. *)
Theorem ensure_min_spacing_moves_later (pts : list (point Q)) :
  Forall2 RespaceFacts.later (py_sort key_lt pts) (_ensure_min_spacing pts)
  /\ (spacing_ok pts = true -> Forall2 RespaceFacts.same pts (_ensure_min_spacing pts)).
Proof.
  split.
  - destruct pts as [|q pts]; [constructor|].
    apply RespaceFacts.spacing_loop_later.
  - apply RespaceFacts.ensure_min_spacing_same.
Qed.

(* ================================================================= *)
(** ** Dragging: every motion starts from the press *)

Section DragMotionFacts.
Context {F : Type} `{PyFloat F}.

(** Where a motion by [(dx, dy)] puts the point that index [i] held on the
    press, if the press recorded one. *)
Definition moved (dx dy : F) (orig : list (nat * point F)) (i : nat) : option (point F) :=
  match find (fun kv => Nat.eqb (fst kv) i) orig with
  | Some (_, (orig_t, orig_v)) => Some (py_max (lit 0 0) (fadd orig_t dx), fadd orig_v dy)
  | None => None
  end.

(** One round of the loop over [dragging_indices]. *)
Definition write (g : nat -> option (point F)) (pts : list (point F)) (i : nat)
  : list (point F) :=
  match g i with
  | Some q => if Nat.ltb i (List.length pts) then set_nth i q pts else pts
  | None => pts
  end.

Lemma fold_left_same {A B : Type} (f g : A -> B -> A) (l : list B) (a : A) :
  (forall x y, f x y = g x y) -> fold_left f l a = fold_left g l a.
Proof.
  intros Hfg. revert a. induction l as [|b l IH]; intros a; [reflexivity|].
  cbn [fold_left]. now rewrite Hfg, IH.
Qed.

Lemma drag_motion_eq (wx wy : F) (s : editor F) :
  drag_motion wx wy s
  = match dragging_indices s, drag_start s with
    | _ :: _, Some (x0, y0) =>
        with_points s
          (fold_left (write (moved (fsub wx x0) (fsub wy y0) (drag_original_data s)))
                     (dragging_indices s) (points s))
    | _, _ => s
    end.
Proof.
  unfold drag_motion. destruct (dragging_indices s) as [|i idxs]; [reflexivity|].
  destruct (drag_start s) as [[x0 y0]|]; [|reflexivity].
  cbv zeta. f_equal. apply fold_left_same. intros pts j. unfold write, moved.
  destruct (find _ _) as [[k [t v]]|]; reflexivity.
Qed.

Lemma write_length (g : nat -> option (point F)) (pts : list (point F)) (i : nat) :
  List.length (write g pts i) = List.length pts.
Proof.
  unfold write. destruct (g i) as [q|]; [|reflexivity].
  destruct (Nat.ltb i (List.length pts)); [apply StoreFacts.set_nth_length|reflexivity].
Qed.

Lemma write_nth (g : nat -> option (point F)) (pts : list (point F)) (i j : nat) :
  nth_error (write g pts i) j
  = if Nat.eqb j i
    then match g j with
         | Some q => if Nat.ltb j (List.length pts) then Some q else None
         | None => nth_error pts j
         end
    else nth_error pts j.
Proof.
  unfold write. destruct (Nat.eqb_spec j i) as [->|Hne].
  - destruct (g i) as [q|]; [|reflexivity].
    destruct (Nat.ltb_spec i (List.length pts)) as [Hlt|Hge].
    + destruct (nth_error pts i) as [z|] eqn:E.
      * exact (StoreFacts.nth_error_set_nth_same pts i q z E).
      * apply nth_error_None in E. lia.
    + now apply nth_error_None.
  - destruct (g i) as [q|]; [|reflexivity].
    destruct (Nat.ltb i (List.length pts)); [|reflexivity].
    apply StoreFacts.nth_error_set_nth_other. congruence.
Qed.

Lemma fold_write_length (g : nat -> option (point F)) (idxs : list nat)
      (pts : list (point F)) :
  List.length (fold_left (write g) idxs pts) = List.length pts.
Proof.
  revert pts. induction idxs as [|i idxs IH]; intros pts; [reflexivity|].
  cbn [fold_left]. now rewrite IH, write_length.
Qed.

Lemma fold_write_nth (g : nat -> option (point F)) (idxs : list nat)
      (pts : list (point F)) (j : nat) :
  nth_error (fold_left (write g) idxs pts) j
  = if mem_nat j idxs
    then match g j with
         | Some q => if Nat.ltb j (List.length pts) then Some q else None
         | None => nth_error pts j
         end
    else nth_error pts j.
Proof.
  revert pts. induction idxs as [|i idxs IH]; intros pts; [reflexivity|].
  cbn [fold_left]. rewrite IH, write_length, write_nth.
  unfold mem_nat. cbn [existsb]. fold (mem_nat j idxs).
  destruct (Nat.eqb j i), (mem_nat j idxs), (g j) as [q|]; reflexivity.
Qed.

Lemma moved_same_entries (dx dy dx' dy' : F) (orig : list (nat * point F)) (i : nat) :
  moved dx dy orig i = None <-> moved dx' dy' orig i = None.
Proof.
  unfold moved. destruct (find _ orig) as [[k [t v]]|]; split; intros E;
    first [discriminate E | reflexivity].
Qed.

Lemma fold_write_again (dx dy dx' dy' : F) (orig : list (nat * point F))
      (idxs : list nat) (pts : list (point F)) :
  fold_left (write (moved dx' dy' orig)) idxs (fold_left (write (moved dx dy orig)) idxs pts)
  = fold_left (write (moved dx' dy' orig)) idxs pts.
Proof.
  apply nth_error_ext. intros j.
  rewrite !fold_write_nth, fold_write_length.
  destruct (mem_nat j idxs); [|reflexivity].
  destruct (moved dx' dy' orig j) as [q'|] eqn:E'; [reflexivity|].
  apply (moved_same_entries dx' dy' dx dy) in E'. now rewrite E'.
Qed.

Lemma with_points_same (s : editor F) : s = with_points s (points s).
Proof. destruct s; reflexivity. Qed.

End DragMotionFacts.

(** X23.  A drag motion is computed from the data recorded on the press,
    not from where the last motion left the points: moving to [(wx', wy')]
    after any other motion gives the editor that moving there directly
    gives.  A motion changes the point list only, keeps its length and
    leaves every point whose index is not dragged where it was; a dragged
    index in range with a recorded original [(t, v)] holds
    [(max(0, t + dx), v + dy)] afterwards. *)
Theorem drag_motion_absolute {F : Type} `{PyFloat F} (wx wy wx' wy' : F) (s : editor F) :
  drag_motion wx' wy' (drag_motion wx wy s) = drag_motion wx' wy' s
  /\ drag_motion wx wy s = with_points s (points (drag_motion wx wy s))
  /\ List.length (points (drag_motion wx wy s)) = List.length (points s)
  /\ (forall j, mem_nat j (dragging_indices s) = false ->
                nth_error (points (drag_motion wx wy s)) j = nth_error (points s) j)
  /\ (forall j x0 y0 q,
         mem_nat j (dragging_indices s) = true ->
         drag_start s = Some (x0, y0) ->
         (j < List.length (points s))%nat ->
         moved (fsub wx x0) (fsub wy y0) (drag_original_data s) j = Some q ->
         nth_error (points (drag_motion wx wy s)) j = Some q).
Proof.
  destruct (dragging_indices s) as [|i idxs] eqn:Ei.
  { assert (Hs : forall a b, drag_motion a b s = s)
      by (intros a b; rewrite drag_motion_eq, Ei; reflexivity).
    rewrite !Hs. split; [reflexivity|]. split; [apply with_points_same|].
    split; [reflexivity|]. split; [reflexivity|]. intros j x0 y0 q Hj. discriminate Hj. }
  destruct (drag_start s) as [[x0 y0]|] eqn:Es.
  2:{ assert (Hs : forall a b, drag_motion a b s = s)
        by (intros a b; rewrite drag_motion_eq, Ei, Es; reflexivity).
      rewrite !Hs. split; [reflexivity|]. split; [apply with_points_same|].
      split; [reflexivity|]. split; [reflexivity|].
      intros j x1 y1 q _ Hs'. discriminate Hs'. }
  set (orig := drag_original_data s).
  assert (Hm : forall a b,
             drag_motion a b s
             = with_points s (fold_left (write (moved (fsub a x0) (fsub b y0) orig))
                                        (i :: idxs) (points s)))
    by (intros a b; rewrite drag_motion_eq, Ei, Es; reflexivity).
  rewrite (Hm wx wy).
  set (pts1 := fold_left (write (moved (fsub wx x0) (fsub wy y0) orig))
                         (i :: idxs) (points s)).
  split; [|split; [reflexivity|split; [apply fold_write_length|split]]].
  - rewrite drag_motion_eq, Hm.
    cbn [with_points dragging_indices drag_start drag_original_data points].
    rewrite Ei, Es. fold orig. unfold pts1.
    rewrite fold_write_again. reflexivity.
  - intros j Hj. cbn [with_points points]. unfold pts1.
    now rewrite fold_write_nth, Hj.
  - intros j x1 y1 q Hj [= <- <-] Hlt Hq. cbn [with_points points]. unfold pts1.
    rewrite fold_write_nth, Hj. fold orig in Hq. rewrite Hq.
    apply Nat.ltb_lt in Hlt. now rewrite Hlt.
Qed.

(* ================================================================= *)
(** ** The placement preview and the commit *)

Module PreviewFacts.

Lemma gaps_ok_shift (a : Q) (l : list (point Q)) (t : Q) :
  gaps_ok t l = true ->
  gaps_ok (a + t) (map (fun tv => (a + fst tv, snd tv)) l) = true.
Proof.
  revert t. induction l as [|[t' v'] l IH]; intros t Hg; [reflexivity|].
  cbn [gaps_ok map fst snd] in Hg |- *. apply andb_true_iff in Hg.
  destruct Hg as [Hg Hl]. apply andb_true_iff. split; [|now apply IH].
  cbn [fle fsub Q_PyFloat] in Hg |- *. q_reflect. apply ExactFacts.leb_le. lra.
Qed.

Lemma placed_spacing_ok (x : Q) (data : list (point Q)) :
  spacing_ok data = true -> spacing_ok (placed x data) = true.
Proof.
  destruct data as [|[t v] data]; [reflexivity|].
  cbn [spacing_ok placed map fst snd]. intros Hok. apply andb_true_iff in Hok.
  destruct Hok as [H0 Hg]. apply andb_true_iff.
  destruct (DragFacts.py_max_ge (lit 0 0) x) as [Hx _].
  split.
  - cbn [fle fadd Q_PyFloat] in H0 |- *. q_reflect. apply ExactFacts.leb_le.
    cbn [lit Q_PyFloat] in *. q_lits. lra.
  - exact (gaps_ok_shift (py_max (lit 0 0) x) data t Hg).
Qed.

End PreviewFacts.

(** X24.  In exact arithmetic, while placing data that satisfy the spacing
    invariant, the preview line drawn for a pointer at world [cx] is the
    list of points a click there adds: the same values at equal times, in
    the same order, the commit adding exactly these to the Waveform. *)
Theorem preview_shows_commit (cx cy : Q) (s : editor Q) :
  placement_mode s = true -> spacing_ok (placement_data s) = true ->
  Forall2 RespaceFacts.same (placed cx (placement_data s))
          (placement_line (Some (cx, cy)) s)
  /\ Permutation (points (_handle_placement_commit cx s))
                 (points s ++ placed cx (placement_data s)).
Proof.
  intros Hm Hok. split; [|apply placement_commit_points].
  unfold placement_line. rewrite Hm.
  destruct (placement_data s) as [|d data] eqn:Ed; [constructor|].
  cbv zeta. fold (placed cx (d :: data)).
  apply RespaceFacts.ensure_min_spacing_same.
  now apply PreviewFacts.placed_spacing_ok.
Qed.

Lemma preview_shows_commit_witness :
  Forall2 RespaceFacts.same
          (placed 3 [(0, 0); (1, 5)])
          (placement_line (Some (3, 0))
                          (paste_waveform [(0, 0); (1, 5)] (init_editor (F := Q) [(0, 1)]))).
Proof.
  exact (proj1 (preview_shows_commit 3 0
                  (paste_waveform [(0, 0); (1, 5)] (init_editor (F := Q) [(0, 1)]))
                  eq_refl eq_refl)).
Defined.

(* ================================================================= *)
(** ** The viewport under wheel, box zoom and pan (exact arithmetic) *)

(** Both visible ranges have a positive span. *)
Definition valid_view (c : canvas Q) : Prop := x_min c < x_max c /\ y_min c < y_max c.

Module MoveFacts.

Lemma enforce_keeps_widget (c : canvas Q) :
  winfo_width (_enforce_negative_axis_limit c) = winfo_width c
  /\ winfo_height (_enforce_negative_axis_limit c) = winfo_height c
  /\ _lod_pixel_step (_enforce_negative_axis_limit c) = _lod_pixel_step c
  /\ _max_preview_points (_enforce_negative_axis_limit c) = _max_preview_points c.
Proof.
  unfold _enforce_negative_axis_limit. cbn [flt fle fsub fadd Q_PyFloat].
  repeat match goal with
         | |- context [if ?b then _ else _] => destruct b
         end; cbn; repeat split; reflexivity.
Qed.

Lemma enforce_valid (c : canvas Q) :
  valid_view c -> valid_view (_enforce_negative_axis_limit c).
Proof.
  intros [Hx Hy]. destruct (FitFacts.enforce_negative_axis_limit_bound c Hx)
    as (_ & Hx' & _ & E1 & E2).
  split; [exact Hx'|]. now rewrite E1, E2.
Qed.

(** The clamp never widens a viewport of positive width. *)
Lemma enforce_width (c : canvas Q) :
  x_min c < x_max c ->
  x_max (_enforce_negative_axis_limit c) - x_min (_enforce_negative_axis_limit c)
  <= x_max c - x_min c.
Proof.
  intros Hw. unfold _enforce_negative_axis_limit. simpl.
  q_lits.
  let v := eval vm_compute in ((5 # 100) / (95 # 100)) in
  change ((5 # 100) / (95 # 100)) with v.
  case_tests; q_reflect; try lra.
Qed.

Lemma wheel_scale_pos (zoom_in : bool) : 0 < wheel_scale zoom_in.
Proof. destruct wheel_scale_values as [Hin Hout]. destruct zoom_in; lra. Qed.

Lemma scale_lt (a b d r : Q) : 0 < d -> 0 < r -> a < b -> a / d * r < b / d * r.
Proof.
  intros Hd Hr Hab. apply Qmult_lt_r; [exact Hr|]. unfold Qdiv.
  apply Qmult_lt_r; [now apply Qinv_lt_0_compat|exact Hab].
Qed.

Lemma py_min_max (a b : Q) :
  (a < b -> py_min a b = a /\ py_max a b = b)
  /\ (b < a -> py_min a b = b /\ py_max a b = a).
Proof.
  unfold py_min, py_max. cbn [flt Q_PyFloat]. split; intros Hl.
  - destruct (Exact.ltb b a) eqn:E1, (Exact.ltb a b) eqn:E2; q_reflect;
      first [now split | exfalso; lra].
  - destruct (Exact.ltb b a) eqn:E1, (Exact.ltb a b) eqn:E2; q_reflect;
      first [now split | exfalso; lra].
Qed.

Lemma of_int_lt (a b : Z) : (a < b)%Z -> of_int (F := Q) a < of_int b.
Proof. intros Hl. rewrite !ViewFacts.of_int_inject. now rewrite <- Zlt_Qlt. Qed.

Lemma scroll_valid (c : canvas Q) (sx sy : Q) (zoom_in is_ctrl is_shift : bool) :
  ViewFacts.has_plot_area c -> valid_view c ->
  valid_view (_on_mouse_scroll sx sy zoom_in is_ctrl is_shift c).
Proof.
  intros Hp [Hx Hy]. unfold _on_mouse_scroll.
  rewrite (ViewFacts.screen_to_world_eq c sx sy Hp).
  repeat match goal with
         | |- context [if zoom_in then ?a else ?b] =>
             change (if zoom_in then a else b) with (wheel_scale zoom_in)
         end.
  pose proof (wheel_scale_pos zoom_in) as Hs. set (s := wheel_scale zoom_in) in *.
  match goal with
  | |- context [x_min c + ?k * (x_max c - x_min c)] =>
      set (wx := x_min c + k * (x_max c - x_min c))
  end.
  match goal with
  | |- context [y_min c + ?k * (y_max c - y_min c)] =>
      set (wy := y_min c + k * (y_max c - y_min c))
  end.
  cbn [fsub fadd fmul Q_PyFloat].
  assert (Hnx : wx - (wx - x_min c) * s < wx + (x_max c - wx) * s) by nra.
  assert (Hny : wy - (wy - y_min c) * s < wy + (y_max c - wy) * s) by nra.
  destruct is_ctrl; [|destruct is_shift].
  - split; cbn [set_y x_min x_max y_min y_max]; [|exact Hny].
    apply enforce_valid. split; cbn [set_x x_min x_max y_min y_max]; assumption.
  - apply enforce_valid. split; cbn [set_x x_min x_max y_min y_max]; assumption.
  - split; cbn [set_y x_min x_max y_min y_max]; assumption.
Qed.

(** What the zoom branch does when the box is large enough. *)
Lemma box_zoom_eq (c : canvas Q) (x0_s y0_s x1_s y1_s : Z) :
  ((5 <? Z.abs (x0_s - x1_s)) && (5 <? Z.abs (y0_s - y1_s)))%Z = true ->
  box_zoom_release (x0_s, y0_s) x1_s y1_s c
  = _enforce_negative_axis_limit
      (set_y (set_x c (py_min (fst (screen_to_world c (of_int x0_s) (of_int y0_s)))
                              (fst (screen_to_world c (of_int x1_s) (of_int y1_s))))
                      (py_max (fst (screen_to_world c (of_int x0_s) (of_int y0_s)))
                              (fst (screen_to_world c (of_int x1_s) (of_int y1_s)))))
             (py_min (snd (screen_to_world c (of_int x0_s) (of_int y0_s)))
                     (snd (screen_to_world c (of_int x1_s) (of_int y1_s))))
             (py_max (snd (screen_to_world c (of_int x0_s) (of_int y0_s)))
                     (snd (screen_to_world c (of_int x1_s) (of_int y1_s))))).
Proof.
  intros Hbig. unfold box_zoom_release. rewrite Hbig.
  destruct (screen_to_world c (of_int x0_s) (of_int y0_s)) as [wx0 wy0].
  destruct (screen_to_world c (of_int x1_s) (of_int y1_s)) as [wx1 wy1].
  reflexivity.
Qed.

(** Different pixels are different world coordinates. *)
Lemma world_x_apart (c : canvas Q) (a b sy sy' : Z) :
  ViewFacts.has_plot_area c -> x_min c < x_max c -> (a < b)%Z ->
  fst (screen_to_world c (of_int a) (of_int sy))
  < fst (screen_to_world c (of_int b) (of_int sy')).
Proof.
  intros Hp Hx Hab. rewrite !(ViewFacts.screen_to_world_eq c _ _ Hp). cbn [fst].
  pose proof (ViewFacts.draw_w_pos c Hp) as Hw.
  pose proof (of_int_lt a b Hab) as Hl.
  assert (Hs := scale_lt (of_int a - of_int margin_left) (of_int b - of_int margin_left)
                         _ (x_max c - x_min c) Hw).
  cbn [fsub fadd fmul fdiv Q_PyFloat] in *. lra.
Qed.

Lemma world_y_apart (c : canvas Q) (a b sx sx' : Z) :
  ViewFacts.has_plot_area c -> y_min c < y_max c -> (a < b)%Z ->
  snd (screen_to_world c (of_int sx') (of_int b))
  < snd (screen_to_world c (of_int sx) (of_int a)).
Proof.
  intros Hp Hy Hab. rewrite !(ViewFacts.screen_to_world_eq c _ _ Hp). cbn [snd].
  pose proof (ViewFacts.draw_h_pos c Hp) as Hh.
  pose proof (of_int_lt a b Hab) as Hl.
  set (top := of_int (margin_top + (winfo_height c - margin_top - margin_bottom))) in *.
  assert (Hs := scale_lt (top - of_int b) (top - of_int a)
                         _ (y_max c - y_min c) Hh).
  cbn [fsub fadd fmul fdiv Q_PyFloat] in *. lra.
Qed.

Lemma box_is_big (x0_s y0_s x1_s y1_s : Z) :
  ((5 <? Z.abs (x0_s - x1_s)) && (5 <? Z.abs (y0_s - y1_s)))%Z = true ->
  ((x0_s < x1_s)%Z \/ (x1_s < x0_s)%Z) /\ ((y0_s < y1_s)%Z \/ (y1_s < y0_s)%Z).
Proof.
  intros Hb. apply andb_true_iff in Hb. destruct Hb as [Hx Hy].
  apply Z.ltb_lt in Hx, Hy. lia.
Qed.

Lemma box_zoom_big (c : canvas Q) (x0_s y0_s x1_s y1_s : Z) :
  ViewFacts.has_plot_area c -> valid_view c ->
  ((5 <? Z.abs (x0_s - x1_s)) && (5 <? Z.abs (y0_s - y1_s)))%Z = true ->
  exists d,
    box_zoom_release (x0_s, y0_s) x1_s y1_s c = _enforce_negative_axis_limit d
    /\ winfo_width d = winfo_width c /\ winfo_height d = winfo_height c
    /\ x_min d < x_max d
    /\ y_max d = snd (screen_to_world c (of_int x0_s) (of_int (Z.min y0_s y1_s)))
    /\ y_min d = snd (screen_to_world c (of_int x0_s) (of_int (Z.max y0_s y1_s)))
    /\ y_min d < y_max d.
Proof.
  intros Hp [Hx Hy] Hbig. rewrite (box_zoom_eq c _ _ _ _ Hbig).
  destruct (box_is_big _ _ _ _ Hbig) as [Hbx Hby].
  eexists. split; [reflexivity|]. cbn [set_x set_y x_min x_max y_min y_max winfo_width
                                         winfo_height].
  split; [reflexivity|]. split; [reflexivity|]. split.
  { match goal with |- py_min ?a ?b < _ => destruct (py_min_max a b) as [H1 H2] end.
    destruct Hbx as [Hl|Hl].
    - destruct (H1 (world_x_apart c x0_s x1_s y0_s y1_s Hp Hx Hl)) as [-> ->].
      now apply world_x_apart.
    - destruct (H2 (world_x_apart c x1_s x0_s y1_s y0_s Hp Hx Hl)) as [-> ->].
      now apply world_x_apart. }
  match goal with |- py_max ?a ?b = _ /\ _ => destruct (py_min_max a b) as [H1 H2] end.
  destruct Hby as [Hl|Hl].
  - destruct (H2 (world_y_apart c y0_s y1_s x0_s x1_s Hp Hy Hl)) as [-> ->].
    rewrite Z.min_l, Z.max_r by lia.
    split; [reflexivity|]. split; [|now apply world_y_apart].
    rewrite !(ViewFacts.screen_to_world_eq c _ _ Hp). reflexivity.
  - destruct (H1 (world_y_apart c y1_s y0_s x1_s x0_s Hp Hy Hl)) as [-> ->].
    rewrite Z.min_r, Z.max_l by lia.
    split; [|split; [reflexivity|now apply world_y_apart]].
    rewrite !(ViewFacts.screen_to_world_eq c _ _ Hp). reflexivity.
Qed.

Lemma box_zoom_valid (c : canvas Q) (box_start : Z * Z) (x1_s y1_s : Z) :
  ViewFacts.has_plot_area c -> valid_view c ->
  valid_view (box_zoom_release box_start x1_s y1_s c).
Proof.
  intros Hp Hv. destruct box_start as [x0_s y0_s].
  destruct ((5 <? Z.abs (x0_s - x1_s)) && (5 <? Z.abs (y0_s - y1_s)))%Z eqn:Hbig.
  - destruct (box_zoom_big c _ _ _ _ Hp Hv Hbig) as (d & -> & _ & _ & Hx & _ & _ & Hy).
    apply enforce_valid. now split.
  - unfold box_zoom_release. now rewrite Hbig.
Qed.

Lemma widget_nonzero (c : canvas Q) :
  ViewFacts.has_plot_area c ->
  (winfo_width c =? 0)%Z = false /\ (winfo_height c =? 0)%Z = false.
Proof.
  unfold ViewFacts.has_plot_area, margin_left, margin_right, margin_top, margin_bottom.
  intros [Hw Hh]. split; apply Z.eqb_neq; lia.
Qed.

(** What a motion away from the press pixel does. *)
Lemma pan_moved (c : canvas Q) (sx sy : Z) (pan_start : Z * Z) (x0 x1 y0 y1 : Q) :
  ViewFacts.has_plot_area c ->
  ((sx - fst pan_start =? 0) && (sy - snd pan_start =? 0))%Z = false ->
  pan_motion sx sy pan_start (x0, x1, y0, y1) c
  = Some (_enforce_negative_axis_limit
            (set_y (set_x c
                      (x0 + of_int (- (sx - fst pan_start))
                            * ((x1 - x0) / of_int (winfo_width c)))
                      (x1 + of_int (- (sx - fst pan_start))
                            * ((x1 - x0) / of_int (winfo_width c))))
                   (y0 + of_int (sy - snd pan_start)
                         * ((y1 - y0) / of_int (winfo_height c)))
                   (y1 + of_int (sy - snd pan_start)
                         * ((y1 - y0) / of_int (winfo_height c))))).
Proof.
  intros Hp Hd. destruct (widget_nonzero c Hp) as [Hw Hh].
  unfold pan_motion. cbv zeta. rewrite Hd, Hw, Hh. reflexivity.
Qed.

Lemma pan_keeps_widget (c c0 : canvas Q) (sx sy : Z) (pan_start : Z * Z)
      (view : Q * Q * Q * Q) :
  pan_motion sx sy pan_start view c = Some c0 ->
  winfo_width c0 = winfo_width c /\ winfo_height c0 = winfo_height c
  /\ _lod_pixel_step c0 = _lod_pixel_step c
  /\ _max_preview_points c0 = _max_preview_points c.
Proof.
  unfold pan_motion. cbv zeta. destruct view as [[[x0 x1] y0] y1].
  destruct ((sx - fst pan_start =? 0) && (sy - snd pan_start =? 0))%Z;
    [intros [= <-]; now repeat split|].
  destruct (winfo_width c =? 0)%Z; [discriminate|].
  destruct (winfo_height c =? 0)%Z; [discriminate|].
  intros [= <-].
  match goal with
  | |- context [_enforce_negative_axis_limit ?d] =>
      destruct (enforce_keeps_widget d) as (-> & -> & -> & ->)
  end.
  now repeat split.
Qed.

Lemma set_view_same (c c0 : canvas Q) (a b e f : Q) :
  winfo_width c0 = winfo_width c -> winfo_height c0 = winfo_height c ->
  _lod_pixel_step c0 = _lod_pixel_step c ->
  _max_preview_points c0 = _max_preview_points c ->
  set_y (set_x c0 a b) e f = set_y (set_x c a b) e f.
Proof.
  destruct c, c0. cbn. intros -> -> -> ->. reflexivity.
Qed.

End MoveFacts.

(** X25.  In exact arithmetic, on a canvas with a plot area, a viewport
    with positive spans keeps positive spans under every pointer gesture
    that moves it: a wheel step with any modifiers, a box zoom, and a pan
    motion from a press on such a viewport, which does not raise. *)
Theorem view_stays_valid (c : canvas Q) :
  ViewFacts.has_plot_area c -> valid_view c ->
  (forall sx sy zoom_in is_ctrl is_shift,
      valid_view (_on_mouse_scroll sx sy zoom_in is_ctrl is_shift c))
  /\ (forall box_start x1_s y1_s, valid_view (box_zoom_release box_start x1_s y1_s c))
  /\ (forall sx sy pan_start x0 x1 y0 y1,
         x0 < x1 -> y0 < y1 ->
         exists c', pan_motion sx sy pan_start (x0, x1, y0, y1) c = Some c'
                    /\ valid_view c').
Proof.
  intros Hp Hv. split; [|split].
  - intros. now apply MoveFacts.scroll_valid.
  - intros. now apply MoveFacts.box_zoom_valid.
  - intros sx sy pan_start x0 x1 y0 y1 Hx Hy.
    destruct ((sx - fst pan_start =? 0) && (sy - snd pan_start =? 0))%Z eqn:Hd.
    + exists c. split; [|exact Hv]. unfold pan_motion. cbv zeta. now rewrite Hd.
    + rewrite (MoveFacts.pan_moved c sx sy pan_start x0 x1 y0 y1 Hp Hd).
      eexists. split; [reflexivity|]. apply MoveFacts.enforce_valid.
      split; cbn [set_x set_y x_min x_max y_min y_max fadd Q_PyFloat]; lra.
Qed.

Lemma view_stays_valid_witness :
  valid_view (_on_mouse_scroll (500 # 1) (300 # 1) true true false init_canvas).
Proof.
  refine (proj1 (view_stays_valid init_canvas _ _) _ _ _ _ _).
  - split; reflexivity.
  - split; reflexivity.
Defined.

(** X26.  Panning, in exact arithmetic on a canvas with a plot area: a
    motion to a pixel other than the press pixel does not raise; it keeps
    the Y span of the viewport recorded on the press, and leaves an X span
    that is positive and no wider than the recorded one; it is computed
    from the press, so after any earlier motion it gives the same
    viewport; but a motion back onto the press pixel itself changes
    nothing, leaving the viewport of the motion before. *)
Theorem pan_motion_spec (c : canvas Q) (sx sy : Z) (pan_start : Z * Z) (x0 x1 y0 y1 : Q) :
  ViewFacts.has_plot_area c ->
  (sx, sy) <> pan_start ->
  exists c',
    pan_motion sx sy pan_start (x0, x1, y0, y1) c = Some c'
    /\ y_max c' - y_min c' == y1 - y0
    /\ (x0 < x1 -> 0 < x_max c' - x_min c' /\ x_max c' - x_min c' <= x1 - x0)
    /\ (forall sx0 sy0 c0,
           pan_motion sx0 sy0 pan_start (x0, x1, y0, y1) c = Some c0 ->
           pan_motion sx sy pan_start (x0, x1, y0, y1) c0 = Some c'
           /\ pan_motion (fst pan_start) (snd pan_start) pan_start (x0, x1, y0, y1) c0
              = Some c0).
Proof.
  intros Hp Hne.
  assert (Hd : ((sx - fst pan_start =? 0) && (sy - snd pan_start =? 0))%Z = false).
  { apply andb_false_iff. destruct pan_start as [px py]. cbn [fst snd].
    destruct (Z.eqb_spec (sx - px) 0) as [Ex|Ex]; [|now left].
    destruct (Z.eqb_spec (sy - py) 0) as [Ey|Ey]; [|now right].
    exfalso. apply Hne. f_equal; lia. }
  rewrite (MoveFacts.pan_moved c sx sy pan_start x0 x1 y0 y1 Hp Hd).
  eexists. split; [reflexivity|].
  match goal with
  | |- context [_enforce_negative_axis_limit ?d] => set (moved_view := d)
  end.
  destruct (enforce_negative_axis_limit_y moved_view) as (Ey1 & Ey2 & _ & _).
  split; [|split].
  - rewrite Ey1, Ey2. unfold moved_view.
    cbn [set_x set_y x_min x_max y_min y_max fadd Q_PyFloat]. ring.
  - intros Hx.
    assert (Hw : x_min moved_view < x_max moved_view)
      by (unfold moved_view; cbn [set_x set_y x_min x_max y_min y_max fadd Q_PyFloat]; lra).
    destruct (FitFacts.enforce_negative_axis_limit_bound moved_view Hw) as (_ & Hpos & _).
    pose proof (MoveFacts.enforce_width moved_view Hw) as Hle.
    split; [lra|]. unfold moved_view in Hle at 3 4.
    cbn [set_x set_y x_min x_max y_min y_max fadd Q_PyFloat] in Hle. lra.
  - intros sx0 sy0 c0 Hc0.
    destruct (MoveFacts.pan_keeps_widget c c0 _ _ _ _ Hc0) as (Ew & Eh & El & Em).
    split.
    + assert (Hp0 : ViewFacts.has_plot_area c0)
        by (unfold ViewFacts.has_plot_area; rewrite Ew, Eh; exact Hp).
      rewrite (MoveFacts.pan_moved c0 sx sy pan_start x0 x1 y0 y1 Hp0 Hd).
      rewrite Ew, Eh. unfold moved_view.
      now rewrite (MoveFacts.set_view_same c c0 _ _ _ _ Ew Eh El Em).
    + unfold pan_motion. cbv zeta. now rewrite !Z.sub_diag.
Qed.

Lemma pan_motion_spec_witness :
  exists c', pan_motion 10 10 (0, 0)%Z (0, 1, 0, 1) (init_canvas (F := Q)) = Some c'.
Proof.
  destruct (pan_motion_spec init_canvas 10 10 (0, 0)%Z 0 1 0 1) as (c' & Hc & _).
  - split; reflexivity.
  - discriminate.
  - now exists c'.
Defined.

(** X27.  Box zoom, in exact arithmetic on a canvas with a plot area and a
    viewport of positive spans.  A box of five pixels or fewer in either
    direction changes nothing.  A larger box becomes the visible Y range:
    afterwards its upper edge is drawn at the top of the plot area and its
    lower edge at the bottom. *)
Theorem box_zoom_spec (c : canvas Q) (x0_s y0_s x1_s y1_s : Z) :
  ViewFacts.has_plot_area c -> valid_view c ->
  let c' := box_zoom_release (x0_s, y0_s) x1_s y1_s c in
  ((Z.abs (x0_s - x1_s) <= 5)%Z \/ (Z.abs (y0_s - y1_s) <= 5)%Z -> c' = c)
  /\ ((5 < Z.abs (x0_s - x1_s))%Z -> (5 < Z.abs (y0_s - y1_s))%Z ->
      forall x,
        snd (world_to_screen
               c' x (snd (screen_to_world c (of_int x0_s) (of_int (Z.min y0_s y1_s)))))
        == of_int margin_top
        /\ snd (world_to_screen
                  c' x (snd (screen_to_world c (of_int x0_s) (of_int (Z.max y0_s y1_s)))))
           == of_int (margin_top + (winfo_height c - margin_top - margin_bottom))).
Proof.
  intros Hp Hv c'. split.
  - intros Hsmall. unfold c', box_zoom_release.
    assert (Hb : ((5 <? Z.abs (x0_s - x1_s)) && (5 <? Z.abs (y0_s - y1_s)))%Z = false).
    { apply andb_false_iff. destruct Hsmall as [Hs|Hs]; [left|right]; apply Z.ltb_ge; lia. }
    now rewrite Hb.
  - intros Hbx Hby x.
    assert (Hbig : ((5 <? Z.abs (x0_s - x1_s)) && (5 <? Z.abs (y0_s - y1_s)))%Z = true).
    { apply andb_true_iff. split; apply Z.ltb_lt; assumption. }
    destruct (MoveFacts.box_zoom_big c _ _ _ _ Hp Hv Hbig)
      as (d & Ec & Ew & Eh & Hx & Etop & Ebot & Hy).
    fold c' in Ec.
    destruct (enforce_negative_axis_limit_y d) as (Ey1 & Ey2 & Ew' & Eh').
    assert (Hx' : x_min c' < x_max c').
    { rewrite Ec. now apply FitFacts.enforce_negative_axis_limit_bound. }
    assert (Hp' : ViewFacts.has_plot_area c').
    { unfold ViewFacts.has_plot_area. rewrite Ec, Ew', Eh', Ew, Eh. exact Hp. }
    assert (Emin : y_min c' = y_min d) by now rewrite Ec.
    assert (Emax : y_max c' = y_max d) by now rewrite Ec.
    assert (Eh'' : winfo_height c' = winfo_height c) by now rewrite Ec, Eh'.
    rewrite <- Etop, <- Ebot, <- Emin, <- Emax in *.
    rewrite !(ViewFacts.world_to_screen_eq c' _ _ Hp') by lra.
    cbn [snd fsub fdiv fmul Q_PyFloat]. rewrite Eh''.
    pose proof (ViewFacts.draw_h_pos c Hp) as Hh.
    set (dh := of_int (winfo_height c - margin_top - margin_bottom)) in *.
    assert (Esum : of_int (F := Q) (margin_top + (winfo_height c - margin_top - margin_bottom))
                   == of_int margin_top + dh).
    { unfold dh. rewrite !ViewFacts.of_int_inject. rewrite inject_Z_plus. reflexivity. }
    split.
    + rewrite Esum. field. lra.
    + rewrite Esum. field. lra.
Qed.

Lemma box_zoom_spec_witness :
  box_zoom_release (100, 100)%Z 103 400 (init_canvas (F := Q)) = init_canvas.
Proof.
  refine (proj1 (box_zoom_spec init_canvas 100 100 103 400 _ _) _).
  - split; reflexivity.
  - split; reflexivity.
  - left. vm_compute. discriminate.
Defined.
